(** * safe_uploader: relay, termination token and safe-commit orchestration

    A shallow embedding of [safe_uploader.py] (Python 2).  The module runs
    as two kinds of process: the relay ([main]), which copies standard
    input to standard output until the termination file holds the magic
    string, and the orchestrator ([safe_upload]), which spawns relay and
    uploader, watches the producers and decides when to write the magic
    string.  Everything the operating system decides (what a read
    returns, whether a process has exited, whether a system call fails)
    is an oracle of the environment; the program is a computation in a
    state-and-exception monad over a trace of the calls it made. *)

From Stdlib Require Import ZArith String Ascii List Lia.
From Stdlib Require QArith.
From stdpp Require Import base option list gmap strings.

(** ** Python values shared by both processes *)

(** Exceptions that can travel through this module. *)
Inductive exn : Type :=
| SystemExit (code : Z)              (* sys.exit(code) *)
| IOError (what : string)            (* file objects: open, read, write *)
| OSError (what : string)            (* os.mkdir, os.remove, Popen, kill *)
| UnboundLocalError (var : string)   (* local read before assignment *)
| ProcFailure (name : string) (code : Z)  (* fatal condition of the monitor *)
| TypeError (what : string)
| KeyError (key : string)             (* d[key] on a missing key *)
| AttributeError (what : string)
| CallerError (tag : nat).           (* anything a caller's callback raises *)

#[global] Instance exn_eq_dec : EqDecision exn.
Proof. solve_decision. Defined.

(** Outcome of running a piece of code: it returned, it raised, or the
    observation stopped while it was still looping. *)
Inductive res (A : Type) : Type :=
| Ok (a : A)
| Raise (e : exn)
| Running.
Arguments Ok {A} a.
Arguments Raise {A} e.
Arguments Running {A}.

(** An entry of the file system. *)
Inductive node : Type :=
| Dir
| File (contents : string).

#[global] Instance node_eq_dec : EqDecision node.
Proof. solve_decision. Defined.

(** Module constants. *)
Definition ATTEMPTS : Z := 5.
Definition BLOCK : Z := 262144.
Definition S3_SCRIPT : string := "/usr/local/bin/gof3r".
Definition SLEEP_TIME : QArith_base.Q := QArith_base.Qmake 25 100.
Definition TERM_DIR : string := "repeater_lock_dir".
Definition TERM_STRING : string := "TIME_TO_DIE".

(** ** The state-and-exception monad *)

Definition M (S A : Type) : Type := S → res A * S.

Definition ret {S A} (a : A) : M S A := λ s, (Ok a, s).
Definition raise {S A} (e : exn) : M S A := λ s, (Raise e, s).
Definition bind {S A B} (m : M S A) (k : A → M S B) : M S B :=
  λ s, match m s with
       | (Ok a, s') => k a s'
       | (Raise e, s') => (Raise e, s')
       | (Running, s') => (Running, s')
       end.

Declare Scope py_scope.
Delimit Scope py_scope with py.
Notation "x <- m ;; k" := (bind m (λ x, k))
  (at level 100, m at next level, k at level 200, right associativity)
  : py_scope.
Notation "m ;; k" := (bind m (λ _, k))
  (at level 100, k at level 200, right associativity) : py_scope.
Open Scope py_scope.

(** [while True: body], watched for [fuel] iterations.  [step] is run
    after every completed iteration (a ghost counter of iterations). *)
Fixpoint forever {S} (fuel : nat) (body : M S unit) (step : S → S)
  : M S unit :=
  match fuel with
  | O => λ s, (Running, s)
  | S n => λ s,
      match body s with
      | (Ok _, s') => forever n body step (step s')
      | r => r
      end
  end.

(** What the operating system reports as the exit status of a Python
    process whose main program ended with [r]. *)
Definition exit_status {A} (r : res A) : option Z :=
  match r with
  | Ok _ => Some 0%Z
  | Raise (SystemExit c) => Some c
  | Raise _ => Some 1%Z
  | Running => None
  end.

(** ** The relay process *)

Module Relay.

(** The environment of one relay process.  Each loop iteration makes at
    most one call of each kind, so every oracle is indexed by the
    iteration number. *)
Record world : Type := {
  stdin_data : nat → string;          (* what sys.stdin.read(BLOCK) returns *)
  stdout_closed : nat → bool;         (* sys.stdout.write raises IOError *)
  seen_by_exists : nat → gmap string node;  (* file system at os.path.exists *)
  seen_by_open : nat → gmap string node;    (* file system at open() *)
}.

Inductive event : Type :=
| Read (size : Z) (data : string)
| Sleep (secs : QArith_base.Q)
| Write (data : string) (ok : bool)
| Exists (path : string) (found : bool)
| OpenRead (path : string) (size : nat) (got : option string).

Record state : Type := {
  iter : nat;              (* completed iterations of the main loop *)
  trace : list event;      (* calls made so far, oldest first *)
}.

Definition start : state := {| iter := 0; trace := [] |}.
Definition log (e : event) (s : state) : state :=
  {| iter := iter s; trace := trace s ++ [e] |}.
Definition next_iter (s : state) : state :=
  {| iter := S (iter s); trace := trace s |}.

Section Program.
Variable w : world.

(** sys.stdin.read(size) *)
Definition stdin_read (size : Z) : M state string :=
  λ s, let data := stdin_data w (iter s) in (Ok data, log (Read size data) s).

(** time.sleep(secs) *)
Definition sleep (secs : QArith_base.Q) : M state unit :=
  λ s, (Ok tt, log (Sleep secs) s).

(** sys.stdout.write(data) *)
Definition stdout_write (data : string) : M state unit :=
  λ s, if stdout_closed w (iter s)
       then (Raise (IOError "Broken pipe"), log (Write data false) s)
       else (Ok tt, log (Write data true) s).

(** os.path.exists(path) *)
Definition os_path_exists (path : string) : M state bool :=
  λ s, let b := bool_decide (is_Some (seen_by_exists w (iter s) !! path)) in
       (Ok b, log (Exists path b) s).

(** with open(path, 'r') as h: h.read(size) *)
Definition open_read (path : string) (size : nat) : M state string :=
  λ s, match seen_by_open w (iter s) !! path with
       | Some (File c) =>
           let got := substring 0 size c in
           (Ok got, log (OpenRead path size (Some got)) s)
       | _ => (Raise (IOError "open"), log (OpenRead path size None) s)
       end.

(** sys.exit(code) *)
Definition sys_exit {A} (code : Z) : M state A := raise (SystemExit code).

Definition check_term_file (term_path : string) : M state bool :=
  contents <- open_read term_path (String.length TERM_STRING);;
  if String.eqb contents TERM_STRING then ret true else ret false.

(** One pass through the body of [while True] in [main];
    [terminate_path] is [args.terminate_path], the one positional
    argument of the command line. *)
Definition main_body (terminate_path : string) : M state unit :=
  data <- stdin_read BLOCK;;
  if Nat.eqb (String.length data) 0 then
    sleep (QArith_base.Qmake 25 100);;
    stdout_write data;;
    found <- os_path_exists terminate_path;;
    if found then
      stop <- check_term_file terminate_path;;
      if stop then sys_exit 0 else ret tt
    else ret tt
  else
    stdout_write data.

Definition main (terminate_path : string) (fuel : nat) : M state unit :=
  forever fuel (main_body terminate_path) next_iter.

End Program.

(** Bytes taken from standard input and bytes handed to standard output,
    read off the trace. *)
Fixpoint consumed (t : list event) : string :=
  match t with
  | [] => ""
  | Read _ d :: t' => d +:+ consumed t'
  | _ :: t' => consumed t'
  end.

Fixpoint emitted (t : list event) : string :=
  match t with
  | [] => ""
  | Write d true :: t' => d +:+ emitted t'
  | _ :: t' => emitted t'
  end.

(** *** What a run of the relay is measured against *)

(** The token at [path], as iteration [i] finds it, holds the magic
    string in its leading bytes. *)
Definition signalled (w : world) (path : string) (i : nat) : Prop :=
  is_Some (seen_by_exists w i !! path) ∧
  ∃ c, seen_by_open w i !! path = Some (File c) ∧
       substring 0 (String.length TERM_STRING) c = TERM_STRING.

(** The token is absent, or is a file whose leading bytes differ. *)
Definition unsignalled (w : world) (path : string) (i : nat) : Prop :=
  seen_by_exists w i !! path = None ∨
  ∃ c, seen_by_open w i !! path = Some (File c) ∧
       substring 0 (String.length TERM_STRING) c ≠ TERM_STRING.

(** The first [n] chunks of the input stream. *)
Fixpoint input_upto (w : world) (n : nat) : string :=
  match n with
  | O => ""
  | S k => input_upto w k +:+ stdin_data w k
  end.

(** Number of reads in a trace. *)
Fixpoint reads (t : list event) : nat :=
  match t with
  | [] => 0
  | Read _ _ :: t' => S (reads t')
  | _ :: t' => reads t'
  end.

(** *** Scenarios *)

(** A relay whose input has dried up and whose token holds [content]. *)
Definition idle_world (path content : string) : world :=
  {| stdin_data := λ _, "";
     stdout_closed := λ _, false;
     seen_by_exists := λ _, {[ path := File content ]};
     seen_by_open := λ _, {[ path := File content ]} |}.

(** A relay that is fed two chunks with a pause in between and finds the
    token signalled from the fourth pass on. *)
Definition two_chunk_world : world :=
  {| stdin_data := λ i, match i with 0 => "ab" | 2 => "cd" | _ => "" end;
     stdout_closed := λ _, false;
     seen_by_exists := λ i, if Nat.leb 3 i then {[ "tok" := File "TIME_TO_DIE" ]} else ∅;
     seen_by_open := λ i, if Nat.leb 3 i then {[ "tok" := File "TIME_TO_DIE" ]} else ∅ |}.



(** *** Passes that find data, and more scenarios *)

(** The calls of the first [n] passes when each of them found data: the
    read, and the write of what was read. *)
Fixpoint forwarding (w : world) (n : nat) : list event :=
  match n with
  | O => []
  | S k =>
      forwarding w k ++
      [Read BLOCK (stdin_data w k); Write (stdin_data w k) true]
  end.

(** A relay that finds data at every read, next to a token that has been
    signalled all along. *)
Definition busy_world : world :=
  {| stdin_data := λ _, "x";
     stdout_closed := λ _, false;
     seen_by_exists := λ _, {[ "tok" := File "TIME_TO_DIE" ]};
     seen_by_open := λ _, {[ "tok" := File "TIME_TO_DIE" ]} |}.

(** A relay whose token is removed between the existence test and the
    open. *)
Definition vanishing_token_world : world :=
  {| stdin_data := λ _, "";
     stdout_closed := λ _, false;
     seen_by_exists := λ _, {[ "tok" := File "TIME_TO_DIE" ]};
     seen_by_open := λ _, ∅ |}.


End Relay.

(** ** The orchestrator process *)

Module Orchestrator.

(** Python's [str.endswith] and [s[:-1]]. *)
Definition endswith (s suffix : string) : bool :=
  let n := String.length s in
  let k := String.length suffix in
  Nat.leb k n && String.eqb (substring (n - k) k s) suffix.

Definition drop_last (s : string) : string :=
  substring 0 (String.length s - 1) s.

(** [os.path.join] of two components (posixpath). *)
Definition path_join (a b : string) : string :=
  if String.prefix "/" b then b
  else if String.eqb a "" || endswith a "/" then a +:+ b
  else a +:+ "/" +:+ b.

(** Streams that are handed to child processes. *)
Inductive stream : Type :=
| CallerStream (id : nat)     (* a file object owned by the caller *)
| PipeOf (pid : Z)            (* the stdout pipe of a child *)
| DevNull.

(** A [subprocess.Popen] object. *)
Record Popen : Type := {
  pid : Z;
  stdout : option stream;
}.

(** Which of [safe_upload]'s two dicts a poll belongs to.  The label is
    carried for the trace only and never inspected by the program. *)
Inductive group : Type := Precursor | Upload.

Inductive event : Type :=
| OpenDevnull (ok : bool)
| PathExists (path : string) (found : bool)
| Mkdir (path : string) (ok : bool)
| Mkstemp (dir : string) (got : option string)
| Close (fd : Z)
| Spawn (argv : list string) (stdin stderr : option stream) (got : option Z)
| Poll (g : group) (name : string) (p : Z) (ret : option Z)
| Sleep (secs : QArith_base.Q)
| Validate (raised : option exn)
| WriteFile (path : string) (data : string) (ok : bool)
| PidExists (p : Z) (found : bool)
| Kill (p : Z) (ok : bool)
| Remove (path : string) (ok : bool).

(** Everything outside the module: ambient constants, library functions
    and the operating system.  The oracles are indexed by the instant
    [now] at which the call is made. *)
Record world : Type := {
  RAID_MOUNT : string;               (* environment_specific.RAID_MOUNT *)
  exec_dir : string;     (* os.path.dirname(os.path.abspath(__file__)) *)
  exec_file : string;                (* __file__ *)
  quote_plus : string → string;      (* urllib.quote_plus *)
  others : nat → gmap string node → gmap string node;
    (* what other processes did to the file system since our last call *)
  io_fails : nat → bool;             (* this file-system call fails *)
  tmp_names : nat → list string;     (* candidate names drawn by tempfile *)
  new_fd : nat → Z;
  spawn_pid : nat → option Z;        (* pid of the new child, or failure *)
  poll_ret : nat → Z → option Z;     (* Popen.poll(): None while running *)
  pid_alive : nat → Z → bool;        (* psutil.pid_exists *)
  kill_fails : nat → Z → bool;       (* Popen.kill() raises *)
}.

(** A caller-supplied check: given its argument and the instant of the
    call, the exception it raises, if any. *)
Definition callback (A : Type) : Type := A → nat → option exn.

Record state : Type := {
  now : nat;                         (* calls into the environment so far *)
  fs : gmap string node;             (* the file system *)
  trace : list event;                (* calls made so far, oldest first *)
  exc_info : option exn;             (* the exception last caught *)
  upload_procs : gmap string Popen;  (* local variable of safe_upload *)
  term_path : option string;         (* local variable, None while unbound *)
}.

Definition start (files : gmap string node) : state :=
  {| now := 0; fs := files; trace := []; exc_info := None;
     upload_procs := ∅; term_path := None |}.

Definition emit (e : event) (s : state) : state :=
  {| now := S (now s); fs := fs s; trace := trace s ++ [e];
     exc_info := exc_info s; upload_procs := upload_procs s;
     term_path := term_path s |}.
Definition set_fs (f : gmap string node) (s : state) : state :=
  {| now := now s; fs := f; trace := trace s; exc_info := exc_info s;
     upload_procs := upload_procs s; term_path := term_path s |}.
Definition set_exc_info (e : option exn) (s : state) : state :=
  {| now := now s; fs := fs s; trace := trace s; exc_info := e;
     upload_procs := upload_procs s; term_path := term_path s |}.
Definition set_upload_procs (d : gmap string Popen) (s : state) : state :=
  {| now := now s; fs := fs s; trace := trace s; exc_info := exc_info s;
     upload_procs := d; term_path := term_path s |}.
Definition set_term_path (p : option string) (s : state) : state :=
  {| now := now s; fs := fs s; trace := trace s; exc_info := exc_info s;
     upload_procs := upload_procs s; term_path := p |}.

(** *** Control constructs *)

(** [try: body / except: handler].  Entering the handler records the
    caught exception as the current one.  In Python 2 this record is not
    restored when an inner handler ends: a bare [raise] re-raises the
    exception caught last in the frame. *)
Definition try_except {A} (body handler : M state A) : M state A :=
  λ s, match body s with
       | (Raise e, s') => handler (set_exc_info (Some e) s')
       | r => r
       end.

(** A bare [raise]: re-raises the current exception of the frame, which
    after a swallowed inner exception is that inner one.  With no current
    exception Python 2 raises a [TypeError]. *)
Definition reraise {A} : M state A :=
  λ s, match exc_info s with
       | Some e => (Raise e, s)
       | None =>
           (Raise (TypeError
              "exceptions must be old-style classes or derived from BaseException, not NoneType"),
            s)
       end.

(** [try: body / finally: cleanup].  An exception raised by the cleanup
    replaces whatever the body ended with. *)
Definition try_finally {A} (body : M state A) (cleanup : M state unit)
  : M state A :=
  λ s, match body s with
       | (Running, s') => (Running, s')
       | (r, s') =>
           match cleanup s' with
           | (Ok _, s'') => (r, s'')
           | (Raise e, s'') => (Raise e, s'')
           | (Running, s'') => (Running, s'')
           end
       end.

(** A function call: the current exception of the caller is restored
    when the callee's frame is left. *)
Definition in_frame {A} (m : M state A) : M state A :=
  λ s, let '(r, s') := m s in (r, set_exc_info (exc_info s) s').

(** [while cond: body], watched for [fuel] evaluations of the test. *)
Fixpoint while (fuel : nat) (cond : M state bool) (body : M state unit)
  : M state unit :=
  match fuel with
  | O => λ s, (Running, s)
  | S n => c <- cond;; if c then body;; while n cond body else ret tt
  end.

Fixpoint for_each {A} (l : list A) (body : A → M state unit) : M state unit :=
  match l with
  | [] => ret tt
  | x :: l' => body x;; for_each l' body
  end.

(** [d[key]] *)
Definition getitem {V} (d : gmap string V) (key : string) : M state V :=
  match d !! key with
  | Some v => ret v
  | None => raise (KeyError key)
  end.

Section Program.
Variable w : world.

(** *** Calls into the environment *)

(** The file system as the call made now finds it. *)
Definition seen (s : state) : gmap string node := others w (now s) (fs s).

(** open(os.devnull, 'w') *)
Definition open_devnull : M state stream :=
  λ s, if io_fails w (now s)
       then (Raise (IOError "open"), emit (OpenDevnull false) s)
       else (Ok DevNull, emit (OpenDevnull true) s).

(** os.path.exists(path) *)
Definition os_path_exists (path : string) : M state bool :=
  λ s, let b := bool_decide (is_Some (seen s !! path)) in
       (Ok b, emit (PathExists path b) (set_fs (seen s) s)).

(** os.mkdir(path) *)
Definition os_mkdir (path : string) : M state unit :=
  λ s, match seen s !! path with
       | None =>
           if io_fails w (now s)
           then (Raise (OSError "mkdir"), emit (Mkdir path false) (set_fs (seen s) s))
           else (Ok tt, emit (Mkdir path true) (set_fs (<[path := Dir]> (seen s)) s))
       | Some _ =>
           (Raise (OSError "mkdir"), emit (Mkdir path false) (set_fs (seen s) s))
       end.

(** The first candidate name that is free in [dir]: tempfile opens each
    candidate with O_CREAT | O_EXCL and moves on when it exists. *)
Fixpoint first_free (dir : string) (names : list string)
    (files : gmap string node) : option string :=
  match names with
  | [] => None
  | n :: names' =>
      let file := path_join dir ("tmp" +:+ n) in
      match files !! file with
      | None => Some file
      | Some _ => first_free dir names' files
      end
  end.

(** tempfile.mkstemp(dir=dir): (handle, path) of a new empty file.  The
    library returns [os.path.abspath] of the name it opened; [dir] is
    taken to be absolute and normalised (it hangs off [RAID_MOUNT]), so
    that is the name itself. *)
Definition tempfile_mkstemp (dir : string) : M state (Z * string) :=
  λ s, let failed e := (Raise e, emit (Mkstemp dir None) (set_fs (seen s) s)) in
       if io_fails w (now s) then failed (OSError "mkstemp") else
       match seen s !! dir with
       | Some Dir =>
           match first_free dir (tmp_names w (now s)) (seen s) with
           | Some file =>
               (Ok (new_fd w (now s), file),
                emit (Mkstemp dir (Some file))
                     (set_fs (<[file := File ""]> (seen s)) s))
           | None => failed (IOError "No usable temporary file name found")
           end
       | _ => failed (OSError "mkstemp")
       end.

(** os.close(handle) *)
Definition os_close (fd : Z) : M state unit :=
  λ s, (Ok tt, emit (Close fd) s).

(** with open(path, 'w') as handle: handle.write(data) *)
Definition write_file (path data : string) : M state unit :=
  λ s, if io_fails w (now s)
       then (Raise (IOError "write"), emit (WriteFile path data false) (set_fs (seen s) s))
       else (Ok tt, emit (WriteFile path data true)
                         (set_fs (<[path := File data]> (seen s)) s)).

(** os.remove(path) *)
Definition os_remove (path : string) : M state unit :=
  λ s, let failed := (Raise (OSError "remove"),
                      emit (Remove path false) (set_fs (seen s) s)) in
       if io_fails w (now s) then failed else
       match seen s !! path with
       | Some (File _) =>
           (Ok tt, emit (Remove path true) (set_fs (delete path (seen s)) s))
       | _ => failed
       end.

(** subprocess.Popen(argv, stdin=.., stdout=PIPE or inherited, stderr=..) *)
Definition Popen_new (argv : list string) (stdin : option stream)
    (pipe_stdout : bool) (stderr : option stream) : M state Popen :=
  λ s, match spawn_pid w (now s) with
       | Some p =>
           (Ok {| pid := p;
                  stdout := if pipe_stdout then Some (PipeOf p) else None |},
            emit (Spawn argv stdin stderr (Some p)) s)
       | None =>
           (Raise (OSError "Popen"), emit (Spawn argv stdin stderr None) s)
       end.

(** proc.poll() *)
Definition Popen_poll (g : group) (name : string) (proc : Popen)
  : M state (option Z) :=
  λ s, let r := poll_ret w (now s) (pid proc) in
       (Ok r, emit (Poll g name (pid proc) r) s).

(** proc.kill() *)
Definition Popen_kill (proc : Popen) : M state unit :=
  λ s, if kill_fails w (now s) (pid proc)
       then (Raise (OSError "kill"), emit (Kill (pid proc) false) s)
       else (Ok tt, emit (Kill (pid proc) true) s).

(** psutil.pid_exists(pid) *)
Definition psutil_pid_exists (p : Z) : M state bool :=
  λ s, let b := pid_alive w (now s) p in (Ok b, emit (PidExists p b) s).

(** time.sleep(secs) *)
Definition time_sleep (secs : QArith_base.Q) : M state unit :=
  λ s, (Ok tt, emit (Sleep secs) s).

(** check_func(check_arg) *)
Definition call {A} (f : callback A) (arg : A) : M state unit :=
  λ s, match f arg (now s) with
       | Some e => (Raise e, emit (Validate (Some e)) s)
       | None => (Ok tt, emit (Validate None) s)
       end.

(** Modelled from the spec: [host_utils.check_dict_of_procs], the monitor
    of a process group, lives in [lib/host_utils.py], which is not among
    the sources.  It polls every handle of the group without blocking,
    raises a fatal condition naming the process and its exit code as
    soon as it meets one that exited with a non-success status, and
    returns true only when every handle has exited with success. *)
Fixpoint poll_all (g : group) (procs : list (string * Popen))
    (all_done : bool) : M state bool :=
  match procs with
  | [] => ret all_done
  | (name, proc) :: procs' =>
      r <- Popen_poll g name proc;;
      match r with
      | None => poll_all g procs' false
      | Some c =>
          if Z.eqb c 0 then poll_all g procs' all_done
          else raise (ProcFailure name c)
      end
  end.

Definition check_dict_of_procs (g : group) (procs : gmap string Popen)
  : M state bool :=
  poll_all g (map_to_list procs) true.

(** *** The module's functions *)

Definition get_exec_path : string :=
  let path := path_join (exec_dir w) (exec_file w) in
  if endswith path ".pyc" then drop_last path else path.

Definition get_term_dir : M state string :=
  let term_dir := path_join (RAID_MOUNT w) TERM_DIR in
  found <- os_path_exists term_dir;;
  (if negb found then os_mkdir term_dir else ret tt);;
  ret term_dir.

Definition get_term_file : M state string :=
  term_dir <- get_term_dir;;
  hp <- tempfile_mkstemp term_dir;;
  os_close (fst hp);;
  ret (snd hp).

(** Local variables of [safe_upload]. *)
Definition store_upload_proc (key : string) (proc : Popen) : M state unit :=
  λ s, (Ok tt, set_upload_procs (<[key := proc]> (upload_procs s)) s).
Definition load_upload_procs : M state (gmap string Popen) :=
  λ s, (Ok (upload_procs s), s).
Definition store_term_path (path : string) : M state unit :=
  λ s, (Ok tt, set_term_path (Some path) s).
Definition load_term_path : M state string :=
  λ s, match term_path s with
       | Some path => (Ok path, s)
       | None => (Raise (UnboundLocalError "term_path"), s)
       end.
Definition new_locals : M state unit :=
  λ s, (Ok tt, set_term_path None (set_upload_procs ∅ s)).

(** The first loop: watch the producers, and the upload side with them. *)
Definition wait_precursors (fuel : nat) (precursor_procs : gmap string Popen)
  : M state unit :=
  while fuel
    (done <- check_dict_of_procs Precursor precursor_procs;; ret (negb done))
    (ups <- load_upload_procs;;
     check_dict_of_procs Upload ups;;
     time_sleep SLEEP_TIME).

(** The last loop: wait for the upload side to finish. *)
Definition wait_upload (fuel : nat) : M state unit :=
  while fuel
    (ups <- load_upload_procs;;
     done <- check_dict_of_procs Upload ups;; ret (negb done))
    (time_sleep SLEEP_TIME).

(** The first three statements of [try:]: the token, the relay and the
    uploader. *)
Definition spawn_upload_procs (stdin : stream) (bucket key : string)
    (devnull : stream) : M state unit :=
  path <- get_term_file;;
  store_term_path path;;
  path <- load_term_path;;
  repeater <- Popen_new [get_exec_path; path] (Some stdin) true None;;
  store_upload_proc "repeater" repeater;;
  ups <- load_upload_procs;;
  repeater <- getitem ups "repeater";;
  uploader <- Popen_new [S3_SCRIPT; "put"; "-k"; quote_plus w key; "-b"; bucket]
                        (stdout repeater) false (Some devnull);;
  store_upload_proc "uploader" uploader.

(** [if check_func: check_func(check_arg)] *)
Definition run_check {A} (check_func : option (callback A)) (check_arg : A)
  : M state unit :=
  match check_func with
  | Some f => call f check_arg
  | None => ret tt
  end.

(** [with open(term_path, 'w') as term_handle:
       term_handle.write(TERM_STRING)] *)
Definition signal : M state unit :=
  path <- load_term_path;;
  write_file path TERM_STRING.

(** The body of [try:] in [safe_upload]. *)
Definition try_block {A} (fuel : nat) (precursor_procs : gmap string Popen)
    (stdin : stream) (bucket key : string)
    (check_func : option (callback A)) (check_arg : A)
    (devnull : stream) : M state unit :=
  spawn_upload_procs stdin bucket key devnull;;
  wait_precursors fuel precursor_procs;;
  run_check check_func check_arg;;
  signal;;
  wait_upload fuel.

(** [if name in upload_procs and psutil.pid_exists(upload_procs[name].pid):
       try: upload_procs[name].kill() / except: pass] *)
Definition kill_upload_proc (name : string) : M state unit :=
  ups <- load_upload_procs;;
  if bool_decide (is_Some (ups !! name)) then
    proc <- getitem ups name;;
    alive <- psutil_pid_exists (pid proc);;
    if alive then
      ups <- load_upload_procs;;
      proc <- getitem ups name;;
      try_except (Popen_kill proc) (ret tt)
    else ret tt
  else ret tt.

(** The body of [except:] in [safe_upload]. *)
Definition except_block : M state unit :=
  kill_upload_proc "uploader";;
  kill_upload_proc "repeater";;
  reraise.

(** The body of [finally:] in [safe_upload]. *)
Definition finally_block : M state unit :=
  path <- load_term_path;;
  os_remove path.

(** The [try: / except:] part of the statement in [safe_upload]. *)
Definition attempt {A} (fuel : nat) (precursor_procs : gmap string Popen)
    (stdin : stream) (bucket key : string)
    (check_func : option (callback A)) (check_arg : A)
    (devnull : stream) : M state unit :=
  try_except
    (try_block fuel precursor_procs stdin bucket key
               check_func check_arg devnull)
    except_block.

(** The whole [try: / except: / finally:] statement. *)
Definition guarded {A} (fuel : nat) (precursor_procs : gmap string Popen)
    (stdin : stream) (bucket key : string)
    (check_func : option (callback A)) (check_arg : A)
    (devnull : stream) : M state unit :=
  try_finally
    (attempt fuel precursor_procs stdin bucket key
             check_func check_arg devnull)
    finally_block.

Definition safe_upload {A} (fuel : nat) (precursor_procs : gmap string Popen)
    (stdin : stream) (bucket key : string)
    (check_func : option (callback A)) (check_arg : A) : M state unit :=
  in_frame
    (new_locals;;
     devnull <- open_devnull;;
     guarded fuel precursor_procs stdin bucket key
             check_func check_arg devnull).

(** [if procs[proc] and psutil.pid_exists(procs[proc].pid):
       try: procs[proc].kill() / except: pass] *)
Definition kill_precursor_proc (procs : gmap string (option Popen))
    (proc : string) : M state unit :=
  v <- getitem procs proc;;
  match v with
  | None => ret tt
  | Some _ =>
      v <- getitem procs proc;;
      match v with
      | None => raise (AttributeError "'NoneType' object has no attribute 'pid'")
      | Some handle =>
          alive <- psutil_pid_exists (pid handle);;
          if alive then
            v <- getitem procs proc;;
            match v with
            | None => raise (AttributeError "'NoneType' object has no attribute 'kill'")
            | Some handle => try_except (Popen_kill handle) (ret tt)
            end
          else ret tt
      end
  end.

Definition kill_precursor_procs (procs : gmap string (option Popen))
  : M state unit :=
  in_frame (for_each (map_to_list procs).*1 (kill_precursor_proc procs)).

End Program.

(** *** Readings of a trace and the grammar of its loops *)

(** The part of [safe_upload] an event belongs to. *)
Inductive stage : Type := Setup | Watch | Validation | Commit | Teardown | Cleanup.

#[global] Instance stage_eq_dec : EqDecision stage.
Proof. solve_decision. Defined.

Definition stage_of (e : event) : stage :=
  match e with
  | OpenDevnull _ | PathExists _ _ | Mkdir _ _ | Mkstemp _ _ | Close _
  | Spawn _ _ _ _ => Setup
  | Poll _ _ _ _ | Sleep _ => Watch
  | Validate _ => Validation
  | WriteFile _ _ _ => Commit
  | PidExists _ _ | Kill _ _ => Teardown
  | Remove _ _ => Cleanup
  end.

(** Readings of a trace. *)
Definition created_tokens (t : list event) : list string :=
  omap (λ e, match e with Mkstemp _ (Some p) => Some p | _ => None end) t.
Definition spawned (t : list event) : list Z :=
  omap (λ e, match e with Spawn _ _ _ (Some p) => Some p | _ => None end) t.
Definition signals (t : list event) : list (string * string * bool) :=
  omap (λ e, match e with WriteFile p d ok => Some (p, d, ok) | _ => None end) t.
Definition kills (t : list event) : list (Z * bool) :=
  omap (λ e, match e with Kill p ok => Some (p, ok) | _ => None end) t.
Definition removals (t : list event) : list (string * bool) :=
  omap (λ e, match e with Remove p ok => Some (p, ok) | _ => None end) t.
Definition validations (t : list event) : list (option exn) :=
  omap (λ e, match e with Validate r => Some r | _ => None end) t.

(** A poll that found the process still running or exited with success,
    and a poll that found it exited with a failure. *)
Definition calm_poll (g : group) (e : event) : Prop :=
  ∃ name p ret, e = Poll g name p ret ∧ (ret = None ∨ ret = Some 0%Z).
Definition failed_poll (g : group) (e : event) : Prop :=
  ∃ name p c, e = Poll g name p (Some c) ∧ c ≠ 0%Z.

(** One poll of every process of a dict, none of which has failed. *)
Definition calm_round (g : group) (procs : gmap string Popen)
    (t : list event) : Prop :=
  Forall2 (λ np e, ∃ ret, e = Poll g np.1 (pid np.2) ret ∧
                          (ret = None ∨ ret = Some 0%Z))
          (map_to_list procs) t.

(** One poll of every process of a dict, all exited with success. *)
Definition success_round (g : group) (procs : gmap string Popen)
  : list event :=
  (λ np, Poll g np.1 (pid np.2) (Some 0%Z)) <$> map_to_list procs.

(** What [check_func] leaves in the trace when it returns. *)
Definition check_passed {A} (check_func : option (callback A)) : list event :=
  match check_func with
  | Some _ => [Validate None]
  | None => []
  end.

(** The attempt to kill one process: nothing when there is no handle,
    else the existence test, followed by the kill when it exists. *)
Definition kill_attempt (handle : option Popen) (t : list event) : Prop :=
  match handle with
  | None => t = []
  | Some proc =>
      t = [PidExists (pid proc) false] ∨
      ∃ ok, t = [PidExists (pid proc) true; Kill (pid proc) ok]
  end.

(** The traces of the first loop, by the way it ends: the producers are
    all done, the observation stops, a producer has failed, the upload
    side has failed, or one more round of polls and a sleep. *)
Inductive watch1 (ups procs : gmap string Popen)
  : res unit → list event → Prop :=
| watch1_done :
    watch1 ups procs (Ok tt) (success_round Precursor procs)
| watch1_unfinished :
    watch1 ups procs Running []
| watch1_precursor_failed t name p c :
    Forall (calm_poll Precursor) t → c ≠ 0%Z →
    watch1 ups procs (Raise (ProcFailure name c))
           (t ++ [Poll Precursor name p (Some c)])
| watch1_upload_failed tp t name p c :
    calm_round Precursor procs tp → Forall (calm_poll Upload) t → c ≠ 0%Z →
    watch1 ups procs (Raise (ProcFailure name c))
           (tp ++ t ++ [Poll Upload name p (Some c)])
| watch1_round tp tu r t :
    calm_round Precursor procs tp → calm_round Upload ups tu →
    watch1 ups procs r t →
    watch1 ups procs r (tp ++ tu ++ Sleep SLEEP_TIME :: t).

(** The traces of the last loop. *)
Inductive watch2 (ups : gmap string Popen) : res unit → list event → Prop :=
| watch2_done :
    watch2 ups (Ok tt) (success_round Upload ups)
| watch2_unfinished :
    watch2 ups Running []
| watch2_failed t name p c :
    Forall (calm_poll Upload) t → c ≠ 0%Z →
    watch2 ups (Raise (ProcFailure name c))
           (t ++ [Poll Upload name p (Some c)])
| watch2_round tu r t :
    calm_round Upload ups tu → watch2 ups r t →
    watch2 ups r (tu ++ Sleep SLEEP_TIME :: t).

(** The traces of the [try:] block from the first loop on, by the
    statement it ends in. *)
Inductive tried {A} (procs ups : gmap string Popen)
    (check_func : option (callback A)) (path : string)
  : res unit → list event → Prop :=
| tried_watching r t :
    watch1 ups procs r t → r ≠ Ok tt →
    tried procs ups check_func path r t
| tried_check_raised t e :
    watch1 ups procs (Ok tt) t →
    tried procs ups check_func path (Raise e) (t ++ [Validate (Some e)])
| tried_signal_failed t :
    watch1 ups procs (Ok tt) t →
    tried procs ups check_func path (Raise (IOError "write"))
          (t ++ check_passed check_func ++ [WriteFile path TERM_STRING false])
| tried_committed t r t2 :
    watch1 ups procs (Ok tt) t → watch2 ups r t2 →
    tried procs ups check_func path r
          (t ++ check_passed check_func ++
           WriteFile path TERM_STRING true :: t2).

(** What the [except:] block adds to a [try:] block that ended with
    [r1]: nothing when it returned; else the two kill attempts and a
    re-raise, of the same exception when no kill raised. *)
Definition torn (ups : gmap string Popen) (r1 r2 : res unit)
    (tu tr : list event) : Prop :=
  match r1 with
  | Ok _ => r2 = r1 ∧ tu = [] ∧ tr = []
  | Raise e =>
      kill_attempt (ups !! "uploader") tu ∧
      kill_attempt (ups !! "repeater") tr ∧
      (∃ e', r2 = Raise e') ∧
      (Forall (λ k, k.2 = true) (kills (tu ++ tr)) → r2 = Raise e)
  | Running => False
  end.

(** What the [finally:] block adds to an outcome [r2]. *)
Inductive swept (token : option string) (r2 : res unit)
  : res unit → list event → Prop :=
| swept_unbound :
    token = None → swept token r2 (Raise (UnboundLocalError "term_path")) []
| swept_removed path :
    token = Some path → swept token r2 r2 [Remove path true]
| swept_failed path :
    token = Some path →
    swept token r2 (Raise (OSError "remove")) [Remove path false].

(** An event other than a poll that found a failed process. *)
Definition calm (e : event) : Prop := ∀ g, ¬ failed_poll g e.

(** The failures the monitor met: dict, name and exit code. *)
Definition failure_of (e : event) : option (group * string * Z) :=
  match e with
  | Poll g name _ (Some c) => if Z.eqb c 0 then None else Some (g, name, c)
  | _ => None
  end.
Definition failures (t : list event) : list (group * string * Z) :=
  omap failure_of t.

(** What a block leaves untouched: the locals, and the current exception. *)
Definition same_locals (s s' : state) : Prop :=
  upload_procs s' = upload_procs s ∧ term_path s' = term_path s.
Definition same_frame (s s' : state) : Prop :=
  same_locals s s' ∧ exc_info s' = exc_info s.

(** The state in which [try:] is entered has no upload process and no
    token yet. *)
Definition fresh (s : state) : Prop :=
  upload_procs s = ∅ ∧ term_path s = None.

(** A trace is [settled] for an outcome when a poll that found a failed
    process can only be its last event, and the outcome is then an
    exception. *)
Definition settled (r : res unit) (t : list event) : Prop :=
  Forall calm t ∨
  ∃ t' g name p c, t = t' ++ [Poll g name p (Some c)] ∧ Forall calm t' ∧
                   c ≠ 0%Z ∧ r = Raise (ProcFailure name c).

(** ** Scenarios *)

(** One producer, [mysqldump], with pid 7. *)
Definition one_producer : gmap string Popen :=
  {[ "mysqldump" := {| pid := 7; stdout := Some (PipeOf 7) |} ]}.

(** A machine on which nothing goes wrong: every process is still running
    at its first polls and has exited with status 0 from instant 12 on. *)
Definition calm_world : world :=
  {| RAID_MOUNT := "/raid0";
     exec_dir := "/opt/mysql_utils";
     exec_file := "safe_uploader.py";
     quote_plus := λ key, key;
     others := λ _ files, files;
     io_fails := λ _, false;
     tmp_names := λ _, ["abc"; "def"];
     new_fd := λ _, 3%Z;
     spawn_pid := λ t, Some (Z.of_nat (100 + t));
     poll_ret := λ t _, if Nat.leb 12 t then Some 0%Z else None;
     pid_alive := λ _ _, true;
     kill_fails := λ _ _, false |}.

(** The same machine with its oracles for polls, system-call failures and
    kills replaced. *)
Definition world_with (polls : nat → Z → option Z) (fails : nat → bool)
    (kill_raises : nat → Z → bool) : world :=
  {| RAID_MOUNT := "/raid0";
     exec_dir := "/opt/mysql_utils";
     exec_file := "safe_uploader.py";
     quote_plus := λ key, key;
     others := λ _ files, files;
     io_fails := fails;
     tmp_names := λ _, ["abc"; "def"];
     new_fd := λ _, 3%Z;
     spawn_pid := λ t, Some (Z.of_nat (100 + t));
     poll_ret := polls;
     pid_alive := λ _ _, true;
     kill_fails := kill_raises |}.

(** The producer has exited with status 1; relay and uploader run. *)
Definition producer_failed (t : nat) (p : Z) : option Z :=
  if Z.eqb p 7 then Some 1%Z else None.

(** The producer runs; the uploader (pid 106) has exited with status 1. *)
Definition uploader_failed (t : nat) (p : Z) : option Z :=
  if Z.eqb p 106 then Some 1%Z else None.

Definition failing_producer_world : world :=
  world_with producer_failed (λ _, false) (λ _ _, false).
Definition failing_uploader_world : world :=
  world_with uploader_failed (λ _, false) (λ _ _, false).

(** The directory of the tokens cannot be made: the [os.mkdir] issued at
    instant 2 fails. *)
Definition no_term_dir_world : world :=
  world_with (λ _ _, None) (λ t, Nat.eqb t 2) (λ _ _, false).

(** The producer has failed and the removal of the token, issued at
    instant 12, fails. *)
Definition remove_fails_world : world :=
  world_with producer_failed (λ t, Nat.eqb t 12) (λ _ _, false).

(** The producer has failed and every kill raises. *)
Definition kill_raises_world : world :=
  world_with producer_failed (λ _, false) (λ _ _, true).

(** A call of [safe_upload] without a check function, on an empty file
    system. *)
Definition upload (w : world) (fuel : nat) : res unit * state :=
  safe_upload w fuel one_producer (CallerStream 0) "bucket" "key"
              (None : option (callback unit)) tt (start ∅).

(** The [try:] block and the [try: / except:] part of that call. *)
Definition upload_try (w : world) (fuel : nat) : res unit * state :=
  try_block w fuel one_producer (CallerStream 0) "bucket" "key"
            (None : option (callback unit)) tt DevNull
            (emit (OpenDevnull true) (start ∅)).
Definition upload_attempt (w : world) (fuel : nat) : res unit * state :=
  attempt w fuel one_producer (CallerStream 0) "bucket" "key"
          (None : option (callback unit)) tt DevNull
          (emit (OpenDevnull true) (start ∅)).

(** The state of that call when its first loop starts. *)
Definition watching (w : world) : state :=
  (spawn_upload_procs w (CallerStream 0) "bucket" "key" DevNull
     (emit (OpenDevnull true) (start ∅))).2.

(** The path of the token in these scenarios. *)
Definition the_token : string := "/raid0/repeater_lock_dir/tmpabc".


(** *** The trace as a record of the environment *)

(** The calls of [subprocess.Popen] in a trace, failed ones included. *)
Definition spawn_calls (t : list event)
  : list (list string * option stream * option stream * option Z) :=
  omap (λ e, match e with
             | Spawn argv sin serr got => Some (argv, sin, serr, got)
             | _ => None
             end) t.

(** Event [e] holds what the environment answered at instant [t]. *)
Definition answers (w : world) (t : nat) (e : event) : Prop :=
  match e with
  | OpenDevnull ok => ok = negb (io_fails w t)
  | Spawn _ _ _ got => got = spawn_pid w t
  | Poll _ _ p ret => ret = poll_ret w t p
  | PidExists p found => found = pid_alive w t p
  | Kill p ok => ok = negb (kill_fails w t p)
  | _ => True
  end.

(** The trace of a state has one event for every instant that has
    passed, with the answer given at that instant. *)
Definition recorded (w : world) (s : state) : Prop :=
  now s = length (trace s) ∧
  ∀ i e, trace s !! i = Some e → answers w i e.

(** What the relay of a job finds when it has run out of input and looks
    at the file system [files] of the orchestrator. *)
Definition relay_view (files : gmap string node) : Relay.world :=
  {| Relay.stdin_data := λ _, "";
     Relay.stdout_closed := λ _, false;
     Relay.seen_by_exists := λ _, files;
     Relay.seen_by_open := λ _, files |}.

(** *** More scenarios *)

(** Nobody ever exits. *)
Definition stuck_world : world :=
  world_with (λ _ _, None) (λ _, false) (λ _ _, false).

(** The [Popen] issued at instant [at_] fails; nobody ever exits. *)
Definition spawn_fails_world (at_ : nat) : world :=
  {| RAID_MOUNT := "/raid0";
     exec_dir := "/opt/mysql_utils";
     exec_file := "safe_uploader.py";
     quote_plus := λ key, key;
     others := λ _ files, files;
     io_fails := λ _, false;
     tmp_names := λ _, ["abc"; "def"];
     new_fd := λ _, 3%Z;
     spawn_pid := λ t, if Nat.eqb t at_ then None else Some (Z.of_nat (100 + t));
     poll_ret := λ _ _, None;
     pid_alive := λ _ _, true;
     kill_fails := λ _ _, false |}.

(** Another job makes the directory of the tokens just before the call
    issued at instant 1. *)
Definition racing_mkdir_world : world :=
  {| RAID_MOUNT := "/raid0";
     exec_dir := "/opt/mysql_utils";
     exec_file := "safe_uploader.py";
     quote_plus := λ key, key;
     others := λ t files,
       if Nat.eqb t 1 then <["/raid0/repeater_lock_dir" := Dir]> files
       else files;
     io_fails := λ _, false;
     tmp_names := λ _, ["abc"; "def"];
     new_fd := λ _, 3%Z;
     spawn_pid := λ t, Some (Z.of_nat (100 + t));
     poll_ret := λ _ _, None;
     pid_alive := λ _ _, true;
     kill_fails := λ _ _, false |}.

(** Every process has gone by the time it is looked for. *)
Definition gone_world : world :=
  {| RAID_MOUNT := "/raid0";
     exec_dir := "/opt/mysql_utils";
     exec_file := "safe_uploader.py";
     quote_plus := λ key, key;
     others := λ _ files, files;
     io_fails := λ _, false;
     tmp_names := λ _, ["abc"; "def"];
     new_fd := λ _, 3%Z;
     spawn_pid := λ t, Some (Z.of_nat (100 + t));
     poll_ret := λ _ _, Some 0%Z;
     pid_alive := λ _ _, false;
     kill_fails := λ _ _, false |}.


(** A piece of code keeps the trace such a record. *)
Definition keeps (w : world) {A} (m : M state A) : Prop :=
  ∀ s r s', m s = (r, s') → recorded w s → recorded w s'.

(** *** The two processes of the upload side *)

(** The calls of [subprocess.Popen] that [safe_upload] makes for the
    token [path], and the handles they give. *)
Definition relay_call (w : world) (stdin : stream) (path : string)
    (got : option Z) : event :=
  Spawn [get_exec_path w; path] (Some stdin) None got.
Definition uploader_call (w : world) (bucket key : string) (relay_pid : Z)
    (devnull : stream) (got : option Z) : event :=
  Spawn [S3_SCRIPT; "put"; "-k"; quote_plus w key; "-b"; bucket]
        (Some (PipeOf relay_pid)) (Some devnull) got.
Definition relay_handle (p : Z) : Popen :=
  {| pid := p; stdout := Some (PipeOf p) |}.
Definition uploader_handle (p : Z) : Popen :=
  {| pid := p; stdout := None |}.

(** The spawning of the two processes, by how far it got: its outcome,
    its calls, and the [upload_procs] it leaves. *)
Inductive spawning (w : world) (stdin : stream) (bucket key : string)
    (devnull : stream) (path : string)
  : res unit → list event → gmap string Popen → Prop :=
| spawning_no_relay :
    spawning w stdin bucket key devnull path
      (Raise (OSError "Popen")) [relay_call w stdin path None] ∅
| spawning_no_uploader p1 :
    spawning w stdin bucket key devnull path
      (Raise (OSError "Popen"))
      [relay_call w stdin path (Some p1);
       uploader_call w bucket key p1 devnull None]
      {[ "repeater" := relay_handle p1 ]}
| spawning_done p1 p2 :
    spawning w stdin bucket key devnull path
      (Ok tt)
      [relay_call w stdin path (Some p1);
       uploader_call w bucket key p1 devnull (Some p2)]
      (<["uploader" := uploader_handle p2]>
         {[ "repeater" := relay_handle p1 ]}).

End Orchestrator.

(** * Proofs *)

(** ** Strings *)

Lemma string_app_cons (a : ascii) (s t : string) :
  String a s +:+ t = String a (s +:+ t).
Proof. reflexivity. Qed.

Lemma string_app_nil_l (s : string) : "" +:+ s = s.
Proof. reflexivity. Qed.

Lemma string_app_nil_r (s : string) : s +:+ "" = s.
Proof.
  induction s as [|a s IH]; [done|]. by rewrite string_app_cons, IH.
Qed.

Lemma string_app_assoc (s1 s2 s3 : string) :
  (s1 +:+ s2) +:+ s3 = s1 +:+ (s2 +:+ s3).
Proof.
  induction s1 as [|a s1 IH]; [done|]. by rewrite !string_app_cons, IH.
Qed.

Lemma string_length_app (s1 s2 : string) :
  String.length (s1 +:+ s2) = String.length s1 + String.length s2.
Proof.
  induction s1 as [|a s1 IH]; [done|]. rewrite string_app_cons. cbn.
  by rewrite IH.
Qed.

Lemma string_length_zero (s : string) :
  Nat.eqb (String.length s) 0 = true ↔ s = "".
Proof. destruct s; cbn; split; congruence. Qed.

Lemma length_substring_le (n : nat) (s : string) :
  (String.length (substring 0 n s) ≤ String.length s)%nat.
Proof.
  revert s. induction n as [|n IH]; intros [|a s]; cbn; try lia.
  specialize (IH s). lia.
Qed.

(** ** The relay *)

Module RelayProofs.
Import Relay.

Lemma consumed_app t1 t2 : consumed (t1 ++ t2) = consumed t1 +:+ consumed t2.
Proof.
  induction t1 as [|e t1 IH]; [done|].
  destruct e; cbn [consumed app]; rewrite ?IH, ?string_app_assoc; done.
Qed.

Lemma emitted_app t1 t2 : emitted (t1 ++ t2) = emitted t1 +:+ emitted t2.
Proof.
  induction t1 as [|e t1 IH]; [done|].
  destruct e as [| |d [|]| |]; cbn [emitted app];
    rewrite ?IH, ?string_app_assoc; done.
Qed.

Lemma reads_app t1 t2 : reads (t1 ++ t2) = reads t1 + reads t2.
Proof.
  induction t1 as [|e t1 IH]; [done|]. destruct e; cbn; rewrite ?IH; done.
Qed.

Section Facts.
Variable w : world.
Variable path : string.

Ltac run_body :=
  unfold main_body, check_term_file, bind, ret, raise, sys_exit,
    stdin_read, sleep, stdout_write, os_path_exists, open_read; cbn.

Lemma check_term_file_true s :
  (check_term_file w path s).1 = Ok true ↔
  ∃ c, seen_by_open w (iter s) !! path = Some (File c) ∧
       substring 0 (String.length TERM_STRING) c = TERM_STRING.
Proof.
  run_body. destruct (seen_by_open w (iter s) !! path) as [[|c]|] eqn:E; cbn.
  - split; [done|]. by intros (c & ? & _).
  - destruct (String.eqb_spec (substring 0 11 c) TERM_STRING) as [Heq|Hne]; cbn.
    + split; [|done]. intros _. exists c. done.
    + split; [done|]. intros (c' & [= <-] & ?). done.
  - split; [done|]. by intros (c & ? & _).
Qed.

Lemma check_term_file_false s c :
  seen_by_open w (iter s) !! path = Some (File c) →
  substring 0 (String.length TERM_STRING) c ≠ TERM_STRING →
  check_term_file w path s =
    (Ok false, log (OpenRead path (String.length TERM_STRING)
                      (Some (substring 0 (String.length TERM_STRING) c))) s).
Proof.
  intros E Hne. run_body. rewrite E. cbn.
  destruct (String.eqb_spec (substring 0 11 c) TERM_STRING); done.
Qed.

Lemma short_content_differs c :
  (String.length c < String.length TERM_STRING)%nat →
  substring 0 (String.length TERM_STRING) c ≠ TERM_STRING.
Proof.
  intros Hlt Heq.
  pose proof (length_substring_le (String.length TERM_STRING) c) as Hle.
  rewrite Heq in Hle. lia.
Qed.

Lemma main_body_exit s code :
  (main_body w path s).1 = Raise (SystemExit code) ↔
  code = 0%Z ∧ stdin_data w (iter s) = "" ∧ stdout_closed w (iter s) = false ∧
  signalled w path (iter s).
Proof.
  unfold signalled. run_body.
  destruct (Nat.eqb (String.length (stdin_data w (iter s))) 0) eqn:El.
  - apply string_length_zero in El. rewrite El. cbn.
    destruct (stdout_closed w (iter s)) eqn:Ec; cbn.
    { split; [done|]. by intros (_ & _ & ? & _). }
    case_bool_decide as Hex; cbn.
    + destruct (seen_by_open w (iter s) !! path) as [[|c]|] eqn:E; cbn.
      * split; [done|]. by intros (_ & _ & _ & _ & c & ? & _).
      * destruct (String.eqb_spec (substring 0 11 c) TERM_STRING); cbn.
        -- split; [intros [= <-]|intros (-> & _); done].
           split_and!; [done..|]. by exists c.
        -- split; [done|]. intros (_ & _ & _ & _ & c' & [= <-] & ?). done.
      * split; [done|]. by intros (_ & _ & _ & _ & c & ? & _).
    + split; [done|]. by intros (_ & _ & _ & ? & _).
  - assert (stdin_data w (iter s) ≠ "") as Hne.
    { intros E. rewrite E in El. done. }
    cbn. destruct (stdout_closed w (iter s)); cbn;
      (split; [done|]; by intros (_ & ? & _)).
Qed.

(** What one pass does to the state, whatever its outcome. *)
Lemma main_body_step s r s' :
  main_body w path s = (r, s') →
  iter s' = iter s ∧
  reads (trace s') = S (reads (trace s)) ∧
  consumed (trace s') = consumed (trace s) +:+ stdin_data w (iter s) ∧
  (r ≠ Raise (IOError "Broken pipe") →
   emitted (trace s') = emitted (trace s) +:+ stdin_data w (iter s)).
Proof.
  run_body.
  destruct (Nat.eqb (String.length (stdin_data w (iter s))) 0) eqn:El.
  - apply string_length_zero in El. rewrite El. cbn.
    destruct (stdout_closed w (iter s)); cbn.
    { intros [= <- <-]; cbn.
      rewrite !reads_app, !consumed_app, !emitted_app; cbn.
      rewrite !string_app_nil_r. split_and!; [done|lia|done..]. }
    case_bool_decide; cbn.
    + destruct (seen_by_open w (iter s) !! path) as [[|c]|]; cbn;
        [|destruct (String.eqb _ _); cbn|];
        intros [= <- <-]; cbn;
        rewrite !reads_app, !consumed_app, !emitted_app; cbn;
        rewrite !string_app_nil_r; (split_and!; [done|lia|done..]).
    + intros [= <- <-]; cbn.
      rewrite !reads_app, !consumed_app, !emitted_app; cbn.
      rewrite !string_app_nil_r. split_and!; [done|lia|done..].
  - cbn. destruct (stdout_closed w (iter s)); cbn; intros [= <- <-]; cbn;
      rewrite !reads_app, !consumed_app, !emitted_app; cbn;
      rewrite !string_app_nil_r; (split_and!; [done|lia|done..]).
Qed.

Lemma main_body_returns s : (main_body w path s).1 ≠ Running.
Proof.
  run_body.
  destruct (Nat.eqb (String.length (stdin_data w (iter s))) 0); cbn;
    destruct (stdout_closed w (iter s)); cbn; try done.
  case_bool_decide; cbn; [|done].
  destruct (seen_by_open w (iter s) !! path) as [[|c]|]; cbn; try done.
  destruct (String.eqb _ _); done.
Qed.

Lemma main_body_continue s :
  stdout_closed w (iter s) = false →
  (stdin_data w (iter s) = "" → unsignalled w path (iter s)) →
  ∃ s', main_body w path s = (Ok tt, s').
Proof.
  intros Hc Hu. run_body.
  destruct (Nat.eqb (String.length (stdin_data w (iter s))) 0) eqn:El.
  - apply string_length_zero in El. specialize (Hu El). rewrite El. cbn.
    rewrite Hc. cbn.
    case_bool_decide as Hex; cbn; [|eauto].
    destruct Hu as [Hn|(c & E & Hne)].
    { rewrite Hn in Hex. by destruct Hex. }
    rewrite E. cbn.
    destruct (String.eqb_spec (substring 0 11 c) TERM_STRING); [done|].
    cbn. eauto.
  - cbn. rewrite Hc. cbn. eauto.
Qed.

End Facts.

Section Facts.
Variable w : world.
Variable path : string.

Lemma main_unfold fuel s :
  main w path (S fuel) s =
  match main_body w path s with
  | (Ok _, s') => main w path fuel (next_iter s')
  | r => r
  end.
Proof. reflexivity. Qed.

(** The loop keeps the bytes written equal to the bytes read. *)
Lemma main_invariant fuel s r s' :
  main w path fuel s = (r, s') →
  reads (trace s) = iter s →
  consumed (trace s) = input_upto w (iter s) →
  emitted (trace s) = consumed (trace s) →
  consumed (trace s') = input_upto w (reads (trace s')) ∧
  (r ≠ Raise (IOError "Broken pipe") → emitted (trace s') = consumed (trace s')).
Proof.
  revert s. induction fuel as [|fuel IH]; intros s.
  { intros [= <- <-] Hr Hc He. rewrite Hr. done. }
  rewrite main_unfold.
  destruct (main_body w path s) as [r1 s1] eqn:Hb.
  destruct (main_body_step w path s r1 s1 Hb) as (Hi & Hrd & Hcs & Hem).
  intros Hrun Hr Hc He.
  assert (consumed (trace s1) = input_upto w (reads (trace s1))) as Hc1.
  { rewrite Hcs, Hrd, Hr, Hc. done. }
  destruct r1 as [[]|e|].
  - apply IH in Hrun; [done|cbn..].
    + lia.
    + rewrite Hc1, Hrd, Hr, Hi. done.
    + rewrite Hem, Hcs, He; done.
  - injection Hrun as <- <-. split; [done|]. intros Hne.
    rewrite Hem, Hcs, He; done.
  - injection Hrun as <- <-. split; [done|]. intros Hne.
    rewrite Hem, Hcs, He; done.
Qed.

Lemma main_reads_iter fuel s r s' :
  main w path fuel s = (r, s') →
  reads (trace s) = iter s →
  r = Running → reads (trace s') = iter s'.
Proof.
  revert s. induction fuel as [|fuel IH]; intros s.
  { by intros [= <- <-]. }
  rewrite main_unfold.
  destruct (main_body w path s) as [r1 s1] eqn:Hb.
  destruct (main_body_step w path s r1 s1 Hb) as (Hi & Hrd & _).
  destruct r1 as [[]|e|].
  - intros Hrun Hr. eapply IH; [done|]. cbn. lia.
  - by intros [= <- <-].
  - pose proof (main_body_returns w path s) as Hnr.
    rewrite Hb in Hnr. done.
Qed.

Lemma main_running fuel s :
  (∀ i, (iter s ≤ i < iter s + fuel)%nat →
        stdout_closed w i = false ∧
        (stdin_data w i = "" → unsignalled w path i)) →
  ∃ s', main w path fuel s = (Running, s') ∧ iter s' = (iter s + fuel)%nat.
Proof.
  revert s. induction fuel as [|fuel IH]; intros s Hq.
  { exists s. split; [done|lia]. }
  rewrite main_unfold.
  destruct (Hq (iter s)) as [Hc Hu]; [lia|].
  destruct (main_body_continue w path s Hc Hu) as [s1 Hb].
  rewrite Hb.
  destruct (main_body_step w path s _ s1 Hb) as (Hi & _).
  destruct (IH (next_iter s1)) as (s' & Hrun & Hit).
  { cbn. intros i Hi'. apply Hq. lia. }
  exists s'. split; [done|]. rewrite Hit. cbn. lia.
Qed.

Lemma main_exit_sound fuel s code :
  (main w path fuel s).1 = Raise (SystemExit code) →
  code = 0%Z ∧
  ∃ i, (iter s ≤ i < iter s + fuel)%nat ∧ stdin_data w i = "" ∧
       stdout_closed w i = false ∧ signalled w path i.
Proof.
  revert s. induction fuel as [|fuel IH]; intros s; [done|].
  rewrite main_unfold.
  destruct (main_body w path s) as [r1 s1] eqn:Hb.
  destruct (main_body_step w path s r1 s1 Hb) as (Hi & _).
  destruct r1 as [[]|e|]; cbn.
  - intros Hrun. apply IH in Hrun as (-> & i & Hr & Hrest). cbn in Hr.
    split; [done|]. exists i. split; [lia|done].
  - intros [= ->].
    assert ((main_body w path s).1 = Raise (SystemExit code)) as Hx
      by (by rewrite Hb).
    apply main_body_exit in Hx as (-> & Hx). split; [done|].
    exists (iter s). split; [lia|done].
  - done.
Qed.

Lemma main_exit_complete fuel s i :
  (iter s ≤ i < iter s + fuel)%nat →
  (∀ j, (iter s ≤ j < i)%nat →
        stdout_closed w j = false ∧
        (stdin_data w j = "" → unsignalled w path j)) →
  stdin_data w i = "" → stdout_closed w i = false → signalled w path i →
  (main w path fuel s).1 = Raise (SystemExit 0).
Proof.
  revert s. induction fuel as [|fuel IH]; intros s Hi Hq Hd Hc Hs; [lia|].
  rewrite main_unfold.
  destruct (decide (i = iter s)) as [->|Hne].
  - assert ((main_body w path s).1 = Raise (SystemExit 0)) as Hx.
    { apply main_body_exit. done. }
    destruct (main_body w path s) as [r1 s1]. cbn in Hx. subst r1. done.
  - destruct (Hq (iter s)) as [Hc' Hu']; [lia|].
    destruct (main_body_continue w path s Hc' Hu') as [s1 Hb].
    rewrite Hb.
    destruct (main_body_step w path s _ s1 Hb) as (Hit & _).
    apply IH; cbn; [lia| |done..].
    intros j Hj. apply Hq. lia.
Qed.

End Facts.

(** C2, as stated, fails: content longer than the magic string is not
    treated as "not yet signalled".  A token holding ["TIME_TO_DIE_NOT_YET"]
    differs from the magic string and is longer, yet the termination check
    returns true for it and the relay exits with status 0. *)
Lemma longer_content_counts_as_signal :
  let content := "TIME_TO_DIE_NOT_YET" in
  let w := idle_world "tok" content in
  content ≠ TERM_STRING ∧
  (String.length TERM_STRING < String.length content)%nat ∧
  (check_term_file w "tok" start).1 = Ok true ∧
  exit_status (main w "tok" 1 start).1 = Some 0%Z.
Proof. cbv zeta. split_and!; [done|cbn; lia|by vm_compute..]. Qed.

(** C2 (amended): the termination check returns true exactly when the
    token is a file whose first [len(TERM_STRING)] bytes are the magic
    string: content shorter than the magic string never matches, content
    that merely starts with it does.  One pass of the relay ends in
    [sys.exit(0)] exactly when the read was empty, the probe write went
    through, the token exists and the check returns true; the relay never
    exits with another status of its own, it exits only in such a pass,
    and it does exit in the first such pass that no fault precedes.  With
    content ["TIME_TO_DI"] it is still running after any number of
    passes. *)
Theorem termination_check_reads_leading_bytes (w : world) (path : string)
    (s : state) :
  ((check_term_file w path s).1 = Ok true ↔
   ∃ c, seen_by_open w (iter s) !! path = Some (File c) ∧
        substring 0 (String.length TERM_STRING) c = TERM_STRING) ∧
  (∀ c, seen_by_open w (iter s) !! path = Some (File c) →
        (String.length c < String.length TERM_STRING)%nat →
        (check_term_file w path s).1 = Ok false) ∧
  (∀ rest, seen_by_open w (iter s) !! path = Some (File (TERM_STRING +:+ rest)) →
           (check_term_file w path s).1 = Ok true) ∧
  (∀ code, (main_body w path s).1 = Raise (SystemExit code) ↔
           code = 0%Z ∧ stdin_data w (iter s) = "" ∧
           stdout_closed w (iter s) = false ∧ signalled w path (iter s)) ∧
  (∀ fuel code, (main w path fuel start).1 = Raise (SystemExit code) →
                code = 0%Z ∧
                ∃ i, (i < fuel)%nat ∧ stdin_data w i = "" ∧
                     stdout_closed w i = false ∧ signalled w path i) ∧
  (∀ fuel i,
     (i < fuel)%nat →
     (∀ j, (j < i)%nat →
           stdout_closed w j = false ∧
           (stdin_data w j = "" → unsignalled w path j)) →
     stdin_data w i = "" → stdout_closed w i = false → signalled w path i →
     (main w path fuel start).1 = Raise (SystemExit 0)) ∧
  (∀ fuel,
     (∀ i, (i < fuel)%nat →
           stdout_closed w i = false ∧
           seen_by_open w i !! path = Some (File "TIME_TO_DI")) →
     (main w path fuel start).1 = Running).
Proof.
  split_and!.
  - apply check_term_file_true.
  - intros c E Hlt.
    rewrite (check_term_file_false w path s c E); [done|].
    by apply short_content_differs.
  - intros rest E. apply check_term_file_true.
    exists (TERM_STRING +:+ rest). split; [done|].
    clear E. unfold TERM_STRING. cbn. by destruct rest.
  - intros code. apply main_body_exit.
  - intros fuel code Hx.
    apply main_exit_sound in Hx as (-> & i & Hi & Hrest). cbn in Hi.
    split; [done|]. exists i. split; [lia|done].
  - intros fuel i Hi Hq Hd Hc Hs.
    apply (main_exit_complete w path fuel start i); cbn; [lia| |done..].
    intros j Hj. apply Hq. lia.
  - intros fuel Hq.
    destruct (main_running w path fuel start) as (s' & Hrun & _).
    + cbn. intros i Hi. destruct (Hq i) as [Hc E]; [lia|].
      split; [done|]. intros _. right. exists "TIME_TO_DI". done.
    + by rewrite Hrun.
Qed.

Lemma termination_check_reads_leading_bytes_witness :
  (check_term_file (idle_world "tok" "TIME_TO") "tok" start).1 = Ok false ∧
  (check_term_file (idle_world "tok" "TIME_TO_DIE!") "tok" start).1 = Ok true ∧
  (main (idle_world "tok" "TIME_TO_DI") "tok" 40 start).1 = Running.
Proof.
  split_and!.
  - apply (termination_check_reads_leading_bytes
             (idle_world "tok" "TIME_TO") "tok" start) with (c := "TIME_TO");
      [reflexivity|cbn; lia].
  - apply (termination_check_reads_leading_bytes
             (idle_world "tok" "TIME_TO_DIE!") "tok" start) with (rest := "!").
    reflexivity.
  - apply (termination_check_reads_leading_bytes
             (idle_world "tok" "TIME_TO_DI") "tok" start).
    intros i _. split; reflexivity.
Defined.

(** C4: whatever arrives on standard input, as long as no write to
    standard output has failed the bytes the relay has written are exactly
    the bytes it has read, in the same order, and these are the chunks of
    the input stream in sequence; and while every empty read finds the
    token absent or unsignalled (and the reader is still there), the relay
    is still running after any number of passes. *)
Theorem relay_is_byte_exact (w : world) (path : string) (fuel : nat) :
  let r := (main w path fuel start).1 in
  let s := (main w path fuel start).2 in
  (r ≠ Raise (IOError "Broken pipe") → emitted (trace s) = consumed (trace s)) ∧
  consumed (trace s) = input_upto w (reads (trace s)) ∧
  ((∀ i, (i < fuel)%nat →
         stdout_closed w i = false ∧
         (stdin_data w i = "" → unsignalled w path i)) →
   r = Running ∧ iter s = fuel ∧ emitted (trace s) = input_upto w fuel).
Proof.
  cbv zeta.
  destruct (main w path fuel start) as [r s] eqn:Hrun. cbn [fst snd].
  destruct (main_invariant w path fuel start r s Hrun) as [Hc He]; [done..|].
  split_and!; [by intros; rewrite He|done|].
  intros Hq.
  destruct (main_running w path fuel start) as (s' & Hrun' & Hit).
  { cbn. intros i Hi. apply Hq. lia. }
  rewrite Hrun in Hrun'. injection Hrun' as -> ->. cbn in Hit.
  split_and!; [done..|].
  rewrite He, Hc by done.
  rewrite (main_reads_iter w path fuel start Running s' Hrun) by done.
  by rewrite Hit.
Qed.

Lemma relay_is_byte_exact_witness :
  emitted (trace (main two_chunk_world "tok" 6 start).2) =
    consumed (trace (main two_chunk_world "tok" 6 start).2) ∧
  (main (idle_world "tok" "TIME") "tok" 3 start).1 = Running.
Proof.
  split.
  - apply (proj1 (relay_is_byte_exact two_chunk_world "tok" 6)).
    by vm_compute.
  - apply (proj2 (proj2 (relay_is_byte_exact (idle_world "tok" "TIME") "tok" 3))).
    intros i _. split; [reflexivity|]. intros _. right. exists "TIME".
    split; [reflexivity|discriminate].
Defined.



End RelayProofs.

(** ** The orchestrator *)

Module OrchestratorProofs.
Import Orchestrator.

Lemma same_frame_refl s : same_frame s s.
Proof. done. Qed.
Lemma same_frame_trans s1 s2 s3 :
  same_frame s1 s2 → same_frame s2 s3 → same_frame s1 s3.
Proof. intros [[??]?] [[??]?]. repeat split; congruence. Qed.
Lemma same_frame_emit e s : same_frame s (emit e s).
Proof. done. Qed.

Section Facts.
Variable w : world.

Lemma bind_ok {A B} (m : M state A) (k : A → M state B) s a s' :
  m s = (Ok a, s') → (x <- m;; k x) s = k a s'.
Proof. intros H. unfold bind. by rewrite H. Qed.
Lemma bind_raise {A B} (m : M state A) (k : A → M state B) s e s' :
  m s = (Raise e, s') → (x <- m;; k x) s = (Raise e, s').
Proof. intros H. unfold bind. by rewrite H. Qed.
Lemma bind_running {A B} (m : M state A) (k : A → M state B) s s' :
  m s = (Running, s') → (x <- m;; k x) s = (Running, s').
Proof. intros H. unfold bind. by rewrite H. Qed.

(** The monitor *)
Lemma poll_all_spec g l acc s r s' :
  poll_all w g l acc s = (r, s') →
  same_frame s s' ∧
  match r with
  | Ok b =>
      ∃ t, trace s' = trace s ++ t ∧
           Forall2 (λ np e, ∃ ret, e = Poll g np.1 (pid np.2) ret ∧
                                   (ret = None ∨ ret = Some 0%Z)) l t ∧
           (b = true → acc = true ∧
                       t = (λ np, Poll g np.1 (pid np.2) (Some 0%Z)) <$> l) ∧
           (b = false → acc = false ∨ ∃ name p, Poll g name p None ∈ t)
  | Raise e =>
      ∃ t name p c, trace s' = trace s ++ t ++ [Poll g name p (Some c)] ∧
                    Forall (calm_poll g) t ∧ c ≠ 0%Z ∧ e = ProcFailure name c
  | Running => False
  end.
Proof.
  revert acc s. induction l as [|[name proc] l IH]; intros acc s;
    cbn [poll_all].
  { intros [= <- <-]. split; [done|]. exists []. rewrite app_nil_r.
    split_and!; [done|constructor|done|]. destruct acc; auto. }
  unfold bind at 1, Popen_poll at 1. cbn [fst snd pid].
  destruct (poll_ret w (now s) (pid proc)) as [c|] eqn:Hret.
  - destruct (Z.eqb_spec c 0) as [->|Hne].
    + intros Hrun. apply IH in Hrun as [Hfr Hrun].
      split; [done|]. destruct r as [b|e|]; [| |done].
      * destruct Hrun as (t & Ht & Hcalm & Htrue & Hfalse).
        exists (Poll g name (pid proc) (Some 0%Z) :: t). cbn in Ht.
        rewrite Ht, <- app_assoc. split_and!; [done| | |].
        -- constructor; [|done]. eexists; split; [done|auto].
        -- intros Hb. destruct (Htrue Hb) as [-> ->]. done.
        -- intros Hb. destruct (Hfalse Hb) as [?|(n & p & Hin)]; [auto|].
           right. exists n, p. by constructor.
      * destruct Hrun as (t & n & p & c & Ht & Hcalm & Hc & ->).
        exists (Poll g name (pid proc) (Some 0%Z) :: t), n, p, c.
        cbn in Ht. rewrite Ht, <- !app_assoc. split_and!; [done| |done..].
        constructor; [|done]. repeat eexists; auto.
    + unfold raise. intros [= <- <-]. split; [done|].
      exists [], name, (pid proc), c. cbn. split_and!; [done|constructor|done..].
  - intros Hrun. apply IH in Hrun as [Hfr Hrun].
    split; [done|]. destruct r as [b|e|]; [| |done].
    + destruct Hrun as (t & Ht & Hcalm & Htrue & Hfalse).
      exists (Poll g name (pid proc) None :: t). cbn in Ht.
      rewrite Ht, <- app_assoc. split_and!; [done| | |].
      * constructor; [|done]. eexists; split; [done|auto].
      * intros Hb. by destruct (Htrue Hb).
      * intros _. right. exists name, (pid proc). by constructor.
    + destruct Hrun as (t & n & p & c & Ht & Hcalm & Hc & ->).
      exists (Poll g name (pid proc) None :: t), n, p, c.
      cbn in Ht. rewrite Ht, <- !app_assoc. split_and!; [done| |done..].
      constructor; [|done]. repeat eexists; auto.
Qed.

Lemma check_dict_of_procs_spec g procs s r s' :
  check_dict_of_procs w g procs s = (r, s') →
  same_frame s s' ∧
  match r with
  | Ok true => trace s' = trace s ++ success_round g procs
  | Ok false => ∃ t, trace s' = trace s ++ t ∧ calm_round g procs t
  | Raise e =>
      ∃ t name p c, trace s' = trace s ++ t ++ [Poll g name p (Some c)] ∧
                    Forall (calm_poll g) t ∧ c ≠ 0%Z ∧ e = ProcFailure name c
  | Running => False
  end.
Proof.
  intros Hrun. apply poll_all_spec in Hrun as [Hfr Hrun]. split; [done|].
  destruct r as [[|]|e|]; [| |done..].
  - destruct Hrun as (t & Ht & _ & Htrue & _).
    destruct Htrue as [_ ->]; done.
  - destruct Hrun as (t & Ht & Hcalm & _). by exists t.
Qed.

Lemma while_unfold fuel cond body :
  while (S fuel) cond body =
  (c <- cond;; if c then body;; while fuel cond body else ret tt).
Proof. reflexivity. Qed.

Lemma wait_precursors_spec fuel procs s r s' :
  wait_precursors w fuel procs s = (r, s') →
  same_frame s s' ∧
  ∃ t, trace s' = trace s ++ t ∧ watch1 (upload_procs s) procs r t.
Proof.
  unfold wait_precursors.
  revert s. induction fuel as [|fuel IH]; intros s.
  { intros [= <- <-]. split; [done|]. exists []. rewrite app_nil_r.
    split; [done|constructor]. }
  rewrite while_unfold. unfold bind at 1. unfold bind at 1.
  destruct (check_dict_of_procs w Precursor procs s) as [r1 s1] eqn:H1.
  apply check_dict_of_procs_spec in H1 as [Hfr1 H1].
  destruct r1 as [[|]|e|]; [| | |done].
  - (* the producers are done *)
    cbn. intros [= <- <-]. split; [done|].
    eexists. split; [done|constructor].
  - (* not yet: look at the upload side *)
    destruct H1 as (tp & Htp & Hcalm). cbn [ret negb].
    unfold bind at 1, bind at 1. unfold load_upload_procs at 1.
    unfold bind at 1.
    destruct (check_dict_of_procs w Upload (upload_procs s1) s1)
      as [r2 s2] eqn:H2.
    apply check_dict_of_procs_spec in H2 as [Hfr2 H2].
    assert (upload_procs s1 = upload_procs s) as Hups by apply Hfr1.
    destruct r2 as [b|e|]; [| |done].
    + unfold time_sleep at 1. intros Hrun.
      apply IH in Hrun as (Hfr3 & t & Ht & Hw). cbn in Ht.
      split.
      { eapply same_frame_trans; [done|]. eapply same_frame_trans; [done|].
        eapply same_frame_trans; [apply same_frame_emit|done]. }
      assert (∃ tu, trace s2 = trace s1 ++ tu ∧
                    calm_round Upload (upload_procs s) tu) as (tu & Htu & Hcu).
      { rewrite <- Hups. destruct b; [|done].
        eexists. split; [done|]. unfold calm_round, success_round.
        apply Forall2_fmap_r, Forall_Forall2_diag, Forall_forall.
        intros [n p] _. eexists. split; [done|auto]. }
      exists (tp ++ tu ++ Sleep SLEEP_TIME :: t).
      split.
      { rewrite Ht, Htu, Htp, <- !app_assoc. done. }
      constructor; [done..|].
      cbn in Hw. destruct Hfr2 as [[Hu2 _] _]. by rewrite Hu2, Hups in Hw.
    + intros [= <- <-].
      destruct H2 as (t & name & p & c & Ht & Hcalm2 & Hc & ->).
      split; [by eapply same_frame_trans|].
      exists (tp ++ t ++ [Poll Upload name p (Some c)]).
      split; [by rewrite Ht, Htp, <- !app_assoc|].
      by constructor.
  - (* a producer has failed *)
    cbn. intros [= <- <-].
    destruct H1 as (t & name & p & c & Ht & Hcalm & Hc & ->).
    split; [done|]. eexists. split; [done|]. by constructor.
Qed.

Lemma wait_upload_spec fuel s r s' :
  wait_upload w fuel s = (r, s') →
  same_frame s s' ∧
  ∃ t, trace s' = trace s ++ t ∧ watch2 (upload_procs s) r t.
Proof.
  unfold wait_upload.
  revert s. induction fuel as [|fuel IH]; intros s.
  { intros [= <- <-]. split; [done|]. exists []. rewrite app_nil_r.
    split; [done|constructor]. }
  rewrite while_unfold. unfold bind at 1, bind at 1.
  unfold load_upload_procs at 1. unfold bind at 1.
  destruct (check_dict_of_procs w Upload (upload_procs s) s) as [r1 s1] eqn:H1.
  apply check_dict_of_procs_spec in H1 as [Hfr1 H1].
  assert (upload_procs s1 = upload_procs s) as Hups by apply Hfr1.
  destruct r1 as [[|]|e|]; [| | |done].
  - cbn. intros [= <- <-]. split; [done|].
    eexists. split; [done|constructor].
  - destruct H1 as (tu & Htu & Hcalm). cbn [ret negb].
    unfold bind at 1. unfold time_sleep at 1. intros Hrun.
    apply IH in Hrun as (Hfr2 & t & Ht & Hw). cbn in Ht, Hw.
    split.
    { eapply same_frame_trans; [done|].
      eapply same_frame_trans; [apply same_frame_emit|done]. }
    exists (tu ++ Sleep SLEEP_TIME :: t).
    split; [by rewrite Ht, Htu, <- !app_assoc|].
    constructor; [done|]. by rewrite Hups in Hw.
  - cbn. intros [= <- <-].
    destruct H1 as (t & name & p & c & Ht & Hcalm & Hc & ->).
    split; [done|]. eexists. split; [done|]. by constructor.
Qed.

Lemma run_check_spec {A} (cf : option (callback A)) (ca : A) s r s' :
  run_check cf ca s = (r, s') →
  same_frame s s' ∧
  ((r = Ok tt ∧ trace s' = trace s ++ check_passed cf) ∨
   (∃ e, r = Raise e ∧ trace s' = trace s ++ [Validate (Some e)])).
Proof.
  destruct cf as [f|]; cbn.
  - unfold call. destruct (f ca (now s)) as [e|]; intros [= <- <-];
      (split; [done|]); [right|left]; eauto.
  - intros [= <- <-]. split; [done|]. left. by rewrite app_nil_r.
Qed.

Lemma signal_spec s r s' path :
  signal w s = (r, s') → term_path s = Some path →
  same_frame s s' ∧
  ((r = Ok tt ∧ trace s' = trace s ++ [WriteFile path TERM_STRING true]) ∨
   (r = Raise (IOError "write") ∧
    trace s' = trace s ++ [WriteFile path TERM_STRING false])).
Proof.
  intros Hrun Hp. unfold signal, bind, load_term_path, write_file in Hrun.
  rewrite Hp in Hrun.
  destruct (io_fails w (now s)); injection Hrun as <- <-;
    (split; [done|]); [right|left]; done.
Qed.

Lemma get_term_file_spec s r s' :
  get_term_file w s = (r, s') →
  same_frame s s' ∧ r ≠ Running ∧
  ∃ t, trace s' = trace s ++ t ∧
       Forall (λ e, stage_of e = Setup) t ∧ spawned t = [] ∧
       created_tokens t = match r with Ok p => [p] | _ => [] end.
Proof.
  unfold get_term_file, get_term_dir. cbv zeta.
  generalize (path_join (RAID_MOUNT w) TERM_DIR) as term_dir.
  intros term_dir.
  unfold bind, ret, os_path_exists, os_mkdir, tempfile_mkstemp, os_close.
  intros Hrun. cbn in Hrun.
  repeat case_match; simplify_eq/=;
    (split_and!; [done..|]); eexists;
    (split; [by rewrite <- ?app_assoc|]);
    (split_and!; [by repeat constructor|done..]).
Qed.

Lemma spawn_upload_procs_spec stdin bucket key devnull s r s' :
  spawn_upload_procs w stdin bucket key devnull s = (r, s') → fresh s →
  exc_info s' = exc_info s ∧ r ≠ Running ∧
  ∃ t, trace s' = trace s ++ t ∧
       Forall (λ e, stage_of e = Setup) t ∧
       created_tokens t = option_list (term_path s') ∧
       spawned t =
         omap (λ n, pid <$> upload_procs s' !! n) ["repeater"; "uploader"] ∧
       (∀ n, is_Some (upload_procs s' !! n) → n = "repeater" ∨ n = "uploader") ∧
       (r = Ok tt → is_Some (term_path s')).
Proof.
  intros Hrun [Hu Hp]. unfold spawn_upload_procs in Hrun.
  unfold bind at 1 in Hrun.
  destruct (get_term_file w s) as [r0 s0] eqn:H0.
  apply get_term_file_spec in H0 as ([[Hu0 Hp0] He0] & Hnr & t0 & Ht0 & Hst0 & Hsp0 & Hcr0).
  rewrite Hu in Hu0. rewrite Hp in Hp0.
  destruct r0 as [path|e|]; [| |done].
  - unfold bind, store_term_path, load_term_path, Popen_new,
      store_upload_proc, load_upload_procs, getitem, ret, raise in Hrun.
    cbn in Hrun.
    destruct (spawn_pid w (now s0)) as [p1|] eqn:Hs1; cbn in Hrun.
    + rewrite lookup_insert_eq in Hrun. cbn in Hrun.
      destruct (spawn_pid w (S (now s0))) as [p2|] eqn:Hs2;
        injection Hrun as <- <-; cbn; rewrite ?Hu0;
        (split_and!; [done..|]); eexists;
        (split; [by rewrite Ht0, <- ?app_assoc|]);
        (split_and!;
          [by rewrite ?Forall_app; split_and?; [done|repeat constructor..]
          |by unfold created_tokens; rewrite ?omap_app;
              fold (created_tokens t0); rewrite Hcr0
          |by unfold spawned; rewrite ?omap_app;
              fold (spawned t0); rewrite Hsp0
          |
          |by eauto]).
      * intros n [x Hx].
        destruct (decide (n = "uploader")) as [->|]; [auto|].
        rewrite lookup_insert_ne in Hx by done.
        destruct (decide (n = "repeater")) as [->|]; [auto|].
        rewrite lookup_insert_ne in Hx by done. done.
      * intros n [x Hx].
        destruct (decide (n = "repeater")) as [->|]; [auto|].
        rewrite lookup_insert_ne in Hx by done. done.
    + injection Hrun as <- <-; cbn; rewrite ?Hu0.
      split_and!; [done..|]. eexists.
      split; [by rewrite Ht0, <- ?app_assoc|].
      split_and!.
      * rewrite ?Forall_app; split_and?; [done|repeat constructor..].
      * unfold created_tokens; rewrite ?omap_app.
        fold (created_tokens t0); by rewrite Hcr0.
      * unfold spawned; rewrite ?omap_app.
        fold (spawned t0); by rewrite Hsp0.
      * intros n [x Hx]. done.
      * done.
  - injection Hrun as <- <-. rewrite Hu0, Hp0.
    split_and!; [done..|]. exists t0. split_and!; try done.
    intros n [x Hx]. done.
Qed.

Lemma kill_upload_proc_spec name s r s' :
  kill_upload_proc w name s = (r, s') →
  r = Ok tt ∧ same_locals s s' ∧
  ∃ t, trace s' = trace s ++ t ∧
       kill_attempt (upload_procs s !! name) t ∧
       Forall (λ e, stage_of e = Teardown) t ∧
       (Forall (λ k, k.2 = true) (kills t) → exc_info s' = exc_info s).
Proof.
  unfold kill_upload_proc, bind, load_upload_procs, getitem, ret, raise,
    psutil_pid_exists, try_except, Popen_kill.
  destruct (upload_procs s !! name) as [proc|] eqn:Hl; cbn.
  - destruct (pid_alive w (now s) (pid proc)); cbn.
    + rewrite Hl. cbn.
      match goal with |- context [kill_fails w ?t ?p] =>
        destruct (kill_fails w t p) end; intros [= <- <-]; cbn;
        (split_and!; [done..|]); eexists;
        (split; [by rewrite <- ?app_assoc|]);
        (split_and!; [right; eauto|by repeat constructor|]).
      * intros Hk. by apply Forall_inv in Hk.
      * done.
    + intros [= <- <-]. split_and!; [done..|]. eexists.
      split; [done|]. split_and!; [by left|by repeat constructor|done].
  - intros [= <- <-].
    split_and!; [done..|]. exists []. rewrite app_nil_r. done.
Qed.

Lemma except_block_spec s r s' e :
  except_block w s = (r, s') → exc_info s = Some e →
  same_locals s s' ∧
  ∃ tu tr, trace s' = trace s ++ tu ++ tr ∧
       kill_attempt (upload_procs s !! "uploader") tu ∧
       kill_attempt (upload_procs s !! "repeater") tr ∧
       Forall (λ e, stage_of e = Teardown) (tu ++ tr) ∧
       (∃ e', r = Raise e') ∧
       (Forall (λ k, k.2 = true) (kills (tu ++ tr)) → r = Raise e).
Proof.
  unfold except_block. intros Hrun He.
  unfold bind at 1 in Hrun.
  destruct (kill_upload_proc w "uploader" s) as [r1 s1] eqn:H1.
  apply kill_upload_proc_spec in H1 as (-> & [Hu1 Hp1] & tu & Htu & Hku & Hsu & Hxu).
  unfold bind at 1 in Hrun.
  destruct (kill_upload_proc w "repeater" s1) as [r2 s2] eqn:H2.
  apply kill_upload_proc_spec in H2 as (-> & [Hu2 Hp2] & tr & Htr & Hkr & Hsr & Hxr).
  unfold reraise in Hrun. rewrite Hu1 in Hkr.
  assert (same_locals s s2) as Hloc by (split; congruence).
  assert (trace s2 = trace s ++ tu ++ tr) as Ht
    by (by rewrite Htr, Htu, <- app_assoc).
  assert (Forall (λ e, stage_of e = Teardown) (tu ++ tr)) as Hst
    by (by apply Forall_app).
  assert (Forall (λ k, k.2 = true) (kills (tu ++ tr)) → exc_info s2 = Some e)
    as Hx.
  { unfold kills. rewrite omap_app. intros [Ha Hb]%Forall_app.
    rewrite Hxr, Hxu; done. }
  destruct (exc_info s2) as [e2|] eqn:He2; injection Hrun as <- <-;
    (split; [done|]); exists tu, tr; (split_and!; [done..|eauto|]).
  - intros Hk. specialize (Hx Hk). congruence.
  - intros Hk. specialize (Hx Hk). congruence.
Qed.

Lemma finally_block_spec s r s' :
  finally_block w s = (r, s') →
  same_frame s s' ∧ r ≠ Running ∧
  match term_path s with
  | None => r = Raise (UnboundLocalError "term_path") ∧ trace s' = trace s
  | Some path =>
      (r = Ok tt ∧ trace s' = trace s ++ [Remove path true] ∧
       fs s' !! path = None) ∨
      (r = Raise (OSError "remove") ∧
       trace s' = trace s ++ [Remove path false])
  end.
Proof.
  unfold finally_block, bind, load_term_path, os_remove.
  destruct (term_path s) as [path|]; cbn.
  - destruct (io_fails w (now s)); cbn.
    { intros [= <- <-]. split_and!; [done..|]. right. done. }
    destruct (seen w s !! path) as [[|c]|]; intros [= <- <-];
      (split_and!; [done..|]); [by right| |by right].
    left. split_and!; [done..|]. cbn. apply lookup_delete_eq.
  - intros [= <- <-]. done.
Qed.

Lemma try_block_spec {A} fuel procs stdin bucket key
    (cf : option (callback A)) ca devnull s r s' :
  try_block w fuel procs stdin bucket key cf ca devnull s = (r, s') →
  fresh s →
  exc_info s' = exc_info s ∧
  ∃ t0, Forall (λ e, stage_of e = Setup) t0 ∧
        created_tokens t0 = option_list (term_path s') ∧
        spawned t0 =
          omap (λ n, pid <$> upload_procs s' !! n) ["repeater"; "uploader"] ∧
        (∀ n, is_Some (upload_procs s' !! n) → n = "repeater" ∨ n = "uploader") ∧
        ((∃ e, r = Raise e ∧ trace s' = trace s ++ t0) ∨
         (∃ path t, term_path s' = Some path ∧
                    trace s' = trace s ++ t0 ++ t ∧
                    tried procs (upload_procs s') cf path r t)).
Proof.
  intros Hrun Hfresh. unfold try_block in Hrun.
  unfold bind at 1 in Hrun.
  destruct (spawn_upload_procs w stdin bucket key devnull s) as [r0 s0] eqn:H0.
  apply spawn_upload_procs_spec in H0
    as (He0 & Hnr0 & t0 & Ht0 & Hst0 & Hcr0 & Hsp0 & Hdom0 & Hok0); [|done].
  destruct r0 as [[]|e|]; [| |done]; cycle 1.
  { injection Hrun as <- <-. split; [done|]. exists t0.
    split_and!; [done..|]. left. eauto. }
  destruct Hok0 as [path Hpath]; [done|].
  unfold bind at 1 in Hrun.
  destruct (wait_precursors w fuel procs s0) as [r1 s1] eqn:H1.
  apply wait_precursors_spec in H1 as ([[Hu1 Hp1] He1] & t1 & Ht1 & Hw1).
  assert (∀ s2 t, same_frame s1 s2 → trace s2 = trace s1 ++ t →
            tried procs (upload_procs s0) cf path r (t1 ++ t) → s' = s2 →
            exc_info s' = exc_info s ∧
            ∃ t0, Forall (λ e, stage_of e = Setup) t0 ∧
              created_tokens t0 = option_list (term_path s') ∧
              spawned t0 =
                omap (λ n, pid <$> upload_procs s' !! n) ["repeater"; "uploader"] ∧
              (∀ n, is_Some (upload_procs s' !! n) → n = "repeater" ∨ n = "uploader") ∧
              ((∃ e, r = Raise e ∧ trace s' = trace s ++ t0) ∨
               (∃ path t, term_path s' = Some path ∧
                          trace s' = trace s ++ t0 ++ t ∧
                          tried procs (upload_procs s') cf path r t))) as Hend.
  { intros s2 t [[Hu2 Hp2] He2] Ht2 Htr ->.
    split; [congruence|]. exists t0.
    rewrite Hu2, Hu1, Hp2, Hp1. split_and!; [done..|].
    right. exists path, (t1 ++ t). split_and!; [done| |done].
    rewrite Ht2, Ht1, Ht0, <- !app_assoc. done. }
  destruct r1 as [[]|e|].
  - (* the producers are done: run the check *)
    unfold bind at 1 in Hrun.
    destruct (run_check cf ca s1) as [r2 s2] eqn:H2.
    apply run_check_spec in H2 as (Hf2 & H2).
    destruct H2 as [[-> Ht2]|(e & -> & Ht2)]; cycle 1.
    { injection Hrun as <- <-. eapply Hend; [done..| |done].
      by constructor. }
    unfold bind at 1 in Hrun.
    destruct (signal w s2) as [r3 s3] eqn:H3.
    assert (term_path s2 = Some path) as Hp2.
    { destruct Hf2 as [[_ ->] _]. congruence. }
    apply (signal_spec _ _ _ path) in H3 as (Hf3 & H3); [|done].
    destruct H3 as [[-> Ht3]|[-> Ht3]]; cycle 1.
    { injection Hrun as <- <-.
      eapply (Hend _ (check_passed cf ++ [WriteFile path TERM_STRING false]));
        [by eapply same_frame_trans| |by constructor|done].
      rewrite Ht3, Ht2, <- app_assoc. done. }
    apply wait_upload_spec in Hrun as (Hf4 & t4 & Ht4 & Hw4).
    eapply (Hend _ (check_passed cf ++ WriteFile path TERM_STRING true :: t4));
      [ eapply same_frame_trans; [done|]; by eapply same_frame_trans
      | | |done].
    + rewrite Ht4, Ht3, Ht2, <- !app_assoc. done.
    + constructor; [done|].
      destruct Hf3 as [[Hu3 _] _]. destruct Hf2 as [[Hu2 _] _].
      rewrite Hu3, Hu2, Hu1 in Hw4. done.
  - injection Hrun as <- <-.
    eapply (Hend s1 []); [done|by rewrite app_nil_r| |done].
    rewrite app_nil_r. by constructor.
  - injection Hrun as <- <-.
    eapply (Hend s1 []); [done|by rewrite app_nil_r| |done].
    rewrite app_nil_r. by constructor.
Qed.

Lemma guarded_spec {A} fuel procs stdin bucket key
    (cf : option (callback A)) ca devnull s0 r s :
  guarded w fuel procs stdin bucket key cf ca devnull s0 = (r, s) →
  ∃ r1 s1,
    try_block w fuel procs stdin bucket key cf ca devnull s0 = (r1, s1) ∧
    same_locals s1 s ∧
    ((r1 = Running ∧ r = Running ∧ s = s1) ∨
     (∃ tu tr tf r2,
        r1 ≠ Running ∧ r ≠ Running ∧
        trace s = trace s1 ++ tu ++ tr ++ tf ∧
        torn (upload_procs s1) r1 r2 tu tr ∧
        (attempt w fuel procs stdin bucket key cf ca devnull s0).1 = r2 ∧
        swept (term_path s1) r2 r tf ∧
        (∀ path, tf = [Remove path true] → fs s !! path = None))).
Proof.
  unfold guarded, attempt, try_finally, try_except. intros Hrun.
  destruct (try_block w fuel procs stdin bucket key cf ca devnull s0)
    as [r1 s1] eqn:H1.
  exists r1, s1. split; [done|].
  assert (∀ s2 r2 tu tr,
            match r1 with
            | Raise e => except_block w (set_exc_info (Some e) s1)
            | _ => (r1, s1)
            end = (r2, s2) →
            same_locals s1 s2 → trace s2 = trace s1 ++ tu ++ tr →
            torn (upload_procs s1) r1 r2 tu tr → r1 ≠ Running →
            r2 ≠ Running →
            match finally_block w s2 with
            | (Ok _, s'') => (r2, s'')
            | (Raise e, s'') => (Raise e, s'')
            | (Running, s'') => (Running, s'')
            end = (r, s) →
            same_locals s1 s ∧
            ((r1 = Running ∧ r = Running ∧ s = s1) ∨
             (∃ tu tr tf r2,
                r1 ≠ Running ∧ r ≠ Running ∧
                trace s = trace s1 ++ tu ++ tr ++ tf ∧
                torn (upload_procs s1) r1 r2 tu tr ∧
                (match r1 with
                 | Raise e => except_block w (set_exc_info (Some e) s1)
                 | _ => (r1, s1)
                 end).1 = r2 ∧
                swept (term_path s1) r2 r tf ∧
                (∀ path, tf = [Remove path true] → fs s !! path = None))))
    as Hfin.
  { intros s2 r2 tu tr Hatt [Hu2 Hp2] Ht2 Htorn Hnr1 Hnr2 Hf.
    destruct (finally_block w s2) as [r3 s3] eqn:H3.
    apply finally_block_spec in H3 as ([[Hu3 Hp3] _] & Hnr3 & H3).
    assert (s = s3) as -> by (destruct r3; by injection Hf).
    split; [split; congruence|]. right.
    rewrite Hp2 in H3.
    destruct (term_path s1) as [path|] eqn:Hp1.
    - destruct H3 as [(-> & Ht3 & Hgone)|(-> & Ht3)]; injection Hf as <-.
      + exists tu, tr, [Remove path true], r2.
        split_and!; [done..| |done|by rewrite Hatt| |].
        * rewrite Ht3, Ht2, <- !app_assoc. done.
        * by constructor.
        * intros ? [= <-]. done.
      + exists tu, tr, [Remove path false], r2.
        split_and!; [done..| |done|by rewrite Hatt| |done].
        * rewrite Ht3, Ht2, <- !app_assoc. done.
        * by constructor.
    - destruct H3 as [-> Ht3]. injection Hf as <-.
      exists tu, tr, [], r2.
      split_and!; [done..| |done|by rewrite Hatt| |done].
      + rewrite Ht3, Ht2, !app_nil_r. done.
      + by constructor. }
  destruct r1 as [[]|e|].
  - eapply (Hfin s1 (Ok tt) [] []); [done|done|by rewrite app_nil_r|done..].
  - destruct (except_block w (set_exc_info (Some e) s1)) as [r2 s2] eqn:H2.
    pose proof H2 as H2'.
    apply (except_block_spec _ _ _ e) in H2'
      as (Hloc & tu & tr & Ht & Hku & Hkr & _ & [e' ->] & Hsame); [|done].
    eapply (Hfin s2 (Raise e') tu tr); [done..| |done|done|done].
    cbn. split_and!; [done..|eauto|done].
  - injection Hrun as <- <-. split; [done|]. left. done.
Qed.

End Facts.

(** ** Readings of a trace and the stages of its events *)

Lemma omap_off_stage {B} (f : event → option B) (k : stage) (t : list event) :
  (∀ e, is_Some (f e) → stage_of e = k) →
  Forall (λ e, stage_of e ≠ k) t → omap f t = [].
Proof.
  intros Hf. induction 1 as [|e t He _ IH]; [done|]. cbn.
  destruct (f e) as [b|] eqn:Hfe; [|done].
  destruct He. apply Hf. by rewrite Hfe.
Qed.

Lemma signals_off t : Forall (λ e, stage_of e ≠ Commit) t → signals t = [].
Proof. apply omap_off_stage. intros [] [? ?]; done. Qed.
Lemma removals_off t : Forall (λ e, stage_of e ≠ Cleanup) t → removals t = [].
Proof. apply omap_off_stage. intros [] [? ?]; done. Qed.
Lemma kills_off t : Forall (λ e, stage_of e ≠ Teardown) t → kills t = [].
Proof. apply omap_off_stage. intros [] [? ?]; done. Qed.
Lemma validations_off t :
  Forall (λ e, stage_of e ≠ Validation) t → validations t = [].
Proof. apply omap_off_stage. intros [] [? ?]; done. Qed.
Lemma created_tokens_off t :
  Forall (λ e, stage_of e ≠ Setup) t → created_tokens t = [].
Proof.
  apply omap_off_stage. intros [] [? Hx]; try done; by destruct got.
Qed.
Lemma spawned_off t : Forall (λ e, stage_of e ≠ Setup) t → spawned t = [].
Proof.
  apply omap_off_stage. intros [] [? Hx]; try done; by destruct got.
Qed.

Lemma signals_app t1 t2 : signals (t1 ++ t2) = signals t1 ++ signals t2.
Proof. apply omap_app. Qed.
Lemma removals_app t1 t2 : removals (t1 ++ t2) = removals t1 ++ removals t2.
Proof. apply omap_app. Qed.
Lemma kills_app t1 t2 : kills (t1 ++ t2) = kills t1 ++ kills t2.
Proof. apply omap_app. Qed.
Lemma created_tokens_app t1 t2 :
  created_tokens (t1 ++ t2) = created_tokens t1 ++ created_tokens t2.
Proof. apply omap_app. Qed.
Lemma spawned_app t1 t2 : spawned (t1 ++ t2) = spawned t1 ++ spawned t2.
Proof. apply omap_app. Qed.

Lemma stage_is k k' t :
  Forall (λ e, stage_of e = k) t → k ≠ k' → Forall (λ e, stage_of e ≠ k') t.
Proof. intros H Hne. revert H. apply List.Forall_impl. congruence. Qed.

(** ** The grammar of the loops *)

Lemma calm_round_stage g procs t :
  calm_round g procs t → Forall (λ e, stage_of e = Watch) t.
Proof.
  unfold calm_round. generalize (map_to_list procs).
  intros l H. induction H as [|np e l t (ret & -> & _) _ IH]; by constructor.
Qed.

Lemma success_round_stage g procs :
  Forall (λ e, stage_of e = Watch) (success_round g procs).
Proof. unfold success_round. apply Forall_fmap, Forall_true. done. Qed.

Lemma calm_poll_stage g t :
  Forall (calm_poll g) t → Forall (λ e, stage_of e = Watch) t.
Proof. apply List.Forall_impl. by intros e (n & p & ret & -> & _). Qed.

Lemma watch1_stage ups procs r t :
  watch1 ups procs r t → Forall (λ e, stage_of e = Watch) t.
Proof.
  induction 1; rewrite ?Forall_app, ?Forall_cons;
    eauto 8 using calm_round_stage, success_round_stage, calm_poll_stage.
Qed.

Lemma watch2_stage ups r t :
  watch2 ups r t → Forall (λ e, stage_of e = Watch) t.
Proof.
  induction 1; rewrite ?Forall_app, ?Forall_cons;
    eauto 8 using calm_round_stage, success_round_stage, calm_poll_stage.
Qed.

Lemma check_passed_stage {A} (cf : option (callback A)) :
  Forall (λ e, stage_of e = Validation) (check_passed cf).
Proof. destruct cf; by repeat constructor. Qed.

Lemma kill_attempt_stage h t :
  kill_attempt h t → Forall (λ e, stage_of e = Teardown) t.
Proof.
  destruct h as [p|]; cbn; [intros [->|[ok ->]]|intros ->];
    by repeat constructor.
Qed.

Lemma swept_stage token r2 r tf :
  swept token r2 r tf → Forall (λ e, stage_of e = Cleanup) tf.
Proof. destruct 1; by repeat constructor. Qed.

Lemma torn_stage ups r1 r2 tu tr :
  torn ups r1 r2 tu tr → Forall (λ e, stage_of e = Teardown) (tu ++ tr).
Proof.
  destruct r1 as [[]|e|]; cbn; [|intros (?&?&_)|done].
  - by intros (_ & -> & ->).
  - apply Forall_app; eauto using kill_attempt_stage.
Qed.

(** Polls that found a failed process. *)
Lemma calm_poll_calm g e : calm_poll g e → calm e.
Proof.
  intros (n & p & ret & -> & Hret) g' (n' & p' & c & [= -> -> -> ->] & Hc).
  destruct Hret as [|[= ->]]; done.
Qed.

Lemma calm_round_calm g procs t : calm_round g procs t → Forall calm t.
Proof.
  unfold calm_round. generalize (map_to_list procs).
  intros l H. induction H as [|np e l t (ret & -> & Hret) _ IH];
    constructor; [|done].
  apply (calm_poll_calm g). repeat eexists. done.
Qed.

Lemma success_round_calm g procs : Forall calm (success_round g procs).
Proof.
  unfold success_round. apply Forall_fmap, Forall_true.
  intros np. apply (calm_poll_calm g). repeat eexists. auto.
Qed.

Lemma off_watch_calm t :
  Forall (λ e, stage_of e ≠ Watch) t → Forall calm t.
Proof.
  apply List.Forall_impl. intros e He g (n & p & c & -> & _). done.
Qed.

Lemma settled_app r t1 t2 :
  Forall calm t1 → settled r t2 → settled r (t1 ++ t2).
Proof.
  intros H1 [H2|(t' & g & n & p & c & -> & H2 & Hc & ->)].
  - left. by apply Forall_app.
  - right. exists (t1 ++ t'), g, n, p, c.
    rewrite app_assoc. split_and!; [done| |done..]. by apply Forall_app.
Qed.

Lemma watch1_settled ups procs r t : watch1 ups procs r t → settled r t.
Proof.
  induction 1 as [| |t n p c Ht Hc|tp t n p c Htp Ht Hc|tp tu r t Htp Htu _ IH].
  - left. apply success_round_calm.
  - by left.
  - right. exists t, Precursor, n, p, c. split_and!; [done| |done..].
    eapply Forall_impl; [done|]. apply calm_poll_calm.
  - right. exists (tp ++ t), Upload, n, p, c.
    rewrite app_assoc. split_and!; [done| |done..].
    apply Forall_app. split; [by eapply calm_round_calm|].
    eapply Forall_impl; [done|]. apply calm_poll_calm.
  - apply settled_app; [by eapply calm_round_calm|].
    apply settled_app; [by eapply calm_round_calm|].
    apply (settled_app _ [_]); [|done].
    constructor; [|done]. intros g (?&?&?&?&?). done.
Qed.

Lemma watch2_settled ups r t : watch2 ups r t → settled r t.
Proof.
  induction 1 as [| |t n p c Ht Hc|tu r t Htu _ IH].
  - left. apply success_round_calm.
  - by left.
  - right. exists t, Upload, n, p, c. split_and!; [done| |done..].
    eapply Forall_impl; [done|]. apply calm_poll_calm.
  - apply settled_app; [by eapply calm_round_calm|].
    apply (settled_app _ [_]); [|done].
    constructor; [|done]. intros g (?&?&?&?&?). done.
Qed.

Lemma settled_ok_calm t : settled (Ok tt) t → Forall calm t.
Proof. by intros [?|(?&?&?&?&?&_&_&_&?)]. Qed.

(** In a settled trace a failed poll is the last event. *)
Lemma settled_failed_last r t pre e post g :
  settled r t → t = pre ++ e :: post → failed_poll g e →
  post = [] ∧ ∃ x, r = Raise x.
Proof.
  intros [Hcalm|(t' & g' & n & p & c & -> & Hcalm & Hc & ->)] Heq Hfail.
  - subst t. apply Forall_app in Hcalm as [_ Hcalm].
    apply Forall_cons in Hcalm as [Hcalm _]. by destruct (Hcalm g).
  - revert Heq. destruct post as [|e' post _] using rev_ind; intros Heq.
    + split; [done|eauto].
    + rewrite app_comm_cons, app_assoc in Heq.
      apply app_inj_tail in Heq as [-> _].
      apply Forall_app in Hcalm as [_ Hcalm].
      apply Forall_cons in Hcalm as [Hcalm _]. by destruct (Hcalm g).
Qed.

Lemma watch1_done_inv ups procs t :
  watch1 ups procs (Ok tt) t →
  ∃ t', t = t' ++ success_round Precursor procs.
Proof.
  remember (Ok tt) as r eqn:Hr.
  induction 1 as [| | | |tp tu r t Htp Htu _ IH]; try done.
  - by exists [].
  - destruct (IH Hr) as [t' ->].
    exists (tp ++ tu ++ Sleep SLEEP_TIME :: t').
    by rewrite <- !app_assoc.
Qed.

Lemma watch2_upload_only ups r t :
  watch2 ups r t →
  Forall (λ e, ∀ name p ret, e ≠ Poll Precursor name p ret) t.
Proof.
  assert (∀ t, Forall (calm_poll Upload) t →
            Forall (λ e, ∀ name p ret, e ≠ Poll Precursor name p ret) t) as Hc.
  { intros t'. apply List.Forall_impl. by intros e (?&?&?&->&_) ???. }
  assert (∀ t, calm_round Upload ups t →
            Forall (λ e, ∀ name p ret, e ≠ Poll Precursor name p ret) t) as Hr.
  { intros t'. unfold calm_round. generalize (map_to_list ups).
    intros l H. induction H as [|np e l t'' (ret & -> & _) _ IH];
      by constructor. }
  induction 1; rewrite ?Forall_app, ?Forall_cons; split_and?; eauto.
  unfold success_round. apply Forall_fmap, Forall_true. done.
Qed.

Lemma omap_absent {B} (f : event → option B) l pre y post :
  omap f l = [] → l = pre ++ y :: post → is_Some (f y) → False.
Proof.
  intros Hl -> [b Hy]. rewrite omap_app in Hl. cbn in Hl. rewrite Hy in Hl.
  by destruct (omap f pre).
Qed.

Lemma omap_unique_position {B} (f : event → option B) l1 l2 pre post x y :
  omap f l1 = [] → omap f l2 = [] → is_Some (f y) →
  l1 ++ x :: l2 = pre ++ y :: post →
  pre = l1 ∧ y = x ∧ post = l2.
Proof.
  intros H1 H2 Hy. revert pre.
  induction l1 as [|a l1 IH]; intros [|b pre]; cbn; intros [= ]; subst.
  - done.
  - destruct (omap_absent f (pre ++ y :: post) pre y post); done.
  - destruct Hy as [? Hy]. cbn in H1. rewrite Hy in H1. done.
  - cbn in H1. destruct (f b); [done|].
    destruct (IH H1 pre) as (-> & -> & ->); done.
Qed.

Section Facts.
Context {A : Type}.
Variables (w : world) (fuel : nat) (procs : gmap string Popen)
  (stdin : stream) (bucket key : string)
  (cf : option (callback A)) (ca : A) (files : gmap string node).

Lemma safe_upload_no_devnull :
  io_fails w 0 = true →
  safe_upload w fuel procs stdin bucket key cf ca (start files) =
    (Raise (IOError "open"), emit (OpenDevnull false) (start files)).
Proof.
  intros Hio. unfold safe_upload, in_frame, bind, new_locals, open_devnull.
  cbn. rewrite Hio. done.
Qed.

Lemma safe_upload_anatomy r s :
  safe_upload w fuel procs stdin bucket key cf ca (start files) = (r, s) →
  io_fails w 0 = false →
  ∃ r1 s1 t0 t,
    try_block w fuel procs stdin bucket key cf ca DevNull
      (emit (OpenDevnull true) (start files)) = (r1, s1) ∧
    upload_procs s = upload_procs s1 ∧ term_path s = term_path s1 ∧
    trace s1 = OpenDevnull true :: t0 ++ t ∧
    Forall (λ e, stage_of e = Setup) t0 ∧
    created_tokens t0 = option_list (term_path s1) ∧
    spawned t0 =
      omap (λ n, pid <$> upload_procs s1 !! n) ["repeater"; "uploader"] ∧
    ((t = [] ∧ ∃ e, r1 = Raise e) ∨
     (∃ path, term_path s1 = Some path ∧
              tried procs (upload_procs s1) cf path r1 t)) ∧
    ((r1 = Running ∧ r = Running ∧ trace s = trace s1) ∨
     (∃ tu tr tf r2,
        r1 ≠ Running ∧ r ≠ Running ∧
        trace s = trace s1 ++ tu ++ tr ++ tf ∧
        torn (upload_procs s1) r1 r2 tu tr ∧
        (attempt w fuel procs stdin bucket key cf ca DevNull
           (emit (OpenDevnull true) (start files))).1 = r2 ∧
        swept (term_path s1) r2 r tf ∧
        (∀ path, tf = [Remove path true] → fs s !! path = None))).
Proof.
  intros Hrun Hio.
  unfold safe_upload, in_frame, bind, new_locals, open_devnull in Hrun.
  cbn in Hrun. rewrite Hio in Hrun.
  change (set_term_path None (set_upload_procs ∅ (start files)))
    with (start files) in Hrun.
  destruct (guarded w fuel procs stdin bucket key cf ca DevNull
              (emit (OpenDevnull true) (start files))) as [rg sg] eqn:Hg.
  assert (r = rg ∧ s = set_exc_info None sg) as [-> ->]
    by (destruct rg; by injection Hrun).
  apply guarded_spec in Hg as (r1 & s1 & H1 & [Hu Hp] & Hend).
  pose proof H1 as H1'.
  apply try_block_spec in H1' as (_ & t0 & Hst & Hcr & Hsp & _ & Hshape);
    [|done].
  assert (∃ t, trace s1 = OpenDevnull true :: t0 ++ t ∧
    ((t = [] ∧ ∃ e, r1 = Raise e) ∨
     (∃ path, term_path s1 = Some path ∧
              tried procs (upload_procs s1) cf path r1 t)))
    as (t & Ht & Htried).
  { destruct Hshape as [(e & -> & Ht)|(path & t & Hpath & Ht & Htr)].
    - exists []. rewrite app_nil_r. split; [done|]. left. eauto.
    - exists t. split; [done|]. right. eauto. }
  exists r1, s1, t0, t. split_and!; [done..|].
  destruct Hend as [(-> & -> & ->)|Hend]; [by left|right; done].
Qed.

End Facts.

Lemma tried_signals {A} procs ups (cf : option (callback A)) path r t :
  tried procs ups cf path r t →
  signals t = [] ∨
  ∃ t1 ok t2,
      t = (t1 ++ success_round Precursor procs ++ check_passed cf) ++
          WriteFile path TERM_STRING ok :: t2 ∧
      Forall (λ e, stage_of e = Watch) t1 ∧ Forall calm t1 ∧
      (if ok then watch2 ups r t2 else t2 = [] ∧ r = Raise (IOError "write")).
Proof.
  destruct 1 as [r t Hw Hr|t e Hw|t Hw|t r t2 Hw Hw2].
  - left.
    apply signals_off. eapply stage_is; [by eapply watch1_stage|done].
  - left. unfold signals. rewrite omap_app. cbn.
    rewrite app_nil_r. apply signals_off.
    eapply stage_is; [by eapply watch1_stage|done].
  - right. pose proof (watch1_stage _ _ _ _ Hw) as Hst.
    pose proof (settled_ok_calm _ (watch1_settled _ _ _ _ Hw)) as Hcalm.
    apply watch1_done_inv in Hw as [t1 ->].
    apply Forall_app in Hst as [Hst _]. apply Forall_app in Hcalm as [Hcalm _].
    exists t1, false, []. rewrite <- !app_assoc. done.
  - right. pose proof (watch1_stage _ _ _ _ Hw) as Hst.
    pose proof (settled_ok_calm _ (watch1_settled _ _ _ _ Hw)) as Hcalm.
    apply watch1_done_inv in Hw as [t1 ->].
    apply Forall_app in Hst as [Hst _]. apply Forall_app in Hcalm as [Hcalm _].
    exists t1, true, t2. rewrite <- !app_assoc. done.
Qed.

Section Run.
Context {A : Type}.
Variables (w : world) (fuel : nat) (procs : gmap string Popen)
  (stdin : stream) (bucket key : string)
  (cf : option (callback A)) (ca : A) (files : gmap string node).

(** Either no write was attempted, or the trace has one write at a place
    fixed by the statements around it. *)
Lemma run_signal r s :
  safe_upload w fuel procs stdin bucket key cf ca (start files) = (r, s) →
  signals (trace s) = [] ∨
  ∃ path ok t0 t1 t2 t3 r2,
    trace s =
      (OpenDevnull true :: t0 ++ t1 ++
       success_round Precursor procs ++ check_passed cf) ++
      WriteFile path TERM_STRING ok :: t2 ++ t3 ∧
    Forall (λ e, stage_of e = Setup) t0 ∧ created_tokens t0 = [path] ∧
    Forall (λ e, stage_of e = Watch) t1 ∧ Forall calm t1 ∧
    (if ok then watch2 (upload_procs s) r2 t2 else t2 = []) ∧
    Forall (λ e, stage_of e = Teardown ∨ stage_of e = Cleanup) t3.
Proof.
  intros Hrun. destruct (io_fails w 0) eqn:Hio.
  { rewrite safe_upload_no_devnull in Hrun by done.
    injection Hrun as <- <-. by left. }
  apply safe_upload_anatomy in Hrun
    as (r1 & s1 & t0 & t & _ & Hu & Hp & Ht & Hst0 & Hcr & _ & Htried & Hend);
    [|done].
  assert (∃ t3, trace s = trace s1 ++ t3 ∧
            Forall (λ e, stage_of e = Teardown ∨ stage_of e = Cleanup) t3)
    as (t3 & Hs & Hst3).
  { destruct Hend as [(_ & _ & ->)|(tu & tr & tf & r2 & _ & _ & -> & Htorn & _ & Hsw & _)].
    - exists []. by rewrite app_nil_r.
    - exists ((tu ++ tr) ++ tf). split; [by rewrite <- !app_assoc|].
      apply Forall_app. split.
      + eapply List.Forall_impl; [|by eapply torn_stage]. auto.
      + eapply List.Forall_impl; [|by eapply swept_stage]. auto. }
  assert (signals t3 = []) as Hsig3.
  { apply signals_off. eapply List.Forall_impl; [|done]. by intros e [->| ->]. }
  assert (signals t0 = []) as Hsig0.
  { apply signals_off. by eapply stage_is. }
  destruct Htried as [[-> _]|(path & Hpath & Htried)].
  { left. rewrite Hs, Ht, app_nil_r. unfold signals in *.
    rewrite omap_app. cbn. by rewrite Hsig0, Hsig3. }
  apply tried_signals in Htried as [Hsig|(t1 & ok & t2 & -> & Hst1 & Hcalm1 & Hok)].
  { left. rewrite Hs, Ht. unfold signals in *.
    rewrite omap_app. cbn. by rewrite omap_app, Hsig0, Hsig, Hsig3. }
  right. exists path, ok, t0, t1, t2, t3, r1.
  split_and!; [|done| |done|done| |done].
  - rewrite Hs, Ht. cbn. rewrite <- !app_assoc. cbn. done.
  - by rewrite Hcr, Hpath.
  - destruct ok; [by rewrite Hu|]. by destruct Hok.
Qed.

End Run.

Lemma calm_failure e : calm e ↔ failure_of e = None.
Proof.
  split.
  - intros Hc. destruct e as [| | | | | |g n p [c|]| | | | | |]; try done.
    cbn. destruct (Z.eqb_spec c 0); [done|].
    destruct (Hc g). by exists n, p, c.
  - intros Hf g (n & p & c & -> & Hc). cbn in Hf.
    by destruct (Z.eqb_spec c 0).
Qed.

Lemma failed_failure g e : failed_poll g e → is_Some (failure_of e).
Proof.
  intros (n & p & c & -> & Hc). cbn. by destruct (Z.eqb_spec c 0).
Qed.

Lemma failures_calm t : Forall calm t → failures t = [].
Proof.
  induction 1 as [|e t He _ IH]; [done|]. cbn.
  apply calm_failure in He. by rewrite He.
Qed.

Lemma tried_stage {A} procs ups (cf : option (callback A)) path r t :
  tried procs ups cf path r t →
  Forall (λ e, stage_of e = Watch ∨ stage_of e = Validation ∨ stage_of e = Commit) t.
Proof.
  assert (∀ t, Forall (λ e, stage_of e = Watch) t →
    Forall (λ e, stage_of e = Watch ∨ stage_of e = Validation ∨ stage_of e = Commit) t)
    as Hw by (intros t'; apply List.Forall_impl; auto).
  assert (Forall (λ e, stage_of e = Watch ∨ stage_of e = Validation ∨
                       stage_of e = Commit) (check_passed cf)) as Hcp.
  { eapply List.Forall_impl; [|apply check_passed_stage]. auto. }
  destruct 1; rewrite ?Forall_app, ?Forall_cons, ?Forall_nil; split_and?;
    eauto using watch1_stage, watch2_stage.
Qed.

Lemma tried_settled {A} procs ups (cf : option (callback A)) path r t :
  tried procs ups cf path r t → settled r t.
Proof.
  assert (Forall calm (check_passed cf)) as Hcp.
  { apply off_watch_calm. eapply stage_is; [apply check_passed_stage|done]. }
  destruct 1 as [r t Hw Hr|t e Hw|t Hw|t r t2 Hw Hw2].
  - by eapply watch1_settled.
  - left. apply Forall_app. split.
    + eapply settled_ok_calm, watch1_settled. done.
    + apply off_watch_calm. by repeat constructor.
  - left. rewrite !Forall_app. split_and!; [|done|].
    + eapply settled_ok_calm, watch1_settled. done.
    + apply off_watch_calm. by repeat constructor.
  - apply settled_app; [by eapply settled_ok_calm, watch1_settled|].
    apply settled_app; [done|].
    apply (settled_app _ [_]); [|by eapply watch2_settled].
    apply off_watch_calm. by repeat constructor.
Qed.

Section Run.
Context {A : Type}.
Variables (w : world) (fuel : nat) (procs : gmap string Popen)
  (stdin : stream) (bucket key : string)
  (cf : option (callback A)) (ca : A) (files : gmap string node).

(** A failed poll ends the [try:] block: only the kill attempts and the
    removal of the token follow it. *)
Lemma run_failed_poll r s pre e post g :
  safe_upload w fuel procs stdin bucket key cf ca (start files) = (r, s) →
  trace s = pre ++ e :: post → failed_poll g e →
  Forall (λ e, stage_of e = Teardown ∨ stage_of e = Cleanup) post ∧
  (∃ x, r = Raise x) ∧
  ∃ name p c,
    e = Poll g name p (Some c) ∧ c ≠ 0%Z ∧
    (try_block w fuel procs stdin bucket key cf ca DevNull
       (emit (OpenDevnull true) (start files))).1 = Raise (ProcFailure name c).
Proof.
  intros Hrun Heq Hfail. destruct (io_fails w 0) eqn:Hio.
  { rewrite safe_upload_no_devnull in Hrun by done.
    injection Hrun as <- <-. cbn in Heq.
    destruct pre as [|? [|??]]; simplify_eq/=.
    by destruct Hfail as (?&?&?&?&?). }
  apply safe_upload_anatomy in Hrun
    as (r1 & s1 & t0 & t & H1 & Hu & Hp & Ht & Hst0 & Hcr & _ & Htried & Hend);
    [|done].
  assert (settled r1 (trace s1)) as Hset.
  { rewrite Ht. apply (settled_app _ (_ :: _)).
    - apply off_watch_calm. constructor; [done|]. by eapply stage_is.
    - destruct Htried as [[-> _]|(path & _ & Htried)]; [by left|].
      by eapply tried_settled. }
  assert (∃ t3, trace s = trace s1 ++ t3 ∧
            Forall (λ e, stage_of e = Teardown ∨ stage_of e = Cleanup) t3 ∧
            ((∃ x, r1 = Raise x) → ∃ x, r = Raise x))
    as (t3 & Hs & Hst3 & Hraise).
  { destruct Hend as [(-> & _ & ->)|(tu & tr & tf & r2 & _ & _ & -> & Htorn & _ & Hsw & _)].
    - exists []. rewrite app_nil_r. split_and!; [done..|]. by intros [??].
    - exists ((tu ++ tr) ++ tf). split_and!; [by rewrite <- !app_assoc| |].
      + apply Forall_app. split.
        * eapply List.Forall_impl; [|by eapply torn_stage]. auto.
        * eapply List.Forall_impl; [|by eapply swept_stage]. auto.
      + intros [x ->]. destruct Htorn as (_ & _ & [e' ->] & _).
        destruct Hsw; eauto. }
  assert (failures t3 = []) as Hf3.
  { apply failures_calm, off_watch_calm.
    eapply List.Forall_impl; [|done]. by intros ? [-> | ->]. }
  rewrite Hs in Heq.
  destruct Hset as [Hcalm|(t' & g' & n & p & c & Ht' & Hcalm & Hc & ->)].
  - destruct (omap_absent failure_of (trace s1 ++ t3) pre e post); [|done|].
    + fold (failures (trace s1 ++ t3)). unfold failures in *.
      rewrite omap_app, Hf3. fold (failures (trace s1)).
      by rewrite failures_calm.
    + by eapply failed_failure.
  - rewrite Ht', <- app_assoc in Heq. cbn in Heq.
    apply (omap_unique_position failure_of) in Heq as (-> & -> & ->);
      [|by apply failures_calm|done|by eapply failed_failure].
    split_and!; [done|eauto|].
    destruct Hfail as (n' & p' & c' & [= -> -> -> ->] & _).
    exists n', p', c'. split_and!; [done..|]. by rewrite H1.
Qed.

End Run.

Section Run.
Context {A : Type}.
Variables (w : world) (fuel : nat) (procs : gmap string Popen)
  (stdin : stream) (bucket key : string)
  (cf : option (callback A)) (ca : A) (files : gmap string node).

(** The [try:] block neither kills nor removes, and what it spawned is
    what [upload_procs] holds. *)
Lemma run_try_block r s :
  safe_upload w fuel procs stdin bucket key cf ca (start files) = (r, s) →
  io_fails w 0 = false →
  ∃ r1 s1,
    try_block w fuel procs stdin bucket key cf ca DevNull
      (emit (OpenDevnull true) (start files)) = (r1, s1) ∧
    kills (trace s1) = [] ∧ removals (trace s1) = [] ∧
    created_tokens (trace s1) = option_list (term_path s1) ∧
    spawned (trace s1) =
      omap (λ n, pid <$> upload_procs s1 !! n) ["repeater"; "uploader"] ∧
    ((r1 = Running ∧ r = Running ∧ trace s = trace s1) ∨
     (∃ tu tr tf r2,
        r1 ≠ Running ∧ r ≠ Running ∧
        trace s = trace s1 ++ tu ++ tr ++ tf ∧
        torn (upload_procs s1) r1 r2 tu tr ∧
        (attempt w fuel procs stdin bucket key cf ca DevNull
           (emit (OpenDevnull true) (start files))).1 = r2 ∧
        swept (term_path s1) r2 r tf ∧
        (∀ path, tf = [Remove path true] → fs s !! path = None))).
Proof.
  intros Hrun Hio.
  apply safe_upload_anatomy in Hrun
    as (r1 & s1 & t0 & t & H1 & Hu & Hp & Ht & Hst0 & Hcr & Hsp & Htried & Hend);
    [|done].
  exists r1, s1. split; [done|].
  assert (Forall (λ e, stage_of e = Watch ∨ stage_of e = Validation ∨
                       stage_of e = Commit) t) as Hst.
  { destruct Htried as [[-> _]|(path & _ & Htried)]; [done|].
    by eapply tried_stage. }
  assert (∀ k, k ≠ Watch → k ≠ Validation → k ≠ Commit →
            Forall (λ e, stage_of e ≠ k) t) as Hoff.
  { intros k ???. eapply List.Forall_impl; [|done].
    intros e [->|[->| ->]]; done. }
  assert (Forall (λ e, stage_of e = Setup) (OpenDevnull true :: t0)) as Hst0'
    by (by constructor).
  split_and!; [| | | |done].
  - rewrite Ht. apply kills_off. rewrite app_comm_cons.
    apply Forall_app. split; [by eapply stage_is|by apply Hoff].
  - rewrite Ht. apply removals_off. rewrite app_comm_cons.
    apply Forall_app. split; [by eapply stage_is|by apply Hoff].
  - rewrite Ht. unfold created_tokens in *. cbn. rewrite omap_app, Hcr.
    fold (created_tokens t). rewrite created_tokens_off, app_nil_r; [done|].
    by apply Hoff.
  - rewrite Ht. unfold spawned in *. cbn. rewrite omap_app, Hsp.
    fold (spawned t). rewrite spawned_off, app_nil_r; [done|].
    by apply Hoff.
Qed.

End Run.

(** C3 (amended): when the [try:] block of [safe_upload] raises, however
    far it got, the call next tests whether the uploader it spawned still
    exists and, if so, kills it, then does the same for the relay, kill
    errors being swallowed; each kill goes to a process this call
    spawned, none to a producer; then the token removal is attempted and
    the call ends with an exception.  When no kill attempt raised and the
    removal succeeded, that exception is the one the [try:] block raised;
    when the removal failed, it is the error of the removal. *)
Theorem kills_upload_side_then_reraises {A} (w : world) (fuel : nat)
    (procs : gmap string Popen) (stdin : stream) (bucket key : string)
    (cf : option (callback A)) (ca : A) (files : gmap string node)
    (e : exn) (s1 : state) :
  io_fails w 0 = false →
  try_block w fuel procs stdin bucket key cf ca DevNull
    (emit (OpenDevnull true) (start files)) = (Raise e, s1) →
  let r := (safe_upload w fuel procs stdin bucket key cf ca (start files)).1 in
  let s := (safe_upload w fuel procs stdin bucket key cf ca (start files)).2 in
  ∃ tu tr tf,
    trace s = trace s1 ++ tu ++ tr ++ tf ∧
    kill_attempt (upload_procs s1 !! "uploader") tu ∧
    kill_attempt (upload_procs s1 !! "repeater") tr ∧
    spawned (trace s1) =
      omap (λ n, pid <$> upload_procs s1 !! n) ["repeater"; "uploader"] ∧
    Forall (λ e, stage_of e = Cleanup) tf ∧
    kills (trace s) = kills tu ++ kills tr ∧
    (∀ k, k ∈ kills (trace s) → k.1 ∈ spawned (trace s)) ∧
    (∃ x, r = Raise x) ∧
    (Forall (λ k, k.2 = true) (kills (trace s)) →
     (∃ path, removals (trace s) = [(path, true)]) → r = Raise e) ∧
    (∀ path, removals (trace s) = [(path, false)] →
             r = Raise (OSError "remove")).
Proof.
  intros Hio H1. cbv zeta.
  destruct (safe_upload w fuel procs stdin bucket key cf ca (start files))
    as [r s] eqn:Hrun. cbn [fst snd].
  apply run_try_block in Hrun
    as (r1 & s1' & H1' & Hk1 & Hr1 & _ & Hsp & Hend); [|done].
  rewrite H1 in H1'. injection H1' as <- <-.
  destruct Hend as [(? & _)|(tu & tr & tf & r2 & _ & _ & Ht & Htorn & _ & Hsw & _)];
    [done|].
  destruct Htorn as (Hku & Hkr & [e' ->] & Hsame).
  pose proof (kill_attempt_stage _ _ Hku) as Hstu.
  pose proof (kill_attempt_stage _ _ Hkr) as Hstr.
  pose proof (swept_stage _ _ _ _ Hsw) as Hstf.
  assert (kills (trace s) = kills tu ++ kills tr) as Hkills.
  { rewrite Ht, !kills_app, Hk1, (kills_off tf), app_nil_r; [done|].
    by eapply stage_is. }
  assert (spawned (trace s) = spawned (trace s1)) as Hspawned.
  { rewrite Ht, !spawned_app, (spawned_off tu), (spawned_off tr),
      (spawned_off tf), !app_nil_r; [done|by eapply stage_is..]. }
  exists tu, tr, tf. split_and!; [done..| | | |].
  - intros k Hin. rewrite Hkills in Hin. rewrite Hspawned, Hsp.
    apply elem_of_app in Hin as [Hin|Hin].
    + destruct (upload_procs s1 !! "uploader") as [pu|] eqn:Hu; cbn in Hku.
      * assert (k.1 = pid pu) as ->.
        { destruct Hku as [->|[ok ->]]; cbn in Hin;
            [by apply elem_of_nil in Hin|].
          by apply list_elem_of_singleton in Hin as ->. }
        cbn. rewrite Hu. destruct (upload_procs s1 !! "repeater"); cbn;
          rewrite ?elem_of_cons; auto.
      * subst tu. by apply elem_of_nil in Hin.
    + destruct (upload_procs s1 !! "repeater") as [pr|] eqn:Hr; cbn in Hkr.
      * assert (k.1 = pid pr) as ->.
        { destruct Hkr as [->|[ok ->]]; cbn in Hin;
            [by apply elem_of_nil in Hin|].
          by apply list_elem_of_singleton in Hin as ->. }
        cbn. rewrite Hr. cbn. rewrite ?elem_of_cons; auto.
      * subst tr. by apply elem_of_nil in Hin.
  - destruct Hsw; eauto.
  - intros Hok [path Hrm]. rewrite Hkills in Hok.
    rewrite kills_app in Hsame. specialize (Hsame Hok).
    rewrite Ht, !removals_app, Hr1, (removals_off tu), (removals_off tr)
      in Hrm; [|by eapply stage_is..].
    destruct Hsw; cbn in Hrm; simplify_eq. done.
  - intros path Hrm.
    rewrite Ht, !removals_app, Hr1, (removals_off tu), (removals_off tr)
      in Hrm; [|by eapply stage_is..].
    destruct Hsw; cbn in Hrm; simplify_eq. done.
Qed.

(** C5 (amended): a call of [safe_upload] attempts the removal of a token
    at most once.  When the call has ended and had created its token, the
    removal of that token was attempted exactly once, as the last thing
    the call did.  If the removal succeeded the token is gone and the call
    ends the way its [try: / except:] part ended; if it failed, the call
    ends with the error of the removal. *)
Theorem token_removed_once {A} (w : world) (fuel : nat)
    (procs : gmap string Popen) (stdin : stream) (bucket key : string)
    (cf : option (callback A)) (ca : A) (files : gmap string node) :
  let r := (safe_upload w fuel procs stdin bucket key cf ca (start files)).1 in
  let s := (safe_upload w fuel procs stdin bucket key cf ca (start files)).2 in
  length (removals (trace s)) ≤ 1 ∧
  (r ≠ Running →
   ∀ path, created_tokens (trace s) = [path] →
     ∃ ok t,
       trace s = t ++ [Remove path ok] ∧ removals t = [] ∧
       (ok = true →
        fs s !! path = None ∧
        r = (attempt w fuel procs stdin bucket key cf ca DevNull
               (emit (OpenDevnull true) (start files))).1) ∧
       (ok = false → r = Raise (OSError "remove"))).
Proof.
  cbv zeta.
  destruct (safe_upload w fuel procs stdin bucket key cf ca (start files))
    as [r s] eqn:Hrun. cbn [fst snd].
  destruct (io_fails w 0) eqn:Hio.
  { rewrite safe_upload_no_devnull in Hrun by done.
    injection Hrun as <- <-. cbn. split; [lia|]. done. }
  apply run_try_block in Hrun
    as (r1 & s1 & H1 & Hk1 & Hr1 & Hcr & Hsp & Hend); [|done].
  destruct Hend as [(-> & -> & Ht)|(tu & tr & tf & r2 & _ & _ & Ht & Htorn & Hatt & Hsw & Hgone)].
  { rewrite Ht, Hr1. cbn. split; [lia|done]. }
  pose proof (torn_stage _ _ _ _ _ Htorn) as Hst.
  assert (trace s = (trace s1 ++ tu ++ tr) ++ tf) as Ht'
    by (by rewrite Ht, <- !app_assoc).
  assert (removals (trace s1 ++ tu ++ tr) = []) as Hrm.
  { rewrite removals_app, Hr1. apply removals_off. by eapply stage_is. }
  assert (created_tokens (trace s) = created_tokens (trace s1)) as Hcrs.
  { pose proof (swept_stage _ _ _ _ Hsw) as Hstf.
    rewrite Ht', 2!created_tokens_app, (created_tokens_off (tu ++ tr)),
      (created_tokens_off tf), !app_nil_r; [done|by eapply stage_is..]. }
  split.
  - rewrite Ht', removals_app, Hrm.
    destruct Hsw; cbn; lia.
  - intros Hnr path Hpath. rewrite Hcrs, Hcr in Hpath.
    destruct (term_path s1) as [path'|] eqn:Hp; [|done].
    injection Hpath as ->.
    destruct Hsw as [|path' Hp'|path' Hp']; simplify_eq.
    + exists true, (trace s1 ++ tu ++ tr).
      split_and!; [done..| |done].
      intros _. split; [by apply Hgone|done].
    + exists false, (trace s1 ++ tu ++ tr).
      split_and!; done.
Qed.

Section Facts.
Variable w : world.

Lemma kill_precursor_proc_spec procs name v s :
  procs !! name = Some v →
  ∃ s' t, kill_precursor_proc w procs name s = (Ok tt, s') ∧
          trace s' = trace s ++ t ∧ kill_attempt v t.
Proof.
  intros Hl.
  unfold kill_precursor_proc, bind, getitem, ret, raise, psutil_pid_exists,
    try_except, Popen_kill.
  rewrite Hl. cbn. destruct v as [handle|]; cbn.
  - destruct (pid_alive w (now s) (pid handle)); cbn.
    + match goal with |- context [kill_fails w ?t ?p] =>
        destruct (kill_fails w t p) end; cbn;
        do 2 eexists; (split; [done|]); cbn; rewrite <- app_assoc;
        (split; [done|]); right; eauto.
    + do 2 eexists. split; [done|]. split; [done|]. by left.
  - exists s, []. by rewrite app_nil_r.
Qed.

Lemma for_each_kill procs (l : list (string * option Popen)) s :
  (∀ nv, nv ∈ l → procs !! nv.1 = Some nv.2) →
  ∃ s' ts, for_each l.*1 (kill_precursor_proc w procs) s = (Ok tt, s') ∧
           trace s' = trace s ++ concat ts ∧
           Forall2 (λ nv t, kill_attempt nv.2 t) l ts.
Proof.
  revert s. induction l as [|[name v] l IH]; intros s Hl.
  { exists s, []. cbn. by rewrite app_nil_r. }
  cbn [fmap list_fmap for_each fst]. unfold bind at 1.
  destruct (kill_precursor_proc_spec procs name v s) as (s1 & t & -> & Ht & Hk).
  { apply (Hl (name, v)). by left. }
  destruct (IH s1) as (s' & ts & Hrun & Hts & Hall).
  { intros nv Hin. apply Hl. by right. }
  exists s', (t :: ts). split; [done|]. split.
  - cbn. by rewrite Hts, Ht, <- app_assoc.
  - by constructor.
Qed.

Lemma kill_precursor_procs_spec procs s :
  ∃ s' ts, kill_precursor_procs w procs s = (Ok tt, s') ∧
           trace s' = trace s ++ concat ts ∧
           Forall2 (λ nv t, kill_attempt nv.2 t) (map_to_list procs) ts.
Proof.
  unfold kill_precursor_procs, in_frame.
  destruct (for_each_kill procs (map_to_list procs) s)
    as (s' & ts & Hrun & Ht & Hall).
  { intros [name v] Hin. by apply elem_of_map_to_list in Hin. }
  rewrite Hrun. eauto.
Qed.

(** Entries without a handle leave nothing in the trace. *)
Lemma kill_attempts_handles (l : list (string * option Popen)) ts :
  Forall2 (λ nv t, kill_attempt nv.2 t) l ts →
  ∃ ts', concat ts = concat ts' ∧
         Forall2 (λ handle t, kill_attempt (Some handle) t) (omap snd l) ts'.
Proof.
  induction 1 as [|[name [handle|]] t l ts Hk _ (ts' & Heq & Hall)]; cbn.
  - by exists [].
  - exists (t :: ts'). cbn. rewrite Heq. split; [done|]. by constructor.
  - cbn in Hk. subst t. exists ts'. done.
Qed.

End Facts.

(** A temporary file never has the path of its directory. *)
Lemma path_join_tmp dir name : path_join dir ("tmp" +:+ name) ≠ dir.
Proof.
  unfold path_join.
  assert (String.prefix "/" ("tmp" +:+ name) = false) as -> by reflexivity.
  intros Heq. apply (f_equal String.length) in Heq.
  destruct (String.eqb dir "" || endswith dir "/");
    rewrite !string_length_app in Heq; cbn in Heq; lia.
Qed.

Section Facts.
Variable w : world.

Lemma first_free_spec dir names files file :
  first_free dir names files = Some file →
  files !! file = None ∧
  ∃ name, name ∈ names ∧ file = path_join dir ("tmp" +:+ name).
Proof.
  induction names as [|n names IH]; [done|]. cbn.
  destruct (files !! path_join dir ("tmp" +:+ n)) eqn:El.
  - intros Hf. destruct (IH Hf) as (? & name & ? & ?).
    split; [done|]. exists name. split; [by right|done].
  - intros [= <-]. split; [done|]. exists n. split; [by left|done].
Qed.

Lemma first_free_some dir names files name :
  name ∈ names → files !! path_join dir ("tmp" +:+ name) = None →
  is_Some (first_free dir names files).
Proof.
  induction names as [|n names IH]; intros Hin Hfree.
  { by apply elem_of_nil in Hin. }
  cbn. destruct (files !! path_join dir ("tmp" +:+ n)) eqn:El; [|by eexists].
  apply IH; [|done]. apply elem_of_cons in Hin as [->|]; [congruence|done].
Qed.

(** The token is created in a file system reached from the one the call
    started in by what other processes did and by creating the
    directory; there it did not exist, and its directory did. *)
Lemma get_term_file_fresh s path s' :
  get_term_file w s = (Ok path, s') →
  let term_dir := path_join (RAID_MOUNT w) TERM_DIR in
  ∃ files name,
    (∀ P : gmap string node → Prop,
       (∀ t f, P f → P (others w t f)) →
       (∀ f, P f → P (<[term_dir := Dir]> f)) →
       P (fs s) → P files) ∧
    files !! path = None ∧ files !! term_dir = Some Dir ∧
    path = path_join term_dir ("tmp" +:+ name) ∧
    fs s' = <[path := File ""]> files.
Proof.
  unfold get_term_file, get_term_dir. cbv zeta.
  generalize (path_join (RAID_MOUNT w) TERM_DIR) as term_dir.
  intros term_dir.
  unfold bind, ret, os_path_exists, os_mkdir, tempfile_mkstemp, os_close.
  intros Hrun. cbn in Hrun.
  repeat case_match; simplify_eq/=.
  all: match goal with
       | H : first_free _ _ ?f = Some _ |- _ =>
           apply first_free_spec in H as (Hfree & name & _ & ->);
           exists f, name
       end.
  all: split_and!; [|done..].
  all: intros P Hothers Hmk HP; unfold seen; cbn; auto.
Qed.


Lemma get_term_file_returns s :
  let term_dir := path_join (RAID_MOUNT w) TERM_DIR in
  (∀ t, io_fails w t = false) →
  (∀ t f, others w t f = f) →
  (∀ c, fs s !! term_dir ≠ Some (File c)) →
  (∀ t, ∃ name, name ∈ tmp_names w t ∧
                fs s !! path_join term_dir ("tmp" +:+ name) = None) →
  ∃ path s', get_term_file w s = (Ok path, s').
Proof.
  cbv zeta. unfold get_term_file, get_term_dir. cbv zeta.
  generalize (path_join_tmp (path_join (RAID_MOUNT w) TERM_DIR)).
  generalize (path_join (RAID_MOUNT w) TERM_DIR) as term_dir.
  intros term_dir Htmp Hio Hquiet Hdir Hnames.
  unfold bind, ret, os_path_exists, os_mkdir, tempfile_mkstemp, os_close,
    seen.
  cbn. rewrite ?Hquiet, ?Hio.
  destruct (fs s !! term_dir) as [[|c]|] eqn:El; cbn.
  - rewrite ?Hquiet, ?Hio, ?El.
    destruct (Hnames (S (now s))) as (name & Hin & Hfree).
    destruct (first_free_some term_dir _ (fs s) name Hin Hfree) as [file ->].
    cbn. eauto.
  - by destruct (Hdir c).
  - rewrite ?Hquiet, ?Hio, ?El. cbn. rewrite ?Hquiet, ?Hio, lookup_insert_eq.
    destruct (Hnames (S (S (now s)))) as (name & Hin & Hfree).
    destruct (first_free_some term_dir _ (<[term_dir := Dir]> (fs s)) name Hin)
      as [file ->].
    { rewrite lookup_insert_ne; [done|]. intros Heq. by apply (Htmp name). }
    cbn. eauto.
Qed.

End Facts.

(** ** Ordering, monitoring and teardown *)

(** C1: in every execution of [safe_upload] the magic string is written
    at most once, to the token this call created, and the write comes
    directly after a round of polls in which every producer was found
    exited with status 0, followed by the check function returning when
    one was supplied.  Nothing but the last loop over the upload side
    (which starts after a successful write), the kill attempts and the
    removal of the token follows it.  When a poll finds a failed producer,
    or the check function raises, no write is ever attempted. *)
Theorem signal_only_after_producers_and_check {A} (w : world) (fuel : nat)
    (procs : gmap string Popen) (stdin : stream) (bucket key : string)
    (cf : option (callback A)) (ca : A) (files : gmap string node) :
  let s := (safe_upload w fuel procs stdin bucket key cf ca (start files)).2 in
  (∀ pre post path data ok,
     trace s = pre ++ WriteFile path data ok :: post →
     data = TERM_STRING ∧ created_tokens (trace s) = [path] ∧
     (∃ pre0, pre = pre0 ++ success_round Precursor procs ++ check_passed cf) ∧
     signals pre = [] ∧ signals post = [] ∧ validations post = [] ∧
     Forall (λ e, ∀ name p ret, e ≠ Poll Precursor name p ret) post ∧
     ∃ r2 t2 t3,
       post = t2 ++ t3 ∧
       (if ok then watch2 (upload_procs s) r2 t2 else t2 = []) ∧
       Forall (λ e, stage_of e = Teardown ∨ stage_of e = Cleanup) t3) ∧
  ((∃ e, e ∈ trace s ∧ failed_poll Precursor e) → signals (trace s) = []) ∧
  ((∃ e, Validate (Some e) ∈ trace s) → signals (trace s) = []).
Proof.
  cbv zeta.
  destruct (safe_upload w fuel procs stdin bucket key cf ca (start files))
    as [r s] eqn:Hrun. cbn [snd].
  apply run_signal in Hrun
    as [Hnone|(path & ok & t0 & t1 & t2 & t3 & r2 & Ht & Hst0 & Hcr & Hst1
               & Hcalm1 & Hok & Hst3)].
  { split_and!; [|done..]. intros pre post path data ok Heq.
    destruct (omap_absent _ _ _ _ _ Hnone Heq). by eexists. }
  assert (Forall (λ e, stage_of e = Watch) t2) as Hst2.
  { destruct ok; [by eapply watch2_stage|]. by subst t2. }
  assert (Forall (λ e, ∀ name p ret, e ≠ Poll Precursor name p ret) t2) as Hup2.
  { destruct ok; [by eapply watch2_upload_only|]. by subst t2. }
  assert (Forall (λ e, stage_of e ≠ Watch ∧ stage_of e ≠ Validation ∧
                       stage_of e ≠ Commit ∧ stage_of e ≠ Setup) t3) as Hoff3.
  { eapply List.Forall_impl; [|done]. by intros e [-> | ->]. }
  pose proof (success_round_stage Precursor procs) as Hsr.
  pose proof (check_passed_stage cf) as Hcp.
  assert (signals (OpenDevnull true :: t0 ++ t1 ++
            success_round Precursor procs ++ check_passed cf) = []) as Hsigpre.
  { apply signals_off. constructor; [done|].
    rewrite !Forall_app. split_and!; by eapply stage_is. }
  assert (signals (t2 ++ t3) = []) as Hsigpost.
  { apply signals_off. rewrite Forall_app. split; [by eapply stage_is|].
    eapply List.Forall_impl; [|done]. by intros e (?&?&?&?). }
  split_and!.
  - intros pre post path' data ok' Heq. rewrite Ht in Heq.
    apply omap_unique_position with (f := λ e,
      match e with WriteFile p d o => Some (p, d, o) | _ => None end)
      in Heq as (-> & [= -> -> ->] & ->); [|done..].
    split_and!; [done| |exists (OpenDevnull true :: t0 ++ t1); cbn;
                            by rewrite <- !app_assoc
                |done|done| | |by exists r2, t2, t3].
    + rewrite Ht. unfold created_tokens. cbn.
      rewrite !omap_app. cbn. rewrite omap_app.
      fold (created_tokens t0) (created_tokens t1) (created_tokens t2)
        (created_tokens t3) (created_tokens (success_round Precursor procs))
        (created_tokens (check_passed cf)).
      rewrite Hcr, !created_tokens_off;
        [done|eapply List.Forall_impl; [|done]; by intros e (?&?&?&?)
        |by eapply stage_is..].
    + unfold validations. rewrite omap_app.
      fold (validations t2) (validations t3).
      rewrite !validations_off;
        [done|eapply List.Forall_impl; [|done]; by intros e (?&?&?&?)
        |by eapply stage_is].
    + apply Forall_app. split; [done|].
      eapply List.Forall_impl; [|exact Hoff3]. intros e He ??? ->.
      by destruct He.
  - intros (e & Hin & Hfail). exfalso.
    assert (stage_of e = Watch) as Hw by (by destruct Hfail as (?&?&?&->&_)).
    rewrite Ht in Hin.
    rewrite !elem_of_app, !elem_of_cons, !elem_of_app in Hin.
    destruct Hin as [[->|[Hin|[Hin|[Hin|Hin]]]]|[->|[Hin|Hin]]]; try done.
    + rewrite Forall_forall in Hst0. by rewrite (Hst0 _ Hin) in Hw.
    + rewrite Forall_forall in Hcalm1. by destruct (Hcalm1 _ Hin Precursor).
    + pose proof (success_round_calm Precursor procs) as Hc.
      rewrite Forall_forall in Hc. by destruct (Hc _ Hin Precursor).
    + rewrite Forall_forall in Hcp. by rewrite (Hcp _ Hin) in Hw.
    + rewrite Forall_forall in Hup2. destruct Hfail as (n&p&c&->&_).
      by destruct (Hup2 _ Hin n p (Some c)).
    + rewrite Forall_forall in Hoff3. by destruct (Hoff3 _ Hin).
  - intros (e & Hin). exfalso.
    rewrite Ht in Hin.
    rewrite !elem_of_app, !elem_of_cons, !elem_of_app in Hin.
    destruct Hin as [[?|[Hin|[Hin|[Hin|Hin]]]]|[?|[Hin|Hin]]]; try done.
    + rewrite Forall_forall in Hst0. by pose proof (Hst0 _ Hin).
    + rewrite Forall_forall in Hst1. by pose proof (Hst1 _ Hin).
    + rewrite Forall_forall in Hsr. by pose proof (Hsr _ Hin).
    + destruct cf; cbn in Hin; [|by apply elem_of_nil in Hin].
      by apply list_elem_of_singleton in Hin.
    + rewrite Forall_forall in Hst2. by pose proof (Hst2 _ Hin).
    + rewrite Forall_forall in Hoff3. by destruct (Hoff3 _ Hin) as (?&?&?).
Qed.

(** C6: the first loop of [safe_upload] runs in rounds: a poll of every
    producer, then, unless they are all done, a poll of every process of
    the upload side, then a sleep of [SLEEP_TIME].  When the poll of the
    upload side meets a process that exited with a non-zero status, the
    loop ends there with the monitor's exception: no sleep and no further
    poll of a producer follows, in the loop or anywhere in the call, which
    goes on to the kill attempts and the removal of the token and ends
    with an exception. *)
Theorem upload_failure_aborts_first_loop {A} (w : world) (fuel : nat)
    (procs : gmap string Popen) (stdin : stream) (bucket key : string)
    (cf : option (callback A)) (ca : A) (files : gmap string node) :
  (∀ s r s',
     wait_precursors w fuel procs s = (r, s') →
     ∃ t, trace s' = trace s ++ t ∧ watch1 (upload_procs s) procs r t) ∧
  (∀ s s1 s2 e,
     check_dict_of_procs w Precursor procs s = (Ok false, s1) →
     check_dict_of_procs w Upload (upload_procs s1) s1 = (Raise e, s2) →
     wait_precursors w (S fuel) procs s = (Raise e, s2)) ∧
  (∀ s s1 s2 done,
     check_dict_of_procs w Precursor procs s = (Ok false, s1) →
     check_dict_of_procs w Upload (upload_procs s1) s1 = (Ok done, s2) →
     wait_precursors w (S fuel) procs s =
       wait_precursors w fuel procs (emit (Sleep SLEEP_TIME) s2)) ∧
  (let r := (safe_upload w fuel procs stdin bucket key cf ca (start files)).1 in
   let s := (safe_upload w fuel procs stdin bucket key cf ca (start files)).2 in
   ∀ pre e post,
     trace s = pre ++ e :: post → failed_poll Upload e →
     Forall (λ e, stage_of e = Teardown ∨ stage_of e = Cleanup) post ∧
     (∃ x, r = Raise x) ∧
     ∃ name p c,
       e = Poll Upload name p (Some c) ∧ c ≠ 0%Z ∧
       (try_block w fuel procs stdin bucket key cf ca DevNull
          (emit (OpenDevnull true) (start files))).1 =
         Raise (ProcFailure name c)).
Proof.
  split_and!.
  - intros s r s' Hrun. by apply wait_precursors_spec in Hrun as [_ ?].
  - intros s s1 s2 e H1 H2. unfold wait_precursors.
    rewrite while_unfold. unfold bind at 1, bind at 1. rewrite H1.
    cbn [ret negb]. unfold bind at 1, bind at 1, load_upload_procs at 1.
    unfold bind at 1. by rewrite H2.
  - intros s s1 s2 b H1 H2. unfold wait_precursors.
    rewrite while_unfold. unfold bind at 1, bind at 1. rewrite H1.
    cbn [ret negb]. unfold bind at 1, bind at 1, load_upload_procs at 1.
    unfold bind at 1. by rewrite H2.
  - cbv zeta. intros pre e post Heq Hfail.
    destruct (safe_upload w fuel procs stdin bucket key cf ca (start files))
      as [r s] eqn:Hrun.
    by eapply run_failed_poll.
Qed.

(** C8: for every group, [kill_precursor_procs] returns without raising.
    What it does is, entry by entry, test whether the process exists and,
    if it does, send the kill, whose failure is swallowed; and a second
    call right after the first returns as well. *)
Theorem kill_precursor_procs_never_raises (w : world)
    (procs : gmap string (option Popen)) (s : state) :
  ∃ s' ts,
    kill_precursor_procs w procs s = (Ok tt, s') ∧
    trace s' = trace s ++ concat ts ∧
    Forall2 (λ nv t, kill_attempt nv.2 t) (map_to_list procs) ts ∧
    ∃ s'', (kill_precursor_procs w procs;; kill_precursor_procs w procs) s
           = (Ok tt, s'').
Proof.
  destruct (kill_precursor_procs_spec w procs s) as (s' & ts & Hrun & Ht & Hall).
  destruct (kill_precursor_procs_spec w procs s') as (s'' & _ & Hrun' & _).
  exists s', ts. split_and!; [done..|].
  exists s''. unfold bind. by rewrite Hrun.
Qed.

(** C10: an entry of the group whose value is [None] is passed over: the
    calls [kill_precursor_procs] makes are the attempts for the entries
    that hold a handle and nothing else, it returns without raising, and
    on a group of placeholders only it makes no call at all. *)
Theorem kill_precursor_procs_skips_none (w : world)
    (procs : gmap string (option Popen)) (s : state) :
  ∃ s' ts,
    kill_precursor_procs w procs s = (Ok tt, s') ∧
    trace s' = trace s ++ concat ts ∧
    Forall2 (λ handle t, kill_attempt (Some handle) t)
            (omap snd (map_to_list procs)) ts ∧
    ((∀ name v, procs !! name = Some v → v = None) → trace s' = trace s).
Proof.
  destruct (kill_precursor_procs_spec w procs s) as (s' & ts & Hrun & Ht & Hall).
  apply kill_attempts_handles in Hall as (ts' & Heq & Hall).
  exists s', ts'. rewrite <- Heq. split_and!; [done..|].
  intros Hnone.
  assert (omap snd (map_to_list procs) = []) as Hno.
  { assert (∀ l : list (string * option Popen),
              (∀ nv, nv ∈ l → nv.2 = None) → omap snd l = []) as Hl.
    { induction l as [|[name v] l IH]; intros Hin; [done|].
      pose proof (Hin (name, v) ltac:(by left)) as Hv. cbn in Hv. subst v.
      cbn. apply IH. intros nv ?. apply Hin. by right. }
    apply Hl. intros [name v] Hin. cbn.
    apply (Hnone name). by apply elem_of_map_to_list. }
  rewrite Hno in Hall. apply Forall2_nil_inv_l in Hall as ->.
  cbn in Heq. rewrite Ht, Heq. by rewrite app_nil_r.
Qed.



Lemma signal_only_after_producers_and_check_witness :
  let s := (upload calm_world 5).2 in
  trace s = take 16 (trace s) ++
            WriteFile the_token "TIME_TO_DIE" true :: drop 17 (trace s) ∧
  (∃ pre0, take 16 (trace s) =
           pre0 ++ success_round Precursor one_producer ++ []) ∧
  signals (trace (upload failing_producer_world 5).2) = [].
Proof.
  cbv zeta. split; [by vm_compute|]. split.
  - destruct (proj1 (signal_only_after_producers_and_check
                       calm_world 5 one_producer (CallerStream 0)
                       "bucket" "key" (None : option (callback unit)) tt ∅)
                (take 16 (trace (upload calm_world 5).2))
                (drop 17 (trace (upload calm_world 5).2))
                the_token "TIME_TO_DIE" true)
      as (_ & _ & Hpre & _); [by vm_compute|exact Hpre].
  - apply (proj1 (proj2 (signal_only_after_producers_and_check
             failing_producer_world 5 one_producer (CallerStream 0)
             "bucket" "key" (None : option (callback unit)) tt ∅))).
    exists (Poll Precursor "mysqldump" 7 (Some 1%Z)). split.
    + apply list_elem_of_In. vm_compute. tauto.
    + exists "mysqldump", 7%Z, 1%Z. split; [reflexivity|discriminate].
Defined.

(** C3, as stated, fails: the exception that reaches the caller is not
    always the one that was raised.  When the token cannot be created the
    [finally:] block reads [term_path] before it was assigned and the
    caller receives that error; when a kill raises, the bare [raise]
    re-raises the error of the kill; when the removal of the token fails,
    the caller receives the error of the removal. *)
Lemma caller_can_receive_another_exception :
  ((upload_try no_term_dir_world 5).1 = Raise (OSError "mkdir") ∧
   (upload no_term_dir_world 5).1 = Raise (UnboundLocalError "term_path")) ∧
  ((upload_try kill_raises_world 5).1 = Raise (ProcFailure "mysqldump" 1) ∧
   (upload kill_raises_world 5).1 = Raise (OSError "kill")) ∧
  ((upload_try remove_fails_world 5).1 = Raise (ProcFailure "mysqldump" 1) ∧
   (upload remove_fails_world 5).1 = Raise (OSError "remove")).
Proof. by vm_compute. Qed.

Lemma kills_upload_side_then_reraises_witness :
  io_fails failing_producer_world 0 = false ∧
  (upload_try failing_producer_world 5).1 = Raise (ProcFailure "mysqldump" 1) ∧
  (upload failing_producer_world 5).1 = Raise (ProcFailure "mysqldump" 1).
Proof.
  split; [reflexivity|]. split; [reflexivity|].
  destruct (kills_upload_side_then_reraises
              failing_producer_world 5 one_producer (CallerStream 0)
              "bucket" "key" (None : option (callback unit)) tt ∅
              (ProcFailure "mysqldump" 1)
              (upload_try failing_producer_world 5).2)
    as (tu & tr & tf & _ & _ & _ & _ & _ & _ & _ & _ & Hsame & _);
    [reflexivity|by vm_compute|].
  apply Hsame.
  - vm_compute. repeat constructor.
  - exists the_token. by vm_compute.
Defined.

(** C5, as stated, fails twice.  When the creation of the token fails no
    removal is carried out, and the caller receives the error of the
    [finally:] block in place of the error of the creation; and when the
    removal fails, its error replaces the one that made the call fail. *)
Lemma removal_can_be_skipped_and_can_mask :
  ((upload_attempt no_term_dir_world 5).1 = Raise (OSError "mkdir") ∧
   removals (trace (upload no_term_dir_world 5).2) = [] ∧
   (upload no_term_dir_world 5).1 = Raise (UnboundLocalError "term_path")) ∧
  ((upload_attempt remove_fails_world 5).1 = Raise (ProcFailure "mysqldump" 1) ∧
   removals (trace (upload remove_fails_world 5).2) = [(the_token, false)] ∧
   (upload remove_fails_world 5).1 = Raise (OSError "remove")).
Proof. by vm_compute. Qed.

Lemma token_removed_once_witness :
  (upload calm_world 5).1 ≠ Running ∧
  created_tokens (trace (upload calm_world 5).2) = [the_token] ∧
  ∃ ok t, trace (upload calm_world 5).2 = t ++ [Remove the_token ok] ∧
          removals t = [].
Proof.
  split; [by vm_compute|]. split; [by vm_compute|].
  destruct (proj2 (token_removed_once
                     calm_world 5 one_producer (CallerStream 0)
                     "bucket" "key" (None : option (callback unit)) tt ∅))
    with (path := the_token) as (ok & t & Ht & Hrm & _);
    [by vm_compute|by vm_compute|].
  exists ok, t. split; [exact Ht|exact Hrm].
Defined.

Lemma upload_failure_aborts_first_loop_witness :
  let w := failing_uploader_world in
  let s1 := (check_dict_of_procs w Precursor one_producer (watching w)).2 in
  let s2 := (check_dict_of_procs w Upload (upload_procs s1) s1).2 in
  check_dict_of_procs w Precursor one_producer (watching w) = (Ok false, s1) ∧
  check_dict_of_procs w Upload (upload_procs s1) s1 =
    (Raise (ProcFailure "uploader" 1), s2) ∧
  wait_precursors w 3 one_producer (watching w) =
    (Raise (ProcFailure "uploader" 1), s2) ∧
  ∃ x, (upload w 5).1 = Raise x.
Proof.
  cbv zeta. split; [by vm_compute|]. split; [by vm_compute|]. split.
  - apply (proj1 (proj2 (upload_failure_aborts_first_loop
             failing_uploader_world 2 one_producer (CallerStream 0)
             "bucket" "key" (None : option (callback unit)) tt ∅)))
      with (s1 := (check_dict_of_procs failing_uploader_world Precursor
                     one_producer (watching failing_uploader_world)).2);
      by vm_compute.
  - destruct (proj2 (proj2 (proj2 (upload_failure_aborts_first_loop
                failing_uploader_world 5 one_producer (CallerStream 0)
                "bucket" "key" (None : option (callback unit)) tt ∅)))
                (take 8 (trace (upload failing_uploader_world 5).2))
                (Poll Upload "uploader" 106 (Some 1%Z))
                (drop 9 (trace (upload failing_uploader_world 5).2)))
      as (_ & Hx & _); [by vm_compute| |exact Hx].
    exists "uploader", 106%Z, 1%Z. split; [reflexivity|discriminate].
Defined.

Lemma kill_precursor_procs_skips_none_witness :
  ∃ s', kill_precursor_procs calm_world {[ "mysqldump" := None ]} (start ∅)
        = (Ok tt, s') ∧ trace s' = [].
Proof.
  destruct (kill_precursor_procs_skips_none
              calm_world {[ "mysqldump" := None ]} (start ∅))
    as (s' & ts & Hrun & _ & _ & Hquiet).
  exists s'. split; [exact Hrun|]. apply Hquiet.
  intros name v Hl. apply lookup_singleton_Some in Hl as [_ <-]. reflexivity.
Defined.

End OrchestratorProofs.

(** ** The relay: faults, and passes that find data *)

Module RelayFaults.
Import Relay RelayProofs.

Section Facts.
Variable w : world.
Variable path : string.

Lemma main_body_data s :
  stdin_data w (iter s) ≠ "" → stdout_closed w (iter s) = false →
  main_body w path s =
    (Ok tt, log (Write (stdin_data w (iter s)) true)
              (log (Read BLOCK (stdin_data w (iter s))) s)).
Proof.
  intros Hd Hc.
  unfold main_body, bind, stdin_read, stdout_write. cbn.
  destruct (Nat.eqb (String.length (stdin_data w (iter s))) 0) eqn:El.
  { by apply string_length_zero in El. }
  cbn. by rewrite Hc.
Qed.

Lemma main_forwarding fuel k :
  (∀ i, (k ≤ i < k + fuel)%nat →
        stdin_data w i ≠ "" ∧ stdout_closed w i = false) →
  main w path fuel {| iter := k; trace := forwarding w k |} =
    (Running, {| iter := k + fuel; trace := forwarding w (k + fuel) |}).
Proof.
  revert k. induction fuel as [|fuel IH]; intros k Hq.
  { by rewrite Nat.add_0_r. }
  rewrite main_unfold.
  destruct (Hq k) as [Hd Hc]; [lia|].
  rewrite main_body_data by done. cbn.
  replace (k + S fuel)%nat with (S k + fuel)%nat by lia.
  rewrite <- (IH (S k)); [|intros i Hi; apply Hq; lia].
  unfold next_iter, log. cbn. by rewrite <- app_assoc.
Qed.



Lemma main_body_unreadable s :
  stdin_data w (iter s) = "" → stdout_closed w (iter s) = false →
  is_Some (seen_by_exists w (iter s) !! path) →
  (∀ c, seen_by_open w (iter s) !! path ≠ Some (File c)) →
  ∃ s', main_body w path s = (Raise (IOError "open"), s') ∧
        trace s' = trace s ++
          [Read BLOCK ""; Sleep (QArith_base.Qmake 25 100); Write "" true;
           Exists path true;
           OpenRead path (String.length TERM_STRING) None].
Proof.
  intros Hd Hc Hex Hno.
  unfold main_body, check_term_file, bind, ret, raise, sys_exit,
    stdin_read, sleep, stdout_write, os_path_exists, open_read.
  rewrite Hd. cbn. rewrite Hc. cbn.
  rewrite bool_decide_true by done. cbn.
  destruct (seen_by_open w (iter s) !! path) as [[|c]|] eqn:E; cbn.
  - eexists. split; [done|]. cbn. by rewrite <- !app_assoc.
  - by destruct (Hno c).
  - eexists. split; [done|]. cbn. by rewrite <- !app_assoc.
Qed.

End Facts.

(** X1: while every read finds data and the reader is there, the relay
    does nothing but read a chunk and write it: after [fuel] passes it is
    still running and its calls are exactly [fuel] reads, each followed
    by the write of what was read.  It neither sleeps nor looks at the
    termination file, whatever that file holds. *)
Theorem data_passes_only_forward (w : world) (path : string) (fuel : nat) :
  (∀ i, (i < fuel)%nat → stdin_data w i ≠ "" ∧ stdout_closed w i = false) →
  main w path fuel start =
    (Running, {| iter := fuel; trace := forwarding w fuel |}).
Proof.
  intros Hq.
  apply (main_forwarding w path fuel 0). intros i Hi. apply Hq. lia.
Qed.

Lemma data_passes_only_forward_witness :
  (main busy_world "tok" 3 start).1 = Running ∧
  trace (main busy_world "tok" 3 start).2 =
    [Read BLOCK "x"; Write "x" true; Read BLOCK "x"; Write "x" true;
     Read BLOCK "x"; Write "x" true].
Proof.
  rewrite (data_passes_only_forward busy_world "tok" 3).
  - split; reflexivity.
  - intros i _. split; [discriminate|reflexivity].
Defined.



(** X3: when the termination file is there for [os.path.exists] but
    cannot be opened as a file any more (it was removed in between, or
    is a directory), [check_term_file] raises [IOError]; [main] does not
    catch it, and the relay ends with exit status 1 and not with 0. *)
Theorem unreadable_token_ends_relay (w : world) (path : string)
    (s : state) :
  stdin_data w (iter s) = "" → stdout_closed w (iter s) = false →
  is_Some (seen_by_exists w (iter s) !! path) →
  (∀ c, seen_by_open w (iter s) !! path ≠ Some (File c)) →
  (check_term_file w path s).1 = Raise (IOError "open") ∧
  trace (main_body w path s).2 =
    trace s ++
    [Read BLOCK ""; Sleep (QArith_base.Qmake 25 100); Write "" true;
     Exists path true; OpenRead path (String.length TERM_STRING) None] ∧
  ∀ fuel, (main w path (S fuel) s).1 = Raise (IOError "open") ∧
          exit_status (main w path (S fuel) s).1 = Some 1%Z.
Proof.
  intros Hd Hc Hex Hno.
  destruct (main_body_unreadable w path s Hd Hc Hex Hno) as (s' & Hb & Ht).
  split_and!.
  - unfold check_term_file, bind, open_read.
    destruct (seen_by_open w (iter s) !! path) as [[|c]|] eqn:E; cbn;
      [done| |done].
    by destruct (Hno c).
  - by rewrite Hb.
  - intros fuel. rewrite main_unfold, Hb. done.
Qed.

Lemma unreadable_token_ends_relay_witness :
  exit_status (main vanishing_token_world "tok" 1 start).1 = Some 1%Z.
Proof.
  apply (unreadable_token_ends_relay vanishing_token_world "tok" start).
  - reflexivity.
  - reflexivity.
  - by eexists.
  - intros c. discriminate.
Defined.

End RelayFaults.

(** ** The trace records the answers of the environment *)

Module Records.
Import Orchestrator OrchestratorProofs.

Lemma recorded_start w files : recorded w (start files).
Proof. split; [done|]. intros i e Hl. done. Qed.

Lemma recorded_same w s s' :
  now s' = now s → trace s' = trace s → recorded w s → recorded w s'.
Proof. intros Hn Ht [H1 H2]. split; [congruence|]. by rewrite Ht. Qed.

Lemma recorded_emit w s e :
  recorded w s → answers w (now s) e → recorded w (emit e s).
Proof.
  intros [Hn Hall] He. split.
  - cbn. rewrite length_app. cbn. lia.
  - intros i e' Hl. cbn in Hl.
    apply lookup_app_Some in Hl as [Hl|[Hge Hl]]; [by apply Hall|].
    apply list_lookup_singleton_Some in Hl as [Hi <-].
    replace i with (now s) by lia. done.
Qed.

Section Facts.
Variable w : world.

Lemma keeps_ret {A} (a : A) : keeps w (ret a).
Proof. by intros s r s' [= <- <-]. Qed.
Lemma keeps_raise {A} e : keeps w (raise e : M state A).
Proof. by intros s r s' [= <- <-]. Qed.
Lemma keeps_bind {A B} (m : M state A) (k : A → M state B) :
  keeps w m → (∀ a, keeps w (k a)) → keeps w (x <- m;; k x).
Proof.
  intros Hm Hk s r s' Hrun Hrec. unfold bind in Hrun.
  destruct (m s) as [[a|e|] s1] eqn:H1.
  - eapply Hk; [done|]. by eapply Hm.
  - injection Hrun as <- <-. by eapply Hm.
  - injection Hrun as <- <-. by eapply Hm.
Qed.
Lemma keeps_if {A} (b : bool) (m1 m2 : M state A) :
  keeps w m1 → keeps w m2 → keeps w (if b then m1 else m2).
Proof. by destruct b. Qed.

Lemma keeps_try_except {A} (body handler : M state A) :
  keeps w body → keeps w handler → keeps w (try_except body handler).
Proof.
  intros Hb Hh s r s' Hrun Hrec. unfold try_except in Hrun.
  destruct (body s) as [[a|e|] s1] eqn:H1.
  - injection Hrun as <- <-. by eapply Hb.
  - eapply Hh; [done|]. eapply recorded_same; [| |by eapply Hb]; done.
  - injection Hrun as <- <-. by eapply Hb.
Qed.
Lemma keeps_try_finally {A} (body : M state A) (cleanup : M state unit) :
  keeps w body → keeps w cleanup → keeps w (try_finally body cleanup).
Proof.
  intros Hb Hc s r s' Hrun Hrec. unfold try_finally in Hrun.
  destruct (body s) as [r1 s1] eqn:H1.
  assert (recorded w s1) as Hrec1 by (by eapply Hb).
  destruct r1 as [a|e|]; [| |by injection Hrun as <- <-];
    destruct (cleanup s1) as [[[]|e'|] s2] eqn:H2;
    injection Hrun as <- <-; by eapply Hc.
Qed.
Lemma keeps_in_frame {A} (m : M state A) : keeps w m → keeps w (in_frame m).
Proof.
  intros Hm s r s' Hrun Hrec. unfold in_frame in Hrun.
  destruct (m s) as [r1 s1] eqn:H1. injection Hrun as <- <-.
  eapply recorded_same; [| |by eapply Hm]; done.
Qed.
Lemma keeps_while fuel cond body :
  keeps w cond → keeps w body → keeps w (while fuel cond body).
Proof.
  intros Hc Hb. induction fuel as [|fuel IH].
  { by intros s r s' [= <- <-]. }
  cbn [while]. apply keeps_bind; [done|]. intros [|]; [|apply keeps_ret].
  by apply keeps_bind.
Qed.
Lemma keeps_for_each {A} (l : list A) body :
  (∀ x, keeps w (body x)) → keeps w (for_each l body).
Proof.
  intros Hb. induction l as [|x l IH]; [apply keeps_ret|].
  cbn [for_each]. by apply keeps_bind.
Qed.
Lemma keeps_getitem {V} (d : gmap string V) key : keeps w (getitem d key).
Proof.
  unfold getitem. destruct (d !! key); [apply keeps_ret|apply keeps_raise].
Qed.

(** The calls into the environment *)
Ltac call_keeps :=
  let Hrun := fresh in let Hrec := fresh in
  intros ? ? ? Hrun Hrec; cbv beta delta [seen] in Hrun;
  repeat case_match; simplify_eq/=;
  (apply recorded_emit;
   [try (eapply recorded_same; [| |exact Hrec]; done); done
   |cbn; try done; by repeat match goal with H : _ = _ |- _ => rewrite H end]).

Lemma keeps_open_devnull : keeps w (open_devnull w).
Proof. unfold open_devnull. call_keeps. Qed.
Lemma keeps_os_path_exists path : keeps w (os_path_exists w path).
Proof. unfold os_path_exists. call_keeps. Qed.
Lemma keeps_os_mkdir path : keeps w (os_mkdir w path).
Proof. unfold os_mkdir. call_keeps. Qed.
Lemma keeps_tempfile_mkstemp dir : keeps w (tempfile_mkstemp w dir).
Proof. unfold tempfile_mkstemp. call_keeps. Qed.
Lemma keeps_os_close fd : keeps w (os_close fd).
Proof. unfold os_close. call_keeps. Qed.
Lemma keeps_write_file path data : keeps w (write_file w path data).
Proof. unfold write_file. call_keeps. Qed.
Lemma keeps_os_remove path : keeps w (os_remove w path).
Proof. unfold os_remove. call_keeps. Qed.
Lemma keeps_Popen_new argv sin pipe serr :
  keeps w (Popen_new w argv sin pipe serr).
Proof. unfold Popen_new. call_keeps. Qed.
Lemma keeps_Popen_poll g name proc : keeps w (Popen_poll w g name proc).
Proof. unfold Popen_poll. call_keeps. Qed.
Lemma keeps_Popen_kill proc : keeps w (Popen_kill w proc).
Proof. unfold Popen_kill. call_keeps. Qed.
Lemma keeps_psutil_pid_exists p : keeps w (psutil_pid_exists w p).
Proof. unfold psutil_pid_exists. call_keeps. Qed.
Lemma keeps_time_sleep secs : keeps w (time_sleep secs).
Proof. unfold time_sleep. call_keeps. Qed.
Lemma keeps_call {A} (f : callback A) arg : keeps w (call f arg).
Proof. unfold call. call_keeps. Qed.

Lemma keeps_local {A} (m : M state A) :
  (∀ s, now (m s).2 = now s ∧ trace (m s).2 = trace s) → keeps w m.
Proof.
  intros Hm s r s' Hrun Hrec. destruct (Hm s) as [Hn Ht].
  rewrite Hrun in Hn, Ht. by eapply recorded_same.
Qed.

End Facts.

Create HintDb keeps.
#[export] Hint Resolve keeps_ret keeps_raise keeps_getitem keeps_open_devnull
  keeps_os_path_exists keeps_os_mkdir keeps_tempfile_mkstemp keeps_os_close
  keeps_write_file keeps_os_remove keeps_Popen_new keeps_Popen_poll
  keeps_Popen_kill keeps_psutil_pid_exists keeps_time_sleep keeps_call
  : keeps.

Ltac keeps_step :=
  first
    [ apply keeps_bind; [|intros ?]
    | apply keeps_if
    | apply keeps_try_except
    | apply keeps_try_finally
    | apply keeps_in_frame
    | apply keeps_while
    | apply keeps_for_each; intros ?
    | solve [auto with keeps]
    | apply keeps_local; intros ?; cbn; split; reflexivity ].

Section Facts.
Variable w : world.

Lemma keeps_poll_all g l acc : keeps w (poll_all w g l acc).
Proof.
  revert acc. induction l as [|[name proc] l IH]; intros acc;
    [apply keeps_ret|].
  cbn [poll_all]. apply keeps_bind; [apply keeps_Popen_poll|].
  intros [c|]; [|apply IH]. destruct (Z.eqb c 0); [apply IH|apply keeps_raise].
Qed.

Lemma keeps_check_dict_of_procs g procs :
  keeps w (check_dict_of_procs w g procs).
Proof. apply keeps_poll_all. Qed.

Lemma keeps_get_term_file : keeps w (get_term_file w).
Proof. unfold get_term_file, get_term_dir. cbv zeta. repeat keeps_step. Qed.

Lemma keeps_load_term_path : keeps w load_term_path.
Proof.
  apply keeps_local. intros s. unfold load_term_path.
  by destruct (term_path s).
Qed.

Lemma keeps_spawn_upload_procs stdin bucket key devnull :
  keeps w (spawn_upload_procs w stdin bucket key devnull).
Proof.
  unfold spawn_upload_procs.
  repeat first [apply keeps_get_term_file|apply keeps_load_term_path
               |keeps_step].
Qed.

Lemma keeps_try_block {A} fuel procs stdin bucket key
    (cf : option (callback A)) ca devnull :
  keeps w (try_block w fuel procs stdin bucket key cf ca devnull).
Proof.
  unfold try_block, wait_precursors, wait_upload, run_check, signal.
  repeat first [apply keeps_spawn_upload_procs|apply keeps_load_term_path
               |apply keeps_check_dict_of_procs
               |match goal with |- keeps _ (match ?x with _ => _ end) =>
                  destruct x end
               |keeps_step].
Qed.

Lemma keeps_kill_upload_proc name : keeps w (kill_upload_proc w name).
Proof. unfold kill_upload_proc. repeat keeps_step. Qed.

Lemma keeps_reraise {A} : keeps w (reraise : M state A).
Proof.
  apply keeps_local. intros s. unfold reraise. by destruct (exc_info s).
Qed.

Lemma keeps_safe_upload {A} fuel procs stdin bucket key
    (cf : option (callback A)) ca :
  keeps w (safe_upload w fuel procs stdin bucket key cf ca).
Proof.
  unfold safe_upload, guarded, attempt, except_block, finally_block.
  repeat first [apply keeps_try_block|apply keeps_kill_upload_proc
               |apply keeps_reraise|apply keeps_load_term_path|keeps_step].
Qed.

Lemma keeps_kill_precursor_procs procs :
  keeps w (kill_precursor_procs w procs).
Proof.
  unfold kill_precursor_procs, kill_precursor_proc.
  repeat first [match goal with |- keeps _ (match ?x with _ => _ end) =>
                  destruct x end
               |keeps_step].
Qed.

(** What a call of [safe_upload] has in its trace is what the
    environment answered. *)
Lemma safe_upload_recorded {A} fuel procs stdin bucket key
    (cf : option (callback A)) ca files :
  recorded w (safe_upload w fuel procs stdin bucket key cf ca (start files)).2.
Proof.
  destruct (safe_upload w fuel procs stdin bucket key cf ca (start files))
    as [r s] eqn:Hrun.
  eapply keeps_safe_upload; [done|]. apply recorded_start.
Qed.

Lemma recorded_elem s e :
  recorded w s → e ∈ trace s → ∃ t, answers w t e.
Proof.
  intros [_ Hall] Hin. apply list_elem_of_lookup in Hin as [i Hi].
  exists i. by apply Hall.
Qed.

End Facts.

End Records.

(** ** Whole runs of [safe_upload] *)

Module Runs.
Import Orchestrator OrchestratorProofs Records.

Lemma spawn_calls_app t1 t2 :
  spawn_calls (t1 ++ t2) = spawn_calls t1 ++ spawn_calls t2.
Proof. apply omap_app. Qed.
Lemma spawn_calls_off t :
  Forall (λ e, stage_of e ≠ Setup) t → spawn_calls t = [].
Proof. apply omap_off_stage. by intros []. Qed.

Section Facts.
Variable w : world.

Lemma get_term_file_calls s r s' :
  get_term_file w s = (r, s') →
  same_frame s s' ∧ r ≠ Running ∧
  ∃ t, trace s' = trace s ++ t ∧
       Forall (λ e, stage_of e = Setup) t ∧ spawn_calls t = [] ∧
       created_tokens t = match r with Ok p => [p] | _ => [] end.
Proof.
  unfold get_term_file, get_term_dir. cbv zeta.
  generalize (path_join (RAID_MOUNT w) TERM_DIR) as term_dir.
  intros term_dir.
  unfold bind, ret, os_path_exists, os_mkdir, tempfile_mkstemp, os_close.
  intros Hrun. cbn in Hrun.
  repeat case_match; simplify_eq/=;
    (split_and!; [done..|]); eexists;
    (split; [by rewrite <- ?app_assoc|]);
    (split_and!; [by repeat constructor|done..]).
Qed.

Lemma spawn_upload_procs_shape stdin bucket key devnull s r s' :
  spawn_upload_procs w stdin bucket key devnull s = (r, s') → fresh s →
  exc_info s' = exc_info s ∧
  ∃ tg, Forall (λ e, stage_of e = Setup) tg ∧ spawn_calls tg = [] ∧
    ((∃ e, r = Raise e ∧ created_tokens tg = [] ∧
           trace s' = trace s ++ tg ∧
           upload_procs s' = ∅ ∧ term_path s' = None) ∨
     (∃ path tsp,
        created_tokens tg = [path] ∧ term_path s' = Some path ∧
        trace s' = trace s ++ tg ++ tsp ∧
        spawning w stdin bucket key devnull path r tsp (upload_procs s'))).
Proof.
  intros Hrun [Hu Hp]. unfold spawn_upload_procs in Hrun.
  unfold bind at 1 in Hrun.
  destruct (get_term_file w s) as [r0 s0] eqn:H0.
  apply get_term_file_calls in H0
    as ([[Hu0 Hp0] He0] & Hnr & tg & Ht0 & Hst0 & Hsp0 & Hcr0).
  rewrite Hu in Hu0. rewrite Hp in Hp0.
  destruct r0 as [path|e|]; [| |done].
  - unfold bind, store_term_path, load_term_path, Popen_new,
      store_upload_proc, load_upload_procs, getitem, ret, raise in Hrun.
    cbn in Hrun.
    destruct (spawn_pid w (now s0)) as [p1|] eqn:Hs1; cbn in Hrun.
    + rewrite lookup_insert_eq in Hrun. cbn in Hrun.
      destruct (spawn_pid w (S (now s0))) as [p2|] eqn:Hs2;
        injection Hrun as <- <-; cbn; rewrite ?Hu0;
        (split; [done|]); exists tg; (split_and!; [done..|]); right;
        eexists path, _;
        (split_and!; [done|done|by rewrite Ht0, <- ?app_assoc|]);
        constructor.
    + injection Hrun as <- <-; cbn; rewrite ?Hu0.
      split; [done|]. exists tg. split_and!; [done..|]. right.
      eexists path, _.
      split_and!; [done|done|by rewrite Ht0, <- ?app_assoc|]. constructor.
  - injection Hrun as <- <-.
    split; [done|]. exists tg. split_and!; [done..|]. left.
    exists e. done.
Qed.

(** The [try:] block after the spawning. *)
Lemma after_spawning_spec {A} fuel procs (cf : option (callback A)) ca
    s0 r s' path :
  (wait_precursors w fuel procs;;
   run_check cf ca;;
   signal w;;
   wait_upload w fuel) s0 = (r, s') →
  term_path s0 = Some path →
  same_frame s0 s' ∧
  ∃ t, trace s' = trace s0 ++ t ∧ tried procs (upload_procs s0) cf path r t.
Proof.
  intros Hrun Hpath.
  unfold bind at 1 in Hrun.
  destruct (wait_precursors w fuel procs s0) as [r1 s1] eqn:H1.
  apply wait_precursors_spec in H1 as (Hf1 & t1 & Ht1 & Hw1).
  destruct r1 as [[]|e|].
  - unfold bind at 1 in Hrun.
    destruct (run_check cf ca s1) as [r2 s2] eqn:H2.
    apply run_check_spec in H2 as (Hf2 & H2).
    destruct H2 as [[-> Ht2]|(e & -> & Ht2)]; cycle 1.
    { injection Hrun as <- <-.
      split; [by eapply same_frame_trans|].
      exists (t1 ++ [Validate (Some e)]).
      split; [by rewrite Ht2, Ht1, <- app_assoc|]. by constructor. }
    unfold bind at 1 in Hrun.
    destruct (signal w s2) as [r3 s3] eqn:H3.
    assert (term_path s2 = Some path) as Hp2.
    { destruct Hf2 as [[_ ->] _]. destruct Hf1 as [[_ ->] _]. done. }
    apply (signal_spec _ _ _ _ path) in H3 as (Hf3 & H3); [|done].
    assert (same_frame s0 s3) as Hf03.
    { eapply same_frame_trans; [done|]. by eapply same_frame_trans. }
    destruct H3 as [[-> Ht3]|[-> Ht3]]; cycle 1.
    { injection Hrun as <- <-. split; [done|].
      exists (t1 ++ check_passed cf ++ [WriteFile path TERM_STRING false]).
      split; [by rewrite Ht3, Ht2, Ht1, <- !app_assoc|]. by constructor. }
    apply wait_upload_spec in Hrun as (Hf4 & t4 & Ht4 & Hw4).
    split; [by eapply same_frame_trans|].
    exists (t1 ++ check_passed cf ++ WriteFile path TERM_STRING true :: t4).
    split; [by rewrite Ht4, Ht3, Ht2, Ht1, <- !app_assoc|].
    constructor; [done|].
    destruct Hf03 as [[Hu3 _] _]. by rewrite Hu3 in Hw4.
  - injection Hrun as <- <-. split; [done|]. exists t1.
    split; [done|]. by constructor.
  - injection Hrun as <- <-. split; [done|]. exists t1.
    split; [done|]. by constructor.
Qed.

Lemma try_block_shape {A} fuel procs stdin bucket key
    (cf : option (callback A)) ca devnull s r s' :
  try_block w fuel procs stdin bucket key cf ca devnull s = (r, s') →
  fresh s →
  ∃ tg, Forall (λ e, stage_of e = Setup) tg ∧ spawn_calls tg = [] ∧
    ((∃ e, r = Raise e ∧ created_tokens tg = [] ∧
           trace s' = trace s ++ tg ∧
           upload_procs s' = ∅ ∧ term_path s' = None) ∨
     (∃ path tsp r0 t,
        created_tokens tg = [path] ∧ term_path s' = Some path ∧
        trace s' = trace s ++ tg ++ tsp ++ t ∧
        spawning w stdin bucket key devnull path r0 tsp (upload_procs s') ∧
        match r0 with
        | Ok _ => tried procs (upload_procs s') cf path r t
        | _ => r = r0 ∧ t = []
        end)).
Proof.
  intros Hrun Hfresh. unfold try_block in Hrun.
  unfold bind at 1 in Hrun.
  destruct (spawn_upload_procs w stdin bucket key devnull s) as [r0 s0] eqn:H0.
  apply spawn_upload_procs_shape in H0 as (_ & tg & Hst & Hsc & Hcases);
    [|done].
  exists tg. split_and!; [done..|].
  destruct Hcases as [(e & -> & Hcr & Ht & Hu & Hp)
                     |(path & tsp & Hcr & Hp & Ht & Hsp)].
  { injection Hrun as <- <-. left. by exists e. }
  right. destruct r0 as [[]|e|].
  - apply (after_spawning_spec _ _ _ _ _ _ _ path) in Hrun
      as ([[Hu1 Hp1] _] & t & Ht1 & Htried); [|done].
    exists path, tsp, (Ok tt), t. rewrite Hu1, Hp1.
    split_and!; [done..| |done|done].
    by rewrite Ht1, Ht, <- !app_assoc.
  - injection Hrun as <- <-. exists path, tsp, (Raise e), [].
    rewrite app_nil_r. done.
  - inversion Hsp.
Qed.

End Facts.

Section Run.
Context {A : Type}.
Variables (w : world) (fuel : nat) (procs : gmap string Popen)
  (stdin : stream) (bucket key : string)
  (cf : option (callback A)) (ca : A) (files : gmap string node).

(** A whole call, once [os.devnull] is open: the token, the spawning,
    the rest of the [try:] block, the kill attempts and the removal. *)
Lemma run_shape r s :
  safe_upload w fuel procs stdin bucket key cf ca (start files) = (r, s) →
  io_fails w 0 = false →
  ∃ r1 s1 tg,
    try_block w fuel procs stdin bucket key cf ca DevNull
      (emit (OpenDevnull true) (start files)) = (r1, s1) ∧
    upload_procs s = upload_procs s1 ∧ term_path s = term_path s1 ∧
    Forall (λ e, stage_of e = Setup) tg ∧ spawn_calls tg = [] ∧
    ((∃ e, r1 = Raise e ∧ created_tokens tg = [] ∧
           trace s1 = OpenDevnull true :: tg ∧
           upload_procs s1 = ∅ ∧ term_path s1 = None) ∨
     (∃ path tsp r0 t,
        created_tokens tg = [path] ∧ term_path s1 = Some path ∧
        trace s1 = OpenDevnull true :: tg ++ tsp ++ t ∧
        spawning w stdin bucket key DevNull path r0 tsp (upload_procs s1) ∧
        match r0 with
        | Ok _ => tried procs (upload_procs s1) cf path r1 t
        | _ => r1 = r0 ∧ t = []
        end)) ∧
    ((r1 = Running ∧ r = Running ∧ trace s = trace s1) ∨
     (∃ tu tr tf r2,
        r1 ≠ Running ∧ r ≠ Running ∧
        trace s = trace s1 ++ tu ++ tr ++ tf ∧
        torn (upload_procs s1) r1 r2 tu tr ∧
        swept (term_path s1) r2 r tf ∧
        (∀ path, tf = [Remove path true] → fs s !! path = None))).
Proof.
  intros Hrun Hio.
  apply safe_upload_anatomy in Hrun
    as (r1 & s1 & _ & _ & H1 & Hu & Hp & _ & _ & _ & _ & _ & Hend); [|done].
  exists r1, s1.
  pose proof H1 as H1'.
  apply try_block_shape in H1' as (tg & Hst & Hsc & Hcases); [|done].
  exists tg. split_and!; [done..| |].
  - destruct Hcases as [(e & -> & ? & ? & ? & ?)
                       |(path & tsp & r0 & t & ? & ? & ? & ? & ?)].
    + left. by exists e.
    + right. by exists path, tsp, r0, t.
  - destruct Hend as [?|(tu & tr & tf & r2 & ? & ? & ? & ? & _ & ? & ?)];
      [by left|].
    right. by exists tu, tr, tf, r2.
Qed.

End Run.

End Runs.

(** ** What a call of [safe_upload] has done when it ends *)

Module Outcomes.
Import Orchestrator OrchestratorProofs Records Runs.

Lemma watch2_done_inv ups t :
  watch2 ups (Ok tt) t → ∃ t', t = t' ++ success_round Upload ups.
Proof.
  remember (Ok tt) as r eqn:Hr.
  induction 1 as [| | |tu r t Htu _ IH]; try done.
  - by exists [].
  - destruct (IH Hr) as [t' ->].
    exists (tu ++ Sleep SLEEP_TIME :: t'). by rewrite <- !app_assoc.
Qed.

Lemma validations_app t1 t2 :
  validations (t1 ++ t2) = validations t1 ++ validations t2.
Proof. apply omap_app. Qed.

Lemma success_round_elem g procs name proc :
  procs !! name = Some proc →
  Poll g name (pid proc) (Some 0%Z) ∈ success_round g procs.
Proof.
  intros Hl. unfold success_round.
  apply (list_elem_of_fmap_2 (λ np, Poll g np.1 (pid np.2) (Some 0%Z))
           _ (name, proc)).
  by apply elem_of_map_to_list.
Qed.

Lemma spawning_readings w stdin bucket key devnull path r tsp ups :
  spawning w stdin bucket key devnull path r tsp ups →
  Forall (λ e, stage_of e = Setup) tsp ∧ created_tokens tsp = [] ∧
  spawned tsp = omap (λ n, pid <$> ups !! n) ["repeater"; "uploader"].
Proof. destruct 1; split_and!; by repeat constructor. Qed.

Section Run.
Context {A : Type}.
Variables (w : world) (fuel : nat) (procs : gmap string Popen)
  (stdin : stream) (bucket key : string)
  (cf : option (callback A)) (ca : A) (files : gmap string node).

(** The one shape of the trace of a call that returns. *)
Lemma run_ok s :
  safe_upload w fuel procs stdin bucket key cf ca (start files) = (Ok tt, s) →
  ∃ path p1 p2 tg t1 t2,
    upload_procs s =
      <["uploader" := uploader_handle p2]> {[ "repeater" := relay_handle p1 ]} ∧
    Forall (λ e, stage_of e = Setup) tg ∧ created_tokens tg = [path] ∧
    spawn_calls tg = [] ∧
    Forall (λ e, stage_of e = Watch) t1 ∧ Forall (λ e, stage_of e = Watch) t2 ∧
    trace s =
      OpenDevnull true :: tg ++
      [relay_call w stdin path (Some p1);
       uploader_call w bucket key p1 DevNull (Some p2)] ++
      (t1 ++ success_round Precursor procs) ++ check_passed cf ++
      WriteFile path TERM_STRING true ::
      (t2 ++ success_round Upload (upload_procs s)) ++
      [Remove path true] ∧
    fs s !! path = None.
Proof.
  intros Hrun.
  destruct (io_fails w 0) eqn:Hio.
  { by rewrite safe_upload_no_devnull in Hrun. }
  apply run_shape in Hrun
    as (r1 & s1 & tg & _ & Hu & Hp & Hst & Hsc & Hcases & Hend); [|done].
  destruct Hend as [(_ & ? & _)|(tu & tr & tf & r2 & _ & _ & Ht & Htorn & Hsw & Hgone)];
    [done|].
  assert (r2 = Ok tt ∧ ∃ path, term_path s1 = Some path ∧
            tf = [Remove path true]) as (-> & path & Hpath & ->).
  { inversion Hsw; subst; eauto. }
  assert (r1 = Ok tt ∧ tu = [] ∧ tr = []) as (-> & -> & ->).
  { destruct r1 as [[]|e|]; cbn in Htorn; [by destruct Htorn as (_&->&->)| |done].
    by destruct Htorn as (_ & _ & [e' ?] & _). }
  destruct Hcases as [(e & ? & _)|(path' & tsp & r0 & t & Hcr & Hp1 & Ht1 & Hsp & Hr0)];
    [done|].
  rewrite Hp1 in Hpath. injection Hpath as ->.
  destruct r0 as [[]|e|]; cbn in Hr0; [|by destruct Hr0 as [[=] _]..].
  inversion Hsp as [| |p1 p2 Hr Htsp Hups]. subst tsp.
  inversion Hr0 as [? ? Hw Hnot| | |t1 ? t2 Hw1 Hw2]; [done|]. subst.
  pose proof (watch1_stage _ _ _ _ Hw1) as Hs1.
  pose proof (watch2_stage _ _ _ Hw2) as Hs2.
  apply watch1_done_inv in Hw1 as [t1' ->].
  apply watch2_done_inv in Hw2 as [t2' ->].
  apply Forall_app in Hs1 as [Hs1 _]. apply Forall_app in Hs2 as [Hs2 _].
  exists path, p1, p2, tg, t1', t2'.
  split_and!; [by rewrite Hu|done..| |by apply (Hgone path)].
  rewrite Ht, Ht1, Hu. cbn [app].
  by repeat (rewrite <- !app_assoc; cbn [app]).
Qed.

End Run.

(** X4: a call of [safe_upload] that returns normally has written the
    magic string to its token, once and with success, then found relay
    and uploader both exited with status 0 in its last round of polls,
    and then removed the token, which no longer exists; it has sent no
    kill.  The environment did report status 0 for every producer and
    for both processes of the upload side. *)
Theorem returns_only_after_commit {A} (w : world) (fuel : nat)
    (procs : gmap string Popen) (stdin : stream) (bucket key : string)
    (cf : option (callback A)) (ca : A) (files : gmap string node) :
  let r := (safe_upload w fuel procs stdin bucket key cf ca (start files)).1 in
  let s := (safe_upload w fuel procs stdin bucket key cf ca (start files)).2 in
  r = Ok tt →
  ∃ path p1 p2 pre,
    upload_procs s =
      <["uploader" := uploader_handle p2]> {[ "repeater" := relay_handle p1 ]} ∧
    trace s = pre ++ success_round Upload (upload_procs s) ++
              [Remove path true] ∧
    created_tokens (trace s) = [path] ∧ spawned (trace s) = [p1; p2] ∧
    signals (trace s) = [(path, TERM_STRING, true)] ∧
    validations (trace s) = validations (check_passed cf) ∧
    kills (trace s) = [] ∧ removals (trace s) = [(path, true)] ∧
    fs s !! path = None ∧
    (∀ name proc, procs !! name = Some proc →
                  ∃ t, poll_ret w t (pid proc) = Some 0%Z) ∧
    (∃ t, poll_ret w t p1 = Some 0%Z) ∧ (∃ t, poll_ret w t p2 = Some 0%Z).
Proof.
  cbv zeta.
  pose proof (safe_upload_recorded w fuel procs stdin bucket key cf ca files)
    as Hrec.
  destruct (safe_upload w fuel procs stdin bucket key cf ca (start files))
    as [r s] eqn:Hrun. cbn [fst snd] in *. intros ->.
  apply run_ok in Hrun
    as (path & p1 & p2 & tg & t1 & t2 & Hups & Hst & Hcr & Hsc & Hs1 & Hs2
        & Ht & Hgone).
  assert (∀ e, e ∈ trace s → ∃ t, answers w t e) as Hans
    by (intros e; by apply recorded_elem).
  assert (∀ g pr name proc, pr !! name = Some proc →
            Poll g name (pid proc) (Some 0%Z) ∈ success_round g pr →
            Poll g name (pid proc) (Some 0%Z) ∈ trace s →
            ∃ t, poll_ret w t (pid proc) = Some 0%Z) as Hpoll.
  { intros g pr name proc _ _ Hin. destruct (Hans _ Hin) as [t Ht']. eauto. }
  pose proof (success_round_stage Precursor procs) as Hsp.
  pose proof (success_round_stage Upload (upload_procs s)) as Hsu.
  pose proof (check_passed_stage cf) as Hcp.
  exists path, p1, p2.
  exists (OpenDevnull true :: tg ++
          [relay_call w stdin path (Some p1);
           uploader_call w bucket key p1 DevNull (Some p2)] ++
          (t1 ++ success_round Precursor procs) ++ check_passed cf ++
          WriteFile path TERM_STRING true :: t2).
  split_and!.
  - done.
  - rewrite Ht. cbn [app]. by repeat (rewrite <- !app_assoc; cbn [app]).
  - rewrite Ht. cbn. rewrite !created_tokens_app, Hcr. cbn.
    rewrite !created_tokens_app. cbn. rewrite !created_tokens_app.
    rewrite (created_tokens_off t1), (created_tokens_off t2),
      (created_tokens_off (success_round _ _)),
      (created_tokens_off (check_passed cf)),
      (created_tokens_off (success_round Upload _));
      [done|by eapply stage_is..].
  - rewrite Ht. cbn. rewrite !spawned_app. cbn.
    rewrite !spawned_app. cbn. rewrite !spawned_app.
    rewrite (spawned_off t1), (spawned_off t2),
      (spawned_off (success_round _ _)),
      (spawned_off (check_passed cf)),
      (spawned_off (success_round Upload _));
      [|by eapply stage_is..].
    assert (spawned tg = []) as ->; [|done].
    clear -Hsc. induction tg as [|e tg IH]; [done|].
    destruct e; cbn in *; try done; by apply IH.
  - rewrite Ht. cbn. rewrite !signals_app. cbn.
    rewrite !signals_app. cbn. rewrite !signals_app.
    rewrite (signals_off tg), (signals_off t1), (signals_off t2),
      (signals_off (success_round _ _)),
      (signals_off (check_passed cf)),
      (signals_off (success_round Upload _));
      [done|by eapply stage_is..].
  - rewrite Ht. cbn. rewrite !validations_app. cbn.
    rewrite !validations_app. cbn. rewrite !validations_app.
    rewrite (validations_off tg), (validations_off t1), (validations_off t2),
      (validations_off (success_round Precursor _)),
      (validations_off (success_round Upload _));
      [cbn; by rewrite ?app_nil_r|by eapply stage_is..].
  - rewrite Ht. cbn. rewrite !kills_app. cbn.
    rewrite !kills_app. cbn. rewrite !kills_app.
    rewrite (kills_off tg), (kills_off t1), (kills_off t2),
      (kills_off (success_round _ _)),
      (kills_off (check_passed cf)),
      (kills_off (success_round Upload _));
      [done|by eapply stage_is..].
  - rewrite Ht. cbn. rewrite !removals_app. cbn.
    rewrite !removals_app. cbn. rewrite !removals_app.
    rewrite (removals_off tg), (removals_off t1), (removals_off t2),
      (removals_off (success_round _ _)),
      (removals_off (check_passed cf)),
      (removals_off (success_round Upload _));
      [done|by eapply stage_is..].
  - done.
  - intros name proc Hl.
    apply (Hpoll Precursor procs name proc Hl);
      [by apply success_round_elem|].
    rewrite Ht. rewrite !elem_of_cons, !elem_of_app, !elem_of_cons,
      !elem_of_app.
    pose proof (success_round_elem Precursor procs name proc Hl). tauto.
  - assert (upload_procs s !! "repeater" = Some (relay_handle p1)) as Hl.
    { rewrite Hups. by rewrite lookup_insert_ne, lookup_singleton_eq. }
    apply (Hpoll Upload (upload_procs s) "repeater" (relay_handle p1) Hl);
      [by apply success_round_elem|].
    rewrite Ht. rewrite !elem_of_cons, !elem_of_app, !elem_of_cons,
      !elem_of_app.
    pose proof (success_round_elem Upload _ _ _ Hl). tauto.
  - assert (upload_procs s !! "uploader" = Some (uploader_handle p2)) as Hl.
    { rewrite Hups. by rewrite lookup_insert_eq. }
    apply (Hpoll Upload (upload_procs s) "uploader" (uploader_handle p2) Hl);
      [by apply success_round_elem|].
    rewrite Ht. rewrite !elem_of_cons, !elem_of_app, !elem_of_cons,
      !elem_of_app.
    pose proof (success_round_elem Upload _ _ _ Hl). tauto.
Qed.

(** X5: as long as the environment never reports exit status 0 for one
    of the producers (it is still running, or it has failed),
    [safe_upload] does not write the magic string and does not return
    normally, however long it is watched. *)
Theorem unfinished_producer_blocks_commit {A} (w : world) (fuel : nat)
    (procs : gmap string Popen) (stdin : stream) (bucket key : string)
    (cf : option (callback A)) (ca : A) (files : gmap string node)
    (name : string) (proc : Popen) :
  procs !! name = Some proc →
  (∀ t, poll_ret w t (pid proc) ≠ Some 0%Z) →
  let r := (safe_upload w fuel procs stdin bucket key cf ca (start files)).1 in
  let s := (safe_upload w fuel procs stdin bucket key cf ca (start files)).2 in
  signals (trace s) = [] ∧ r ≠ Ok tt.
Proof.
  intros Hl Hnever. cbv zeta.
  pose proof (safe_upload_recorded w fuel procs stdin bucket key cf ca files)
    as Hrec.
  destruct (safe_upload w fuel procs stdin bucket key cf ca (start files))
    as [r s] eqn:Hrun. cbn [fst snd] in *.
  assert (Poll Precursor name (pid proc) (Some 0%Z) ∈ trace s → False) as Hno.
  { intros Hin. destruct (recorded_elem w s _ Hrec Hin) as [t Ht].
    cbn in Ht. by destruct (Hnever t). }
  pose proof (success_round_elem Precursor procs name proc Hl) as Hin.
  split.
  - pose proof Hrun as Hrun'.
    apply run_signal in Hrun' as [Hnone|(path & ok & t0 & t1 & t2 & t3 & r2
                                        & Ht & _)]; [done|].
    destruct Hno. rewrite Ht.
    rewrite !elem_of_app, !elem_of_cons, !elem_of_app. tauto.
  - intros ->.
    apply run_ok in Hrun as (path & p1 & p2 & tg & t1 & t2 & _ & _ & _ & _
                             & _ & _ & Ht & _).
    destruct Hno. rewrite Ht.
    rewrite !elem_of_cons, !elem_of_app, !elem_of_cons, !elem_of_app. tauto.
Qed.

Lemma unfinished_producer_blocks_commit_witness :
  signals (trace (upload failing_producer_world 5).2) = [] ∧
  (upload failing_producer_world 5).1 ≠ Ok tt.
Proof.
  apply (unfinished_producer_blocks_commit failing_producer_world 5
           one_producer (CallerStream 0) "bucket" "key"
           (None : option (callback unit)) tt ∅
           "mysqldump" {| pid := 7; stdout := Some (PipeOf 7) |}).
  - reflexivity.
  - intros t. discriminate.
Defined.

Lemma returns_only_after_commit_witness :
  (upload calm_world 5).1 = Ok tt ∧
  signals (trace (upload calm_world 5).2) = [(the_token, TERM_STRING, true)] ∧
  kills (trace (upload calm_world 5).2) = [] ∧
  fs (upload calm_world 5).2 !! the_token = None.
Proof.
  assert ((upload calm_world 5).1 = Ok tt) as Hok by (by vm_compute).
  split; [exact Hok|].
  destruct (returns_only_after_commit calm_world 5 one_producer
              (CallerStream 0) "bucket" "key"
              (None : option (callback unit)) tt ∅ Hok)
    as (path & p1 & p2 & pre & _ & _ & Hcr & _ & Hsig & _ & Hk & _ & Hfs & _).
  assert (path = the_token) as ->.
  { assert (created_tokens (trace (upload calm_world 5).2) = [the_token])
      as Hc by (by vm_compute).
    unfold upload in Hc. rewrite Hc in Hcr. by injection Hcr. }
  split_and!; [exact Hsig|exact Hk|exact Hfs].
Defined.

End Outcomes.

(** ** Setting up: the token, the relay and the uploader *)

Module Setup.
Import Orchestrator OrchestratorProofs Records Runs Outcomes.

Lemma created_tokens_spawning w stdin bucket key devnull path r tsp ups :
  spawning w stdin bucket key devnull path r tsp ups →
  created_tokens tsp = [] ∧ Forall (λ e, stage_of e = Setup) tsp.
Proof. destruct 1; split; by repeat constructor. Qed.

Lemma spawn_calls_spawning w stdin bucket key devnull path r tsp ups call :
  spawning w stdin bucket key devnull path r tsp ups →
  call ∈ spawn_calls tsp → call.2 = None → r = Raise (OSError "Popen").
Proof.
  destruct 1; cbn; rewrite ?elem_of_cons, ?elem_of_nil;
    intros Hin Hnone; try done.
  by destruct Hin as [->|[->|[]]].
Qed.

(** X6: the first call of [safe_upload] is the opening of [os.devnull];
    when that fails nothing else is done.  Otherwise the calls that make
    the token come first, then the relay is spawned with the path of
    this script and of the token as its arguments and with the caller's
    stream as its input, then the uploader, whose input is the pipe from
    the relay and whose error stream is [os.devnull]; the uploader is not
    spawned when the relay could not be, neither is spawned when the
    token could not be made, and nothing that follows is part of the
    setting up. *)
Theorem setup_is_token_relay_uploader {A} (w : world) (fuel : nat)
    (procs : gmap string Popen) (stdin : stream) (bucket key : string)
    (cf : option (callback A)) (ca : A) (files : gmap string node) :
  let r := (safe_upload w fuel procs stdin bucket key cf ca (start files)).1 in
  let s := (safe_upload w fuel procs stdin bucket key cf ca (start files)).2 in
  (io_fails w 0 = true →
   r = Raise (IOError "open") ∧ trace s = [OpenDevnull false]) ∧
  (io_fails w 0 = false →
   ∃ tg tsp rest,
     trace s = OpenDevnull true :: tg ++ tsp ++ rest ∧
     Forall (λ e, stage_of e = Setup) tg ∧ spawn_calls tg = [] ∧
     Forall (λ e, stage_of e ≠ Setup) rest ∧
     ((created_tokens (trace s) = [] ∧ tsp = [] ∧ upload_procs s = ∅) ∨
      (∃ path r0,
         created_tokens tg = [path] ∧ created_tokens (trace s) = [path] ∧
         spawning w stdin bucket key DevNull path r0 tsp (upload_procs s)))).
Proof.
  cbv zeta. split.
  { intros Hio. by rewrite safe_upload_no_devnull. }
  intros Hio.
  destruct (safe_upload w fuel procs stdin bucket key cf ca (start files))
    as [r s] eqn:Hrun. cbn [fst snd].
  apply run_shape in Hrun
    as (r1 & s1 & tg & _ & Hu & Hp & Hst & Hsc & Hcases & Hend); [|done].
  assert (∃ t3, trace s = trace s1 ++ t3 ∧
            Forall (λ e, stage_of e ≠ Setup) t3) as (t3 & Ht & Hst3).
  { destruct Hend as [(_ & _ & ->)|(tu & tr & tf & r2 & _ & _ & -> & Htorn & Hsw & _)].
    - exists []. by rewrite app_nil_r.
    - exists (tu ++ tr ++ tf). split; [done|].
      rewrite app_assoc. apply Forall_app. split.
      + eapply stage_is; [by eapply torn_stage|done].
      + eapply stage_is; [by eapply swept_stage|done]. }
  destruct Hcases as [(e & _ & Hcr & Ht1 & Hups & _)
                     |(path & tsp & r0 & t & Hcr & _ & Ht1 & Hsp & Hr0)].
  - exists tg, [], t3. rewrite Ht, Ht1, Hu. cbn [app].
    split_and!; [done..|]. left. split_and!; [|done..].
    change (created_tokens (tg ++ t3) = []).
    by rewrite created_tokens_app, Hcr, created_tokens_off.
  - assert (Forall (λ e, stage_of e ≠ Setup) t) as Hstt.
    { destruct r0 as [[]|?|]; [|by destruct Hr0 as [_ ->]..].
      eapply List.Forall_impl; [|by eapply tried_stage].
      intros e [-> | [-> | ->]]; done. }
    destruct (created_tokens_spawning _ _ _ _ _ _ _ _ _ Hsp) as [Hcsp Hstsp].
    exists tg, tsp, (t ++ t3). rewrite Ht, Ht1, Hu. cbn [app].
    split_and!; [by rewrite <- !app_assoc|done..|by apply Forall_app|].
    right. exists path, r0. split_and!; [done| |done].
    change (created_tokens ((tg ++ tsp ++ t) ++ t3) = [path]).
    rewrite !created_tokens_app, Hcr, Hcsp.
    by rewrite (created_tokens_off t), (created_tokens_off t3).
Qed.

Lemma setup_is_token_relay_uploader_witness :
  ∃ tg tsp rest,
    trace (upload calm_world 5).2 = OpenDevnull true :: tg ++ tsp ++ rest ∧
    spawn_calls tg = [] ∧ Forall (λ e, stage_of e ≠ Setup) rest.
Proof.
  destruct (proj2 (setup_is_token_relay_uploader calm_world 5 one_producer
                     (CallerStream 0) "bucket" "key"
                     (None : option (callback unit)) tt ∅))
    as (tg & tsp & rest & Ht & _ & Hsc & Hrest & _); [reflexivity|].
  exists tg, tsp, rest. split_and!; [exact Ht|exact Hsc|exact Hrest].
Defined.

(** X7: when one of the two [Popen] calls fails, [safe_upload] polls
    nothing, runs no check and writes nothing: right after the failed
    call it makes the kill attempt for the relay, if that was spawned,
    and then removes the token.  The caller receives the error of
    [Popen] when no kill raised and the removal succeeded, and the error
    of the removal when that failed. *)
Theorem failed_spawn_tears_down {A} (w : world) (fuel : nat)
    (procs : gmap string Popen) (stdin : stream) (bucket key : string)
    (cf : option (callback A)) (ca : A) (files : gmap string node)
    (call : list string * option stream * option stream * option Z) :
  let r := (safe_upload w fuel procs stdin bucket key cf ca (start files)).1 in
  let s := (safe_upload w fuel procs stdin bucket key cf ca (start files)).2 in
  call ∈ spawn_calls (trace s) → call.2 = None →
  ∃ path tg tsp tk ok,
    trace s = OpenDevnull true :: tg ++ tsp ++ tk ++ [Remove path ok] ∧
    Forall (λ e, stage_of e = Setup) tg ∧ spawn_calls tg = [] ∧
    created_tokens tg = [path] ∧
    spawning w stdin bucket key DevNull path (Raise (OSError "Popen")) tsp
             (upload_procs s) ∧
    kill_attempt (upload_procs s !! "repeater") tk ∧
    (ok = true → Forall (λ k, k.2 = true) (kills tk) →
     r = Raise (OSError "Popen")) ∧
    (ok = false → r = Raise (OSError "remove")).
Proof.
  cbv zeta.
  destruct (safe_upload w fuel procs stdin bucket key cf ca (start files))
    as [r s] eqn:Hrun. cbn [fst snd]. intros Hin Hnone.
  destruct (io_fails w 0) eqn:Hio.
  { rewrite safe_upload_no_devnull in Hrun by done.
    injection Hrun as <- <-. by apply elem_of_nil in Hin. }
  apply run_shape in Hrun
    as (r1 & s1 & tg & _ & Hu & Hp & Hst & Hsc & Hcases & Hend); [|done].
  assert (∃ t3, trace s = trace s1 ++ t3 ∧
            Forall (λ e, stage_of e ≠ Setup) t3) as (t3 & Ht & Hst3).
  { destruct Hend as [(_ & _ & ->)|(tu & tr & tf & r2 & _ & _ & -> & Htorn & Hsw & _)].
    - exists []. by rewrite app_nil_r.
    - exists (tu ++ tr ++ tf). split; [done|].
      rewrite app_assoc. apply Forall_app. split.
      + eapply stage_is; [by eapply torn_stage|done].
      + eapply stage_is; [by eapply swept_stage|done]. }
  destruct Hcases as [(e & _ & Hcr & Ht1 & Hups & _)
                     |(path & tsp & r0 & t & Hcr & Hpath & Ht1 & Hsp & Hr0)].
  { rewrite Ht, Ht1 in Hin.
    change (call ∈ spawn_calls (tg ++ t3)) in Hin.
    rewrite spawn_calls_app, Hsc, spawn_calls_off in Hin by done.
    by apply elem_of_nil in Hin. }
  assert (Forall (λ e, stage_of e ≠ Setup) t) as Hstt.
  { destruct r0 as [[]|?|]; [|by destruct Hr0 as [_ ->]..].
    eapply List.Forall_impl; [|by eapply tried_stage].
    intros e [-> | [-> | ->]]; done. }
  rewrite Ht, Ht1 in Hin.
  change (call ∈ spawn_calls ((tg ++ tsp ++ t) ++ t3)) in Hin.
  rewrite !spawn_calls_app, Hsc, (spawn_calls_off t), (spawn_calls_off t3),
    !app_nil_r in Hin by done.
  cbn [app] in Hin.
  pose proof (spawn_calls_spawning _ _ _ _ _ _ _ _ _ _ Hsp Hin Hnone) as ->.
  cbn in Hr0. destruct Hr0 as [-> ->].
  destruct Hend as [(? & _)|(tu & tr & tf & r2 & _ & _ & Ht' & Htorn & Hsw & _)];
    [done|].
  cbn in Htorn. destruct Htorn as (Hku & Hkr & [e' ->] & Hsame).
  assert (upload_procs s1 !! "uploader" = None) as Hno.
  { inversion Hsp as [Hr Htsp Hups|p1 Hr Htsp Hups|]; [done|].
    by rewrite lookup_singleton_ne. }
  rewrite Hno in Hku. cbn in Hku. subst tu.
  assert (∃ ok, tf = [Remove path ok] ∧
            (ok = true → r = Raise e') ∧
            (ok = false → r = Raise (OSError "remove"))) as (ok & -> & Hok & Hbad).
  { inversion Hsw as [Hn|p Hs Hr|p Hs Hr]; subst.
    - by rewrite Hpath in Hn.
    - rewrite Hpath in Hs. injection Hs as <-. exists true. done.
    - rewrite Hpath in Hs. injection Hs as <-. exists false. done. }
  exists path, tg, tsp, tr, ok. rewrite Hu.
  split_and!; [|done..| |done].
  - rewrite Ht', Ht1, app_nil_r. cbn [app].
    by repeat (rewrite <- !app_assoc; cbn [app]).
  - intros Hk Hall. rewrite (Hok Hk). by apply Hsame.
Qed.

Lemma failed_spawn_tears_down_witness :
  ∃ path tg tsp tk ok,
    trace (upload (spawn_fails_world 6) 5).2 =
      OpenDevnull true :: tg ++ tsp ++ tk ++ [Remove path ok] ∧
    kill_attempt (upload_procs (upload (spawn_fails_world 6) 5).2
                    !! "repeater") tk.
Proof.
  destruct (failed_spawn_tears_down (spawn_fails_world 6) 5 one_producer
              (CallerStream 0) "bucket" "key"
              (None : option (callback unit)) tt ∅
              (["/usr/local/bin/gof3r"; "put"; "-k"; "key"; "-b"; "bucket"],
               Some (PipeOf 105), Some DevNull, None))
    as (path & tg & tsp & tk & ok & Ht & _ & _ & _ & _ & Hk & _).
  - apply list_elem_of_In. vm_compute. tauto.
  - reflexivity.
  - exists path, tg, tsp, tk, ok. split; [exact Ht|exact Hk].
Defined.

End Setup.

(** ** The path of the script and the directory of the tokens *)

Module Paths.
Import Orchestrator OrchestratorProofs.










Section Facts.
Variable w : world.

(** X9: [get_term_dir] tests and then acts.  When the directory is
    absent at the test and another process makes it before the
    [os.mkdir], the [os.mkdir] fails and the error leaves
    [get_term_file]: no token is made although the directory is there,
    and the file system is left as the other processes made it. *)
Theorem mkdir_race_fails_token_creation (s : state) :
  let term_dir := path_join (RAID_MOUNT w) TERM_DIR in
  let found := others w (now s) (fs s) in
  found !! term_dir = None →
  is_Some (others w (S (now s)) found !! term_dir) →
  (get_term_dir w s).1 = Raise (OSError "mkdir") ∧
  (get_term_file w s).1 = Raise (OSError "mkdir") ∧
  trace (get_term_file w s).2 =
    trace s ++ [PathExists term_dir false; Mkdir term_dir false] ∧
  fs (get_term_file w s).2 = others w (S (now s)) found.
Proof.
  cbv zeta. unfold get_term_file, get_term_dir. cbv zeta.
  generalize (path_join (RAID_MOUNT w) TERM_DIR) as term_dir.
  intros term_dir Habs [x Hthere].
  unfold bind, ret, os_path_exists, os_mkdir, seen. cbn.
  rewrite Habs. cbn. rewrite Hthere. cbn.
  split_and!; [done..|by rewrite <- app_assoc|done].
Qed.

(** X10: [get_term_dir] asks only whether something exists at the path
    of the directory.  When that is a regular file it makes no
    directory and returns the path all the same; [tempfile.mkstemp]
    then fails, and [get_term_file] raises without having made a
    token. *)
Theorem token_dir_must_be_a_directory (s : state) (c : string) :
  let term_dir := path_join (RAID_MOUNT w) TERM_DIR in
  let found := others w (now s) (fs s) in
  found !! term_dir = Some (File c) →
  others w (S (now s)) found !! term_dir = Some (File c) →
  (get_term_dir w s).1 = Ok term_dir ∧
  trace (get_term_dir w s).2 = trace s ++ [PathExists term_dir true] ∧
  (get_term_file w s).1 = Raise (OSError "mkstemp") ∧
  trace (get_term_file w s).2 =
    trace s ++ [PathExists term_dir true; Mkstemp term_dir None].
Proof.
  cbv zeta. unfold get_term_file, get_term_dir. cbv zeta.
  generalize (path_join (RAID_MOUNT w) TERM_DIR) as term_dir.
  intros term_dir Hfile Hstill.
  unfold bind, ret, os_path_exists, os_mkdir, tempfile_mkstemp, seen. cbn.
  rewrite Hfile. cbn. rewrite Hstill.
  destruct (io_fails w (S (now s))); cbn;
    (split_and!; [done..|by rewrite <- app_assoc]).
Qed.

End Facts.

Lemma mkdir_race_fails_token_creation_witness :
  (get_term_file racing_mkdir_world (start ∅)).1 = Raise (OSError "mkdir") ∧
  fs (get_term_file racing_mkdir_world (start ∅)).2
    !! "/raid0/repeater_lock_dir" = Some Dir.
Proof.
  destruct (mkdir_race_fails_token_creation racing_mkdir_world (start ∅))
    as (_ & Hr & _ & Hfs).
  - reflexivity.
  - by eexists.
  - split; [exact Hr|]. rewrite Hfs. reflexivity.
Defined.

Lemma token_dir_must_be_a_directory_witness :
  (get_term_file calm_world
     (start {[ "/raid0/repeater_lock_dir" := File "" ]})).1
  = Raise (OSError "mkstemp").
Proof.
  apply (token_dir_must_be_a_directory calm_world
           (start {[ "/raid0/repeater_lock_dir" := File "" ]}) "");
    reflexivity.
Defined.

End Paths.

(** ** Which processes are sent a kill *)

Module Teardown.
Import Orchestrator OrchestratorProofs Records Runs.

Lemma kill_attempt_alive proc t :
  kill_attempt (Some proc) t →
  PidExists (pid proc) false ∈ t ∨ ∃ ok, (pid proc, ok) ∈ kills t.
Proof.
  cbn. intros [->|[ok ->]].
  - left. by apply list_elem_of_singleton.
  - right. exists ok. cbn. by apply list_elem_of_singleton.
Qed.

Lemma kill_attempt_kills h t k :
  kill_attempt h t → k ∈ kills t → PidExists k.1 true ∈ t.
Proof.
  destruct h as [proc|]; cbn.
  - intros [->|[ok ->]]; cbn; intros Hin.
    + by apply elem_of_nil in Hin.
    + apply list_elem_of_singleton in Hin as ->. cbn. by left.
  - intros ->. cbn. intros Hin. by apply elem_of_nil in Hin.
Qed.

(** X11: when the [try:] block of [safe_upload] has raised, a process of
    the upload side that was spawned is sent a kill if [psutil] reports
    it as existing, and is sent none if [psutil] reports it as gone. *)
Theorem upload_side_is_killed_when_alive {A} (w : world) (fuel : nat)
    (procs : gmap string Popen) (stdin : stream) (bucket key : string)
    (cf : option (callback A)) (ca : A) (files : gmap string node)
    (e : exn) (s1 : state) (name : string) (proc : Popen) :
  io_fails w 0 = false →
  try_block w fuel procs stdin bucket key cf ca DevNull
    (emit (OpenDevnull true) (start files)) = (Raise e, s1) →
  upload_procs s1 !! name = Some proc →
  let s := (safe_upload w fuel procs stdin bucket key cf ca (start files)).2 in
  ((∀ t, pid_alive w t (pid proc) = true) →
   ∃ ok, (pid proc, ok) ∈ kills (trace s)) ∧
  ((∀ t, pid_alive w t (pid proc) = false) →
   ∀ ok, (pid proc, ok) ∉ kills (trace s)).
Proof.
  intros Hio H1 Hl. cbv zeta.
  pose proof (safe_upload_recorded w fuel procs stdin bucket key cf ca files)
    as Hrec.
  pose proof H1 as Hdom.
  apply try_block_spec in Hdom as (_ & _ & _ & _ & _ & Hdom & _); [|done].
  destruct (safe_upload w fuel procs stdin bucket key cf ca (start files))
    as [r s] eqn:Hrun. cbn [fst snd] in *.
  apply run_try_block in Hrun
    as (r1 & s1' & H1' & Hk1 & _ & _ & _ & Hend); [|done].
  rewrite H1 in H1'. injection H1' as <- <-.
  destruct Hend as [(? & _)|(tu & tr & tf & r2 & _ & _ & Ht & Htorn & _ & Hsw & _)];
    [done|].
  destruct Htorn as (Hku & Hkr & _).
  assert (kills (trace s) = kills tu ++ kills tr) as Hkills.
  { rewrite Ht, !kills_app, Hk1, (kills_off tf), app_nil_r; [done|].
    eapply stage_is; [by eapply swept_stage|done]. }
  assert (∀ x, x ∈ tu ∨ x ∈ tr → ∃ t, answers w t x) as Hans.
  { intros x Hin. apply (recorded_elem w s x Hrec).
    rewrite Ht, !elem_of_app. tauto. }
  split.
  - intros Halive.
    assert (∀ t', kill_attempt (Some proc) t' → t' = tu ∨ t' = tr →
              ∃ ok, (pid proc, ok) ∈ kills t') as Hone.
    { intros t' Hk Hwhich.
      apply kill_attempt_alive in Hk as [Hin|Hin]; [|done].
      destruct (Hans (PidExists (pid proc) false)) as [t Hf].
      { destruct Hwhich as [->| ->]; auto. }
      cbn in Hf. by rewrite Halive in Hf. }
    rewrite Hkills.
    destruct (Hdom name) as [-> | ->]; [by eexists|..].
    + rewrite Hl in Hkr. destruct (Hone tr Hkr) as [ok Hin]; [by right|].
      exists ok. apply elem_of_app. by right.
    + rewrite Hl in Hku. destruct (Hone tu Hku) as [ok Hin]; [by left|].
      exists ok. apply elem_of_app. by left.
  - intros Hgone ok Hin. rewrite Hkills in Hin.
    assert (PidExists (pid proc) true ∈ tu ∨ PidExists (pid proc) true ∈ tr)
      as Hex.
    { apply elem_of_app in Hin as [Hin|Hin].
      - left. by apply (kill_attempt_kills _ _ (pid proc, ok) Hku).
      - right. by apply (kill_attempt_kills _ _ (pid proc, ok) Hkr). }
    destruct (Hans _ Hex) as [t Htrue]. cbn in Htrue.
    by rewrite Hgone in Htrue.
Qed.

Lemma upload_side_is_killed_when_alive_witness :
  ∃ ok, (106%Z, ok) ∈ kills (trace (upload failing_producer_world 5).2).
Proof.
  apply (upload_side_is_killed_when_alive failing_producer_world 5
           one_producer (CallerStream 0) "bucket" "key"
           (None : option (callback unit)) tt ∅
           (ProcFailure "mysqldump" 1)
           (upload_try failing_producer_world 5).2
           "uploader" (uploader_handle 106)).
  - reflexivity.
  - by vm_compute.
  - by vm_compute.
  - reflexivity.
Defined.

(** X12: [kill_precursor_procs] sends its kills by what [psutil]
    reports: a handle of the mapping whose process is reported as
    existing is sent a kill, and every kill that is sent goes to the pid
    of a handle of the mapping that was reported as existing. *)
Theorem kill_precursor_procs_follows_liveness (w : world)
    (procs : gmap string (option Popen)) (s : state) :
  recorded w s →
  ∃ t, trace (kill_precursor_procs w procs s).2 = trace s ++ t ∧
    (∀ name handle,
       procs !! name = Some (Some handle) →
       (∀ i, pid_alive w i (pid handle) = true) →
       ∃ ok, (pid handle, ok) ∈ kills t) ∧
    (∀ p ok,
       (p, ok) ∈ kills t →
       ∃ name handle i,
         procs !! name = Some (Some handle) ∧ pid handle = p ∧
         pid_alive w i p = true).
Proof.
  intros Hrec.
  destruct (kill_precursor_procs_spec w procs s) as (s' & ts & Hrun & Ht & Hall).
  assert (recorded w s') as Hrec'.
  { eapply keeps_kill_precursor_procs; done. }
  rewrite Hrun. cbn [snd]. exists (concat ts). split; [done|].
  assert (∀ x tk, tk ∈ ts → x ∈ tk → ∃ i, answers w i x) as Hans.
  { intros x tk Htk Hx. apply (recorded_elem w s' x Hrec').
    rewrite Ht, elem_of_app. right. clear -Htk Hx.
    induction ts as [|t0 ts' IH]; cbn.
    - by apply elem_of_nil in Htk.
    - rewrite elem_of_app.
      apply elem_of_cons in Htk as [<-|Htk]; auto. }
  assert (∀ tk k, tk ∈ ts → k ∈ kills tk → k ∈ kills (concat ts)) as Hup.
  { clear. intros tk k Htk Hk. induction ts as [|t0 ts' IH]; cbn.
    - by apply elem_of_nil in Htk.
    - rewrite kills_app, elem_of_app.
      apply elem_of_cons in Htk as [<-|Htk]; auto. }
  split.
  - intros name handle Hl Halive.
    apply elem_of_map_to_list in Hl.
    apply list_elem_of_lookup in Hl as [i Hi].
    destruct (Forall2_lookup_l _ _ _ _ _ Hall Hi) as (tk & Htk & Hk).
    cbn in Hk.
    assert (tk ∈ ts) as Hin by (by eapply list_elem_of_lookup_2).
    apply (kill_attempt_alive handle) in Hk as [Hf|[ok Hok]].
    + destruct (Hans _ _ Hin Hf) as [j Hj]. cbn in Hj.
      by rewrite Halive in Hj.
    + exists ok. by eapply Hup.
  - intros p ok Hin.
    assert (∃ tk, tk ∈ ts ∧ (p, ok) ∈ kills tk) as (tk & Htk & Hk).
    { clear -Hin. induction ts as [|t0 ts' IH]; cbn in Hin.
      - by apply elem_of_nil in Hin.
      - rewrite kills_app, elem_of_app in Hin. destruct Hin as [Hin|Hin].
        + exists t0. split; [by left|done].
        + destruct (IH Hin) as (tk & ? & ?). exists tk. split; [by right|done]. }
    apply list_elem_of_lookup in Htk as [i Hi].
    destruct (Forall2_lookup_r _ _ _ _ _ Hall Hi) as ([name v] & Hnv & Hka).
    cbn in Hka.
    assert (procs !! name = Some v) as Hl.
    { apply elem_of_map_to_list. by eapply list_elem_of_lookup_2. }
    pose proof (kill_attempt_kills _ _ _ Hka Hk) as Hex. cbn in Hex.
    destruct v as [handle|]; cbn in Hka; [|subst tk; by apply elem_of_nil in Hk].
    assert (pid handle = p) as Hp.
    { destruct Hka as [->|[ok' ->]]; cbn in Hk.
      - by apply elem_of_nil in Hk.
      - by apply list_elem_of_singleton in Hk as [= -> _]. }
    destruct (Hans (PidExists p true) tk) as [j Hj];
      [by eapply list_elem_of_lookup_2|done|].
    cbn in Hj. exists name, handle, j. done.
Qed.

Lemma kill_precursor_procs_follows_liveness_witness :
  ∃ t, trace (kill_precursor_procs calm_world
                ((Some <$> one_producer) : gmap string (option Popen))
                (start ∅)).2 = t ∧
       ∃ ok, (7%Z, ok) ∈ kills t.
Proof.
  destruct (kill_precursor_procs_follows_liveness calm_world
              (Some <$> one_producer) (start ∅))
    as (t & Ht & Hsent & _);
    [split; [reflexivity|intros i e Hl; inversion Hl]|].
  exists t. split; [exact Ht|].
  apply (Hsent "mysqldump" {| pid := 7; stdout := Some (PipeOf 7) |}).
  - by vm_compute.
  - reflexivity.
Defined.

End Teardown.

(** ** A producer that never exits *)

Module Stalls.
Import Orchestrator OrchestratorProofs Records Runs.

Section Facts.
Variable w : world.
Hypothesis nobody_fails :
  ∀ t p, poll_ret w t p = None ∨ poll_ret w t p = Some 0%Z.

Lemma poll_all_quiet g l acc s :
  ∃ b s', poll_all w g l acc s = (Ok b, s') ∧
          (b = true →
           acc = true ∧
           ∀ np, np ∈ l → ∃ t, poll_ret w t (pid np.2) = Some 0%Z).
Proof.
  revert acc s. induction l as [|[name proc] l IH]; intros acc s.
  { exists acc, s. split; [done|]. intros ->. split; [done|].
    intros np Hin. by apply elem_of_nil in Hin. }
  cbn [poll_all]. unfold bind, Popen_poll.
  destruct (nobody_fails (now s) (pid proc)) as [E|E]; rewrite E; cbn.
  - destruct (IH false (emit (Poll g name (pid proc) None) s))
      as (b & s' & Hrun & Hb).
    exists b, s'. split; [done|]. intros Htrue.
    by destruct (Hb Htrue) as [? _].
  - destruct (IH acc (emit (Poll g name (pid proc) (Some 0%Z)) s))
      as (b & s' & Hrun & Hb).
    exists b, s'. split; [done|]. intros Htrue.
    destruct (Hb Htrue) as [-> Hall]. split; [done|]. intros np Hin.
    apply elem_of_cons in Hin as [->|Hin]; [by eexists|by apply Hall].
Qed.

Lemma wait_precursors_stuck procs name proc fuel s :
  procs !! name = Some proc → (∀ t, poll_ret w t (pid proc) = None) →
  ∃ s', wait_precursors w fuel procs s = (Running, s').
Proof.
  intros Hl Hnever. revert s. induction fuel as [|fuel IH]; intros s.
  { by exists s. }
  unfold wait_precursors in *. cbn [while].
  unfold bind at 1. unfold bind at 1. unfold check_dict_of_procs at 1.
  destruct (poll_all_quiet Precursor (map_to_list procs) true s)
    as (b & s1 & -> & Hb).
  assert (b = false) as ->.
  { destruct b; [|done]. destruct (Hb eq_refl) as [_ Hall].
    destruct (Hall (name, proc)) as [t Ht].
    - by apply elem_of_map_to_list.
    - cbn in Ht. by rewrite Hnever in Ht. }
  cbn. unfold bind at 1. unfold bind at 1. unfold load_upload_procs at 1.
  unfold bind at 1. unfold check_dict_of_procs at 1.
  destruct (poll_all_quiet Upload (map_to_list (upload_procs s1)) true s1)
    as (b' & s2 & -> & _).
  unfold time_sleep at 1. cbn. apply IH.
Qed.

End Facts.

(** X13: there is no timeout.  On a machine where no system call fails
    and no process ever fails, a producer that never exits keeps
    [safe_upload] in its first loop: however many rounds are watched,
    the call has neither returned nor raised, and it has sent no kill
    and removed nothing. *)
Theorem stuck_producer_is_waited_for {A} (w : world)
    (procs : gmap string Popen) (stdin : stream) (bucket key : string)
    (cf : option (callback A)) (ca : A) (files : gmap string node)
    (name : string) (proc : Popen) :
  let term_dir := path_join (RAID_MOUNT w) TERM_DIR in
  (∀ t, io_fails w t = false) →
  (∀ t f, others w t f = f) →
  (∀ c, files !! term_dir ≠ Some (File c)) →
  (∀ t, ∃ n, n ∈ tmp_names w t ∧
             files !! path_join term_dir ("tmp" +:+ n) = None) →
  (∀ t, is_Some (spawn_pid w t)) →
  (∀ t p, poll_ret w t p = None ∨ poll_ret w t p = Some 0%Z) →
  procs !! name = Some proc →
  (∀ t, poll_ret w t (pid proc) = None) →
  ∀ fuel,
    let r := (safe_upload w fuel procs stdin bucket key cf ca (start files)).1 in
    let s := (safe_upload w fuel procs stdin bucket key cf ca (start files)).2 in
    r = Running ∧ kills (trace s) = [] ∧ removals (trace s) = [].
Proof.
  cbv zeta. intros Hio Hquiet Hdir Hnames Hspawn Hpolls Hl Hnever fuel.
  destruct (safe_upload w fuel procs stdin bucket key cf ca (start files))
    as [r s] eqn:Hrun. cbn [fst snd].
  apply run_try_block in Hrun
    as (r1 & s1 & H1 & Hk1 & Hr1 & _ & _ & Hend); [|done].
  assert (r1 = Running) as ->.
  { unfold try_block in H1. unfold bind at 1 in H1.
    destruct (spawn_upload_procs w stdin bucket key DevNull
                (emit (OpenDevnull true) (start files))) as [r0 s0] eqn:H0.
    assert (r0 = Ok tt) as ->.
    { unfold spawn_upload_procs in H0. unfold bind at 1 in H0.
      destruct (get_term_file_returns w (emit (OpenDevnull true) (start files))
                  Hio Hquiet Hdir Hnames) as (path & sg & Hg).
      rewrite Hg in H0.
      unfold bind, store_term_path, load_term_path, Popen_new,
        store_upload_proc, load_upload_procs, getitem, ret, raise in H0.
      cbn in H0.
      destruct (Hspawn (now sg)) as [p1 E1]. rewrite E1 in H0. cbn in H0.
      rewrite lookup_insert_eq in H0. cbn in H0.
      destruct (Hspawn (S (now sg))) as [p2 E2]. rewrite E2 in H0.
      by injection H0 as <- _. }
    unfold bind at 1 in H1.
    destruct (wait_precursors_stuck w Hpolls procs name proc fuel s0 Hl Hnever)
      as [s' Hw].
    rewrite Hw in H1. by injection H1 as <- _. }
  destruct Hend as [(_ & -> & ->)|(? & ? & ? & ? & ? & _)]; done.
Qed.

Lemma stuck_producer_is_waited_for_witness :
  (upload stuck_world 7).1 = Running ∧
  kills (trace (upload stuck_world 7).2) = [].
Proof.
  destruct (stuck_producer_is_waited_for stuck_world one_producer
              (CallerStream 0) "bucket" "key"
              (None : option (callback unit)) tt ∅
              "mysqldump" {| pid := 7; stdout := Some (PipeOf 7) |})
    with (fuel := 7) as (Hr & Hk & _).
  - reflexivity.
  - reflexivity.
  - intros c. discriminate.
  - intros t. exists "abc". split; [by left|reflexivity].
  - intros t. by eexists.
  - intros t p. by left.
  - reflexivity.
  - reflexivity.
  - split; [exact Hr|exact Hk].
Defined.

End Stalls.

(** ** The two ends of the termination file *)

Module Handshake.
Import Orchestrator OrchestratorProofs.

Lemma relay_view_waits files path :
  Relay.unsignalled (relay_view files) path 0 →
  ∀ fuel, (Relay.main (relay_view files) path fuel Relay.start).1 = Running.
Proof.
  intros Hu fuel.
  destruct (RelayProofs.main_running (relay_view files) path fuel Relay.start)
    as (s' & Hrun & _); [|by rewrite Hrun].
  intros i _. split; [done|]. intros _. exact Hu.
Qed.

Lemma relay_view_exits files path :
  Relay.signalled (relay_view files) path 0 →
  ∀ fuel, (Relay.main (relay_view files) path (S fuel) Relay.start).1
          = Raise (SystemExit 0).
Proof.
  intros Hs fuel.
  apply (RelayProofs.main_exit_complete (relay_view files) path (S fuel)
           Relay.start 0); cbn; [lia|intros j ?; lia|done..].
Qed.

(** X14: the two processes agree on the termination file.  The token as
    [get_term_file] leaves it does not stop a relay that looks at it;
    once [safe_upload] has written it, the relay's check returns true
    and the relay exits with status 0 at its next empty read; and after
    the removal in the [finally:] block a relay that is still there
    keeps running. *)
Theorem token_handshake (w : world) (s s' : state) (path : string) :
  (get_term_file w s = (Ok path, s') →
   (Relay.check_term_file (relay_view (fs s')) path Relay.start).1 = Ok false ∧
   ∀ fuel, (Relay.main (relay_view (fs s')) path fuel Relay.start).1
           = Running) ∧
  (term_path s = Some path → signal w s = (Ok tt, s') →
   (Relay.check_term_file (relay_view (fs s')) path Relay.start).1 = Ok true ∧
   ∀ fuel, exit_status
             (Relay.main (relay_view (fs s')) path (S fuel) Relay.start).1
           = Some 0%Z) ∧
  (term_path s = Some path → finally_block w s = (Ok tt, s') →
   ∀ fuel, (Relay.main (relay_view (fs s')) path fuel Relay.start).1
           = Running).
Proof.
  split_and!.
  - intros Hrun.
    apply get_term_file_fresh in Hrun as (files & name & _ & _ & _ & _ & Hfs).
    assert (fs s' !! path = Some (File "")) as Hl
      by (by rewrite Hfs, lookup_insert_eq).
    split.
    + rewrite (RelayProofs.check_term_file_false (relay_view (fs s')) path
                 Relay.start "" Hl); done.
    + apply relay_view_waits. right. exists "". done.
  - intros Hp Hrun.
    unfold signal, bind, load_term_path, write_file in Hrun.
    rewrite Hp in Hrun.
    destruct (io_fails w (now s)); [done|]. injection Hrun as <-.
    assert (fs (emit (WriteFile path TERM_STRING true)
                  (set_fs (<[path := File TERM_STRING]> (seen w s)) s))
              !! path = Some (File TERM_STRING)) as Hl
      by (cbn; by rewrite lookup_insert_eq).
    split.
    + apply (RelayProofs.check_term_file_true (relay_view _) path Relay.start).
      exists TERM_STRING. done.
    + intros fuel. rewrite relay_view_exits; [done|].
      split; [by eexists|]. exists TERM_STRING. done.
  - intros Hp Hrun.
    apply finally_block_spec in Hrun as (_ & _ & Hcases). rewrite Hp in Hcases.
    destruct Hcases as [(_ & _ & Hgone)|[? _]]; [|done].
    apply relay_view_waits. by left.
Qed.

Lemma token_handshake_witness :
  let made := (get_term_file calm_world (start ∅)).2 in
  let asked := set_term_path (Some the_token) made in
  get_term_file calm_world (start ∅) = (Ok the_token, made) ∧
  (Relay.main (relay_view (fs made)) the_token 9 Relay.start).1 = Running ∧
  exit_status
    (Relay.main (relay_view (fs (signal calm_world asked).2)) the_token 1
       Relay.start).1 = Some 0%Z.
Proof.
  cbv zeta. split; [reflexivity|]. split.
  - destruct (proj1 (token_handshake calm_world (start ∅)
                       (get_term_file calm_world (start ∅)).2 the_token))
      as [_ Hwaits]; [reflexivity|].
    apply Hwaits.
  - destruct (proj1 (proj2 (token_handshake calm_world
                (set_term_path (Some the_token)
                   (get_term_file calm_world (start ∅)).2)
                (signal calm_world
                   (set_term_path (Some the_token)
                      (get_term_file calm_world (start ∅)).2)).2
                the_token)))
      as [_ Hexits]; [reflexivity|reflexivity|].
    apply Hexits.
Defined.

End Handshake.
